(** * Decoders of core/import-csv.cpp

    A shallow embedding of the dive-log import decoders of
    [core/import-csv.cpp]: the line tokenizer [parse_csv_line], the markup
    wrapper [try_to_xslt_open_csv], the generic CSV decoder
    [try_to_open_csv], the DAN (DL7) segment decoder [parse_dan_format],
    the sample loop of the Poseidon MkVI decoder [parse_txt_file] and the
    Seabear decoder [parse_seabear_csv_file].

    Buffers are lists of bytes ([ascii]); a [char *] into a buffer is an
    offset, a nullable pointer an [option nat].  A [std::string] of size
    [n] is followed by a terminating NUL at offset [n], so reading offset
    [n] yields NUL.  Loops that advance a cursor through a buffer are
    written with fuel, and the entry points supply enough of it. *)

From stdpp Require Import base option list strings gmap.
From Stdlib Require Import ZArith Lia Ascii.

Local Open Scope char_scope.
Local Open Scope list_scope.

(** ** Bytes, C strings and the libc primitives the decoders use *)

Abbreviation bytes := (list ascii).

Definition NUL : ascii := "000".

(** String literals of the source, as byte lists. *)
Definition lit (s : string) : bytes := String.list_ascii_of_string s.

(** [p[i]]: the byte at offset [i]; the terminator past the last byte. *)
Definition char_at (buf : bytes) (i : nat) : ascii := nth i buf NUL.

(** The C string starting at the head of [s]: the bytes before the first NUL. *)
Fixpoint cstr (s : bytes) : bytes :=
  match s with
  | [] => []
  | c :: s' => if Ascii.eqb c NUL then [] else c :: cstr s'
  end.

Definition strlen (s : bytes) : nat := length (cstr s).

(** [isprefix p s]: the bytes of [p] are the first bytes of [s]. *)
Fixpoint isprefix (p s : bytes) : bool :=
  match p, s with
  | [], _ => true
  | _ :: _, [] => false
  | a :: p', b :: s' => Ascii.eqb a b && isprefix p' s'
  end.

(** [strstr_from s needle off]: [strstr] over the C string at the head of
    [s], which sits at offset [off] of its buffer.  The needles of the
    source are literals without NUL. *)
Fixpoint strstr_from (s needle : bytes) (off : nat) : option nat :=
  if isprefix needle s then Some off
  else match s with
       | [] => None
       | c :: s' => if Ascii.eqb c NUL then None else strstr_from s' needle (S off)
       end.

Definition strstr (buf : bytes) (p : nat) (needle : bytes) : option nat :=
  strstr_from (drop p buf) (cstr needle) p.

(** [strchr(p, c)] for a non-NUL [c]. *)
Definition strchr (buf : bytes) (p : nat) (c : ascii) : option nat :=
  strstr buf p [c].

(** [strncmp(p, pattern, strlen(pattern)) == 0]: the patterns are
    literals without NUL, so it compares a prefix.  The [MATCH] macro is
    [memcmp] over [strlen(pattern)] bytes: the same prefix test where that
    many bytes can be read. *)
Definition starts_with (buf : bytes) (p : nat) (pattern : bytes) : bool :=
  isprefix pattern (drop p buf).

(** [memchr(p, c, n)] *)
Fixpoint memchr_from (s : bytes) (c : ascii) (n off : nat) : option nat :=
  match n, s with
  | S n', x :: s' => if Ascii.eqb x c then Some off else memchr_from s' c n' (S off)
  | _, _ => None
  end.

Definition memchr (buf : bytes) (p : nat) (c : ascii) (n : nat) : option nat :=
  memchr_from (drop p buf) c n p.

(** [std::string(p, n)] *)
Definition substr (buf : bytes) (p n : nat) : bytes := take n (drop p buf).

(** ** Diagnostics and outcomes *)

(** What [report_info] and [report_error] receive: the format string of the
    call (arguments elided), and the one numeric diagnostic of the wrapper. *)
Inductive diag : Type :=
  | Info (fmt : string)
  | Error (fmt : string)
  | OffBy (n : nat).

(** The result of running a function: it returns, or it runs into
    behaviour the language leaves undefined (a store outside the buffer,
    a null cursor handed to [strncmp]), or the fuel of a loop ran out. *)
Inductive outcome (A : Type) : Type :=
  | Returns (a : A)
  | Undefined
  | OutOfFuel.
Arguments Returns {A} a.
Arguments Undefined {A}.
Arguments OutOfFuel {A}.

(** ** 4.3 The markup wrapper: [try_to_xslt_open_csv] *)

(** [mem.resize(n)] for [n >= mem.size()]: new bytes are NUL. *)
Definition resize (mem : bytes) (n : nat) : bytes :=
  take n mem ++ replicate (n - length mem) NUL.

(** [*--ptr_out = c]: the store is defined only inside the buffer. *)
Definition store_dec (mem : bytes) (ptr_out : nat) (c : ascii) : option (bytes * nat) :=
  match ptr_out with
  | 0 => None
  | S q => if decide (q < length mem) then Some (<[q := c]> mem, q) else None
  end.

(** A run of [*--ptr_out = c] stores, in program order. *)
Fixpoint store_dec_seq (mem : bytes) (ptr_out : nat) (cs : bytes) : option (bytes * nat) :=
  match cs with
  | [] => Some (mem, ptr_out)
  | c :: cs' =>
      match store_dec mem ptr_out c with
      | Some (mem', q) => store_dec_seq mem' q cs'
      | None => None
      end
  end.

(** [memcpy(dst, src, n)] into the buffer at offset [dst]. *)
Fixpoint memcpy (mem : bytes) (dst : nat) (src : bytes) : option bytes :=
  match src with
  | [] => Some mem
  | c :: src' =>
      if decide (dst < length mem) then memcpy (<[dst := c]> mem) (S dst) src' else None
  end.

(** [ptr_out -= tag_name_size; memcpy(ptr_out, tag, tag_name_size);] *)
Definition store_tag (mem : bytes) (ptr_out : nat) (tag : bytes) : option (bytes * nat) :=
  let tag_name_size := strlen tag in
  if decide (tag_name_size <= ptr_out) then
    match memcpy mem (ptr_out - tag_name_size) (take tag_name_size tag) with
    | Some mem' => Some (mem', ptr_out - tag_name_size)
    | None => None
    end
  else None.

(** The ampersand count of lines 433-437. *)
Fixpoint count_amp (mem : bytes) : nat :=
  match mem with
  | [] => 0
  | c :: mem' => (if Ascii.eqb c "&" then 1 else 0) + count_amp mem'
  end.

(** The backward fill of lines 463-471.  [n] is [ptr_in - mem.data()]
    before the pre-decrement of the loop test; the loop ends when the
    decrement would leave the buffer. *)
Fixpoint fill_backward (n : nat) (mem : bytes) (ptr_out : nat) : option (bytes * nat) :=
  match n with
  | 0 => Some (mem, ptr_out)
  | S ptr_in =>
      let c := char_at mem ptr_in in
      match (if Ascii.eqb c "&"
             then store_dec_seq mem ptr_out [";"; "p"; "m"; "a"]
             else Some (mem, ptr_out)) with
      | Some (mem1, out1) =>
          match store_dec mem1 out1 c with
          | Some (mem2, out2) => fill_backward ptr_in mem2 out2
          | None => None
          end
      | None => None
      end
  end.

(** Lines 450-483, on a non-empty [mem]: returns the buffer and the final
    [ptr_out - mem.data()]. *)
Definition xslt_wrap (mem tag : bytes) : option (bytes * nat) :=
  let amp := count_amp mem in
  let tag_name_size := strlen tag in
  let old_size := length mem in
  let mem := resize mem (length mem + tag_name_size * 2 + 5 + amp * 4) in
  let ptr_in := old_size in
  let ptr_out := length mem in
  (* Add end tag *)
  '(mem, ptr_out) ← store_dec mem ptr_out ">";
  '(mem, ptr_out) ← store_tag mem ptr_out tag;
  '(mem, ptr_out) ← store_dec_seq mem ptr_out ["/"; "<"];
  '(mem, ptr_out) ← fill_backward ptr_in mem ptr_out;
  (* Add start tag *)
  '(mem, ptr_out) ← store_dec mem ptr_out ">";
  '(mem, ptr_out) ← store_tag mem ptr_out tag;
  '(mem, ptr_out) ← store_dec mem ptr_out "<";
  Some (mem, ptr_out).

(** [try_to_xslt_open_csv(filename, mem, tag)].  [file] is what
    [readfile(filename)] yields: [None] for a read error.  The result is
    the return value, the buffer [mem] afterwards and the diagnostics. *)
Definition try_to_xslt_open_csv (file : option bytes) (mem tag : bytes)
  : outcome (Z * bytes * list diag) :=
  let wrap (mem : bytes) :=
    match xslt_wrap mem tag with
    | Some (mem', ptr_out) =>
        Returns (0%Z, mem', if decide (ptr_out ≠ 0) then [OffBy ptr_out] else [])
    | None => Undefined
    end in
  match mem with
  | [] =>
      match file with
      | None => Returns ((-1)%Z, mem, [Error "Failed to read '%s'"])
      | Some [] => Returns (0%Z, mem, [])  (* Empty file - nothing to do. *)
      | Some mem2 => wrap mem2
      end
  | _ => wrap mem
  end.

(** The contract of the wrapper, as the specification words it. *)
Definition escape_amp (mem : bytes) : bytes :=
  flat_map (fun c => if Ascii.eqb c "&" then lit "&amp;" else [c]) mem.

Definition wrapped (mem tag : bytes) : bytes :=
  lit "<" ++ cstr tag ++ lit ">" ++ escape_amp mem ++ lit "</" ++ cstr tag ++ lit ">".

(** What the wrapper works on: [mem] itself, or the content of the file
    when [mem] is empty. *)
Definition wrapper_input (file : option bytes) (mem : bytes) : option bytes :=
  match mem with
  | [] => file
  | _ => Some mem
  end.

(** ** 4.1 The tokenizer: [parse_csv_line] *)

(** The [while (field_start < line_end)] loop of lines 132-146.  [n]
    bounds the iterations left: every iteration but the last moves
    [field_start] past a delimiter, so [line_end - field_start] is enough. *)
Fixpoint csv_fields_loop (n : nat) (buf : bytes) (field_start line_end : nat)
    (delim : ascii) (fields : list bytes) : list bytes :=
  match n with
  | 0 => fields
  | S n' =>
      if decide (field_start < line_end) then
        match memchr buf field_start delim (line_end - field_start) with
        | Some field_end =>
            csv_fields_loop n' buf (field_end + 1) line_end delim
              (fields ++ [substr buf field_start (field_end - field_start)])
        | None => fields ++ [substr buf field_start (line_end - field_start)]
        end
      else fields
  end.

(** [parse_csv_line(ptr, NL, delim, fields)]: the return value, the cursor
    and the field vector afterwards, and the diagnostics. *)
Definition parse_csv_line (buf : bytes) (ptr : nat) (NL : bytes) (delim : ascii)
    (fields : list bytes) : Z * nat * list bytes * list diag :=
  let found := strstr buf ptr NL in
  let withNL := bool_decide (is_Some found) in
  let line_end := default (ptr + strlen (drop ptr buf)) found in
  let field_start := ptr in
  if Ascii.eqb (char_at buf field_start) delim then
    let field_start := field_start + 1 in
    let fields := csv_fields_loop (line_end - field_start) buf field_start line_end delim fields in
    let ptr := line_end in
    let ptr := if withNL then ptr + strlen NL else ptr in
    (0%Z, ptr, fields, [])
  else ((-1)%Z, ptr, fields, [Error "DEBUG: No leading delimiter found"]).

(** ** The canonical parameter set *)

(** Modelled from the spec: [struct xml_params] and its accessors live in
    [xmlparams.cpp], which is not among the sources.  The set is an ordered
    sequence of name/value pairs: [add] appends, [resize] restores a base
    size, [set_value] on a known index replaces the value in place. *)
Abbreviation xml_params := (list (string * bytes)).

Definition xml_params_count (params : xml_params) : nat := length params.

Definition xml_params_add (params : xml_params) (key : string) (value : bytes) : xml_params :=
  params ++ [(key, value)].

Definition xml_params_resize (params : xml_params) (n : nat) : xml_params :=
  take n params ++ replicate (n - length params) (EmptyString, []).

Definition xml_params_get_value (params : xml_params) (idx : nat) : bytes :=
  default [] (snd <$> params !! idx).

Definition xml_params_set_value (params : xml_params) (idx : nat) (value : bytes) : xml_params :=
  match params !! idx with
  | Some (key, _) => <[idx := (key, value)]> params
  | None => params
  end.

(** ** 4.5 The DAN (DL7) decoder *)

Definition parse_dan_new_line (buf : bytes) (p : option nat) (NL : bytes)
  : option nat * list diag :=
  match p with
  | None => (None, [])
  | Some iter =>
      match strstr buf iter NL with
      | Some iter => (Some (iter + strlen NL), [])
      | None => (None, [Info "DEBUG: No new line found"])
      end
  end.

(** [for (i = 0; i < csv_fields.size(); i++) fields[i] = csv_fields[i];] *)
Fixpoint assign_fields (i : nat) (csv_fields : list bytes) (fields : gmap nat bytes)
  : gmap nat bytes :=
  match csv_fields with
  | [] => fields
  | f :: rest => assign_fields (S i) rest (<[i := f]> fields)
  end.

Definition parse_dan_fields (buf : bytes) (NL : bytes) (fields : gmap nat bytes) (ptr : nat)
  : Z * gmap nat bytes * nat * list diag :=
  let '(ret, ptr, csv_fields, d) := parse_csv_line buf ptr NL "|" [] in
  if (ret <? 0)%Z then ((-1)%Z, fields, ptr, d)
  else if decide (size fields < length csv_fields) then
    ((-1)%Z, fields, ptr, d ++ [Info "DEBUG: More DAN fields than expected"])
  else (0%Z, assign_fields 0 csv_fields fields, ptr, d).

(** A dictionary with the slots [0 .. n-1], each empty. *)
Definition empty_slots (n : nat) : gmap nat bytes :=
  list_to_map ((fun i => (i, [])) <$> seq 0 n).

(** [fields[k]] *)
Definition slot (fields : gmap nat bytes) (k : nat) : bytes := default [] (fields !! k).

Module ZDH_FIELD.
Definition EXPORT_SEQUENCE := 0.
Definition INTERNAL_DIVE_SEQUENCE := 1.
Definition RECORD_TYPE := 2.
Definition RECORDING_INTERVAL := 3.
Definition LEAVE_SURFACE := 4.
Definition AIR_TEMPERATURE := 5.
Definition TANK_VOLUME := 6.
Definition O2_MODE := 7.
Definition REBREATHER_DILUENT_GAS := 8.
Definition ALTITUDE := 9.
End ZDH_FIELD.

Module ZDT_FIELD.
Definition EXPORT_SEQUENCE := 0.
Definition INTERNAL_DIVE_SEQUENCE := 1.
Definition MAX_DEPTH := 2.
Definition REACH_SURFACE := 3.
Definition MIN_WATER_TEMP := 4.
Definition PRESSURE_DROP := 5.
End ZDT_FIELD.

(** Parses the DAN ZDH dive header. *)
Definition parse_dan_zdh (buf : bytes) (NL : bytes) (params : xml_params) (ptr : nat)
  : Z * xml_params * nat * list diag :=
  let ptr := ptr + 3 in
  let fields := empty_slots 10 in
  let '(ret, fields, ptr, d) := parse_dan_fields buf NL fields ptr in
  if (ret <? 0)%Z then ((-1)%Z, params, ptr, d)
  else
    let leaveSurface := slot fields ZDH_FIELD.LEAVE_SURFACE in
    let params :=
      if decide (8 <= length leaveSurface)
      then xml_params_add params "date" (take 8 leaveSurface) else params in
    let params :=
      if decide (14 <= length leaveSurface)
      then xml_params_add params "time" (lit "1" ++ take 6 (drop 8 leaveSurface)) else params in
    let params := xml_params_add params "airTemp" (slot fields ZDH_FIELD.AIR_TEMPERATURE) in
    let params := xml_params_add params "diveNro" (slot fields ZDH_FIELD.INTERNAL_DIVE_SEQUENCE) in
    (0%Z, params, ptr, d).

(** Parse the DAN ZDT dive trailer. *)
Definition parse_dan_zdt (buf : bytes) (NL : bytes) (params : xml_params) (ptr : nat)
  : Z * xml_params * nat * list diag :=
  let ptr := ptr + 3 in
  let fields := empty_slots 6 in
  let '(ret, fields, ptr, d) := parse_dan_fields buf NL fields ptr in
  if (ret <? 0)%Z then ((-1)%Z, params, ptr, d)
  else
    let params := xml_params_add params "waterTemp" (slot fields ZDT_FIELD.MIN_WATER_TEMP) in
    (0%Z, params, ptr, d).

(** [parse_dan_zdp]: the return value, the cursor (null when no newline
    follows the closing marker), [mem_csv] and the diagnostics. *)
Definition parse_dan_zdp (buf : bytes) (NL : bytes) (ptr : nat) (mem_csv : bytes)
  : Z * option nat * bytes * list diag :=
  if negb (starts_with buf ptr (lit "ZDP{")) then
    ((-1)%Z, Some ptr, mem_csv, [Error "DEBUG: Failed to find start of ZDP"])
  else if Ascii.eqb (char_at buf (ptr + 4)) "}" then
    ((-1)%Z, Some ptr, mem_csv, [Error "No dive profile found from '%s'"])
  else
    match parse_dan_new_line buf (Some ptr) NL with
    | (None, d) => ((-1)%Z, None, mem_csv, d)
    | (Some ptr, d) =>
        (* We're now in the ZDP segment. Look for the end of it. *)
        match strstr buf ptr (lit "ZDP}") with
        | None => ((-1)%Z, Some ptr, mem_csv, d ++ [Error "DEBUG: failed to find end of ZDP"])
        | Some end_ptr =>
            let mem_csv := substr buf ptr (end_ptr - ptr) in
            (* Skip the trailing 'ZDP}' line. *)
            let '(ptr, d') := parse_dan_new_line buf (Some end_ptr) NL in
            (0%Z, ptr, mem_csv, d ++ d')
        end
    end.

Definition CR : ascii := "013".
Definition LF : ascii := "010".

Instance outcome_ret : MRet outcome := fun _ a => Returns a.
Instance outcome_bind : MBind outcome := fun _ _ f m =>
  match m with
  | Returns a => f a
  | Undefined => Undefined
  | OutOfFuel => OutOfFuel
  end.

Section DAN.
(** The dive log and the transform engine are external:
    [parse_xml_buffer(filename, buf, size, log, params)] returns a status
    and appends to the log. *)
Context {divelog : Type}.
Variable parse_xml_buffer : bytes -> xml_params -> divelog -> Z * divelog.

(** What the function leaves behind when it returns: the return value,
    the parameter set, the log and the diagnostics. *)
Definition dan_result : Type := Z * xml_params * divelog * list diag.

(** The variables that live across iterations of the dive loop. *)
Record dan_state : Type := DanState {
  ds_ptr : nat;
  ds_ret : Z;
  ds_params : xml_params;
  ds_log : divelog;
  ds_diags : list diag
}.

(** Lines 328-332: locate the ZDH header.  [None] when the scan runs off
    the buffer, after the error report. *)
Fixpoint locate_zdh (fuel : nat) (buf NL : bytes) (ptr : nat)
  : outcome (option nat * list diag) :=
  if starts_with buf ptr (lit "ZDH") then Returns (Some ptr, [])
  else
    match fuel with
    | 0 => OutOfFuel
    | S fuel' =>
        match parse_dan_new_line buf (Some ptr) NL with
        | (Some ptr', d) =>
            '(r, d') ← locate_zdh fuel' buf NL ptr'; Returns (r, d ++ d')
        | (None, d) => Returns (None, d ++ [Error "Expected ZDH header not found"])
        end
    end.

(** Lines 337-342: the optional ZDP block.  The cursor is null when the
    closing marker is not followed by a newline. *)
Definition dan_profile (buf NL : bytes) (ptr : nat)
  : Z * option nat * bytes * list diag :=
  let mem_csv := [] in
  if starts_with buf ptr (lit "ZDP") then parse_dan_zdp buf NL ptr mem_csv
  else (0%Z, Some ptr, mem_csv, []).

(** Lines 325-335 of the dive loop: reset the parameters, locate and
    parse the ZDH header.  Either the state behind the header line, or
    the function returns. *)
Definition dan_header (buf NL : bytes) (params_orig_size : nat) (st : dan_state)
  : outcome (dan_state + dan_result) :=
  let log := ds_log st in
  let diags := ds_diags st in
  (* Restart with original parameter block *)
  let params := xml_params_resize (ds_params st) params_orig_size in
  '(header, d) ← locate_zdh (S (length buf - ds_ptr st)) buf NL (ds_ptr st);
  let diags := diags ++ d in
  match header with
  | None => Returns (inr ((-1)%Z, params, log, diags))
  | Some ptr =>
      let '(ret, params, ptr, d) := parse_dan_zdh buf NL params ptr in
      let diags := diags ++ d in
      if (ret <? 0)%Z then Returns (inr (ret, params, log, diags))
      else Returns (inl (DanState ptr (ds_ret st) params log diags))
  end.

(** Lines 337-356 of the dive loop, from the state behind the header:
    the optional ZDP block, the mandatory ZDT trailer, the wrapper and
    the transform engine. *)
Definition dan_body (file : option bytes) (buf NL : bytes) (st : dan_state)
  : outcome (dan_state + dan_result) :=
  let params := ds_params st in
  let log := ds_log st in
  let diags := ds_diags st in
  (* Attempt to parse the ZDP field (optional) *)
  let '(ret, ptr, mem_csv, d) := dan_profile buf NL (ds_ptr st) in
  let diags := diags ++ d in
  if (ret <? 0)%Z then Returns (inr (ret, params, log, diags))
  else
    match ptr with
    | None => Undefined  (* strncmp(NULL, "ZDT", 3) *)
    | Some ptr =>
        (* Parse the mandatory ZDT field *)
        if starts_with buf ptr (lit "ZDT") then
          let '(ret, params, ptr, d) := parse_dan_zdt buf NL params ptr in
          let diags := diags ++ d in
          if (ret <? 0)%Z then Returns (inr (ret, params, log, diags))
          else
            '(r, mem_csv, d) ← try_to_xslt_open_csv file mem_csv (lit "csv");
            let diags := diags ++ d in
            if (r =? 0)%Z then
              let '(r, log) := parse_xml_buffer mem_csv params log in
              Returns (inl (DanState ptr (Z.lor (ds_ret st) r) params log diags))
            else Returns (inr ((-1)%Z, params, log, diags))
        else
          Returns (inr ((-1)%Z, params, log,
                        diags ++ [Error "Expected ZDT trailer not found"]))
    end.

(** One iteration of the dive loop, lines 325-356: either the state for
    the next iteration, or the function returns. *)
Definition dan_dive (file : option bytes) (buf NL : bytes) (params_orig_size : nat)
    (st : dan_state) : outcome (dan_state + dan_result) :=
  step ← dan_header buf NL params_orig_size st;
  match step with
  | inl st1 => dan_body file buf NL st1
  | inr r => Returns (inr r)
  end.

(** The dive loop [while (ptr < end)] of lines 324-357 and the final
    [return ret]. *)
Fixpoint dan_loop (fuel : nat) (file : option bytes) (buf NL : bytes)
    (params_orig_size : nat) (st : dan_state) : outcome dan_result :=
  if decide (ds_ptr st < length buf) then
    match fuel with
    | 0 => OutOfFuel
    | S fuel' =>
        step ← dan_dive file buf NL params_orig_size st;
        match step with
        | inl st' => dan_loop fuel' file buf NL params_orig_size st'
        | inr r => Returns r
        end
    end
  else Returns (ds_ret st, ds_params st, ds_log st, ds_diags st).

(** Lines 313-320: determine the newline marker and the start cursor. *)
Definition detect_NL (mem : bytes) : option (nat * bytes) :=
  match strstr mem 0 [CR; LF] with
  | Some ptr => Some (ptr, [CR; LF])
  | None =>
      match strstr mem 0 [LF] with
      | Some ptr => Some (ptr, [LF])
      | None => None
      end
  end.

(** [parse_dan_format(filename, params, log)]; [file] is what
    [readfile(filename)] yields. *)
Definition parse_dan_format (file : option bytes) (params : xml_params) (log : divelog)
  : outcome dan_result :=
  let ret := 0%Z in
  let params_orig_size := xml_params_count params in
  match file with
  | None => Returns ((-1)%Z, params, log, [Error "Failed to read '%s'"])
  | Some mem =>
      match detect_NL mem with
      | None => Returns ((-1)%Z, params, log, [Info "DEBUG: failed to detect NL"])
      | Some (ptr, NL) =>
          dan_loop (S (length mem)) file mem NL params_orig_size
            (DanState ptr ret params log [])
      end
  end.

(** [dan_reaches file buf NL n st st']: the dive loop, entered in state
    [st], stands at its head in state [st'] after decoding zero or more
    dives. *)
Inductive dan_reaches (file : option bytes) (buf NL : bytes) (params_orig_size : nat)
  : dan_state -> dan_state -> Prop :=
  | dan_reaches_refl st : dan_reaches file buf NL params_orig_size st st
  | dan_reaches_step st st' st'' :
      ds_ptr st < length buf ->
      dan_dive file buf NL params_orig_size st = Returns (inl st') ->
      dan_reaches file buf NL params_orig_size st' st'' ->
      dan_reaches file buf NL params_orig_size st st''.

(** [dan_at mem params log NL st]: decoding the file content [mem] with
    the parameters [params] and the log [log], the dive loop stands at
    its head in state [st], with the newline marker [NL]. *)
Definition dan_at (mem : bytes) (params : xml_params) (log : divelog)
    (NL : bytes) (st : dan_state) : Prop :=
  exists ptr, detect_NL mem = Some (ptr, NL)
    /\ dan_reaches (Some mem) mem NL (xml_params_count params)
         (DanState ptr 0%Z params log []) st.
End DAN.

(** ** Integer conversions of libc *)

(** Two's complement wrap to a signed [w]-bit integer. *)
Definition wrap (w : Z) (z : Z) : Z := ((z + 2 ^ (w - 1)) mod 2 ^ w - 2 ^ (w - 1))%Z.
Definition wrap32 : Z -> Z := wrap 32.

(** [strtol] saturates at the range of [long] (64 bits). *)
Definition clamp_long (z : Z) : Z := Z.max (- 2 ^ 63) (Z.min (2 ^ 63 - 1) z).

(** What a [%d] conversion (and [atoi]) stores in an [int]: the [long] of
    [strtol], truncated. *)
Definition int_of_decimal (z : Z) : Z := wrap32 (clamp_long z).

Definition isspace (c : ascii) : bool :=
  let n := nat_of_ascii c in (n =? 32)%nat || ((9 <=? n)%nat && (n <=? 13)%nat).

Definition isdigit (c : ascii) : bool :=
  let n := nat_of_ascii c in (48 <=? n)%nat && (n <=? 57)%nat.

Definition digit_value (c : ascii) : Z := Z.of_nat (nat_of_ascii c - 48).

Fixpoint skip_space (s : bytes) : bytes :=
  match s with
  | c :: s' => if isspace c then skip_space s' else s
  | [] => []
  end.

(** The longest run of decimal digits at the head of [s]: its value
    (continuing [acc]), its length, and the rest. *)
Fixpoint scan_digits (s : bytes) (acc : Z) (n : nat) : Z * nat * bytes :=
  match s with
  | c :: s' => if isdigit c then scan_digits s' (10 * acc + digit_value c)%Z (S n) else (acc, n, s)
  | [] => (acc, n, s)
  end.

(** An optionally signed decimal number at the head of [s] (no leading
    space): the value and the rest, or [None] when there is no digit. *)
Definition scan_signed (s : bytes) : option (Z * bytes) :=
  let '(neg, t) :=
    match s with
    | c :: s' => if Ascii.eqb c "-" then (true, s')
                 else if Ascii.eqb c "+" then (false, s') else (false, s)
    | [] => (false, s)
    end in
  let '(v, n, rest) := scan_digits t 0 0 in
  match n with
  | 0 => None
  | S _ => Some (if neg then (- v)%Z else v, rest)
  end.

(** One [%d] directive of [sscanf] over the C string [s]. *)
Inductive conversion : Type :=
  | InputFailure                         (* end of input before any digit *)
  | MatchingFailure
  | Converted (v : Z) (rest : bytes).

Definition scan_d (s : bytes) : conversion :=
  match skip_space s with
  | [] => InputFailure
  | t =>
      match scan_signed t with
      | Some (v, rest) => Converted (int_of_decimal v) rest
      | None => MatchingFailure
      end
  end.

Definition EOF : Z := (-1)%Z.

(** [sscanf(s, "%d<sep>%d<sep>%d", &a, &b, &c)] over the C string [s]: the
    return value and the values stored, in order; targets beyond the list
    keep what they held. *)
Definition sscanf_d3 (sep : ascii) (s : bytes) : Z * list Z :=
  match scan_d s with
  | InputFailure => (EOF, [])
  | MatchingFailure => (0%Z, [])
  | Converted a r1 =>
      match r1 with
      | c1 :: r1' =>
          if Ascii.eqb c1 sep then
            match scan_d r1' with
            | Converted b r2 =>
                match r2 with
                | c2 :: r2' =>
                    if Ascii.eqb c2 sep then
                      match scan_d r2' with
                      | Converted c _ => (3%Z, [a; b; c])
                      | _ => (2%Z, [a; b])
                      end
                    else (2%Z, [a; b])
                | [] => (2%Z, [a; b])
                end
            | _ => (1%Z, [a])
            end
          else (1%Z, [a])
      | [] => (1%Z, [a])
      end
  end.

(** The target of the [k]-th conversion after the call: the stored value,
    or [old] when the conversion did not happen. *)
Definition stored (vs : list Z) (k : nat) (old : Z) : Z := default old (vs !! k).

(** [strtol(s, &p, 10)], stored in an [int]: the value and [p - s]. *)
Definition strtol10 (s : bytes) : Z * nat :=
  let t := skip_space s in
  match scan_signed t with
  | Some (v, rest) => (int_of_decimal v, length s - length rest)
  | None => (0%Z, 0)
  end.

(** ** 4.2 Samples and the unit mapper *)

Inductive csv_format : Type :=
  | CSV_DEPTH | CSV_TEMP | CSV_PRESSURE
  | POSEIDON_DEPTH | POSEIDON_TEMP | POSEIDON_SETPOINT
  | POSEIDON_SENSOR1 | POSEIDON_SENSOR2 | POSEIDON_NDL | POSEIDON_CEILING.

(** Modelled from the spec: [struct sample], [prepare_sample] and
    [add_sample_pressure] live in [sample.h] and [divecomputer.cpp], which
    are not among the sources.  A sample holds a time, depth, temperature,
    setpoint, two O2-sensor readings, NDL, ceiling and two tank pressures;
    a field the decoder has not written is unset ([None]). *)
Record sample : Type := Sample {
  time_seconds : Z;
  depth_mm : option Z;
  temperature_mkelvin : option Z;
  setpoint_mbar : option Z;
  o2sensor0_mbar : option Z;
  o2sensor1_mbar : option Z;
  ndl_seconds : option Z;
  stopdepth_mm : option Z;
  pressure0_mbar : option Z;
  pressure1_mbar : option Z
}.

(** Modelled from the spec: [prepare_sample(dc)] appends a sample with no
    field set and returns it. *)
Definition prepare_sample : sample :=
  Sample 0 None None None None None None None None None.

Definition set_time (s : sample) (t : Z) : sample :=
  Sample t (depth_mm s) (temperature_mkelvin s) (setpoint_mbar s) (o2sensor0_mbar s)
    (o2sensor1_mbar s) (ndl_seconds s) (stopdepth_mm s) (pressure0_mbar s) (pressure1_mbar s).

(** Modelled from the spec: [add_sample_pressure(sample, sensor, mbar)]
    records the pressure of tank [sensor] (0: oxygen, 1: diluent). *)
Definition add_sample_pressure (s : sample) (sensor : nat) (mbar : Z) : sample :=
  match sensor with
  | 0 => Sample (time_seconds s) (depth_mm s) (temperature_mkelvin s) (setpoint_mbar s)
           (o2sensor0_mbar s) (o2sensor1_mbar s) (ndl_seconds s) (stopdepth_mm s)
           (Some mbar) (pressure1_mbar s)
  | _ => Sample (time_seconds s) (depth_mm s) (temperature_mkelvin s) (setpoint_mbar s)
           (o2sensor0_mbar s) (o2sensor1_mbar s) (ndl_seconds s) (stopdepth_mm s)
           (pressure0_mbar s) (Some mbar)
  end.

(** [add_sample_data(sample, type, val)]: which field each format tag
    writes.  [val] is a [double] of type [D]; [conv type val] is what the
    assignment of that case leaves in the field. *)
Definition add_sample_data {D : Type} (conv : csv_format -> D -> Z)
    (s : sample) (type : csv_format) (val : D) : sample :=
  let x := Some (conv type val) in
  match type with
  | CSV_DEPTH | POSEIDON_DEPTH =>
      Sample (time_seconds s) x (temperature_mkelvin s) (setpoint_mbar s) (o2sensor0_mbar s)
        (o2sensor1_mbar s) (ndl_seconds s) (stopdepth_mm s) (pressure0_mbar s) (pressure1_mbar s)
  | CSV_TEMP | POSEIDON_TEMP =>
      Sample (time_seconds s) (depth_mm s) x (setpoint_mbar s) (o2sensor0_mbar s)
        (o2sensor1_mbar s) (ndl_seconds s) (stopdepth_mm s) (pressure0_mbar s) (pressure1_mbar s)
  | CSV_PRESSURE =>
      Sample (time_seconds s) (depth_mm s) (temperature_mkelvin s) (setpoint_mbar s)
        (o2sensor0_mbar s) (o2sensor1_mbar s) (ndl_seconds s) (stopdepth_mm s)
        x (pressure1_mbar s)
  | POSEIDON_SETPOINT =>
      Sample (time_seconds s) (depth_mm s) (temperature_mkelvin s) x (o2sensor0_mbar s)
        (o2sensor1_mbar s) (ndl_seconds s) (stopdepth_mm s) (pressure0_mbar s) (pressure1_mbar s)
  | POSEIDON_SENSOR1 =>
      Sample (time_seconds s) (depth_mm s) (temperature_mkelvin s) (setpoint_mbar s) x
        (o2sensor1_mbar s) (ndl_seconds s) (stopdepth_mm s) (pressure0_mbar s) (pressure1_mbar s)
  | POSEIDON_SENSOR2 =>
      Sample (time_seconds s) (depth_mm s) (temperature_mkelvin s) (setpoint_mbar s)
        (o2sensor0_mbar s) x (ndl_seconds s) (stopdepth_mm s) (pressure0_mbar s) (pressure1_mbar s)
  | POSEIDON_NDL =>
      Sample (time_seconds s) (depth_mm s) (temperature_mkelvin s) (setpoint_mbar s)
        (o2sensor0_mbar s) (o2sensor1_mbar s) x (stopdepth_mm s) (pressure0_mbar s) (pressure1_mbar s)
  | POSEIDON_CEILING =>
      Sample (time_seconds s) (depth_mm s) (temperature_mkelvin s) (setpoint_mbar s)
        (o2sensor0_mbar s) (o2sensor1_mbar s) (ndl_seconds s) x (pressure0_mbar s) (pressure1_mbar s)
  end.

(** ** 4.6 The Poseidon MkVI decoder: the sample loop of [parse_txt_file] *)

Inductive event_type : Type :=
  | EVENT_0                      (* the literal 0 of the source *)
  | SAMPLE_EVENT_ASCENT
  | SAMPLE_EVENT_BATTERY
  | SAMPLE_EVENT_GASCHANGE2.

Inductive event_flags : Type :=
  | FLAGS_0 | SAMPLE_FLAGS_BEGIN | SAMPLE_FLAGS_END.

Instance event_type_eq_dec : EqDecision event_type.
Proof. solve_decision. Defined.

(** Modelled from the spec: [add_event(dc, time, type, flags, value, name)]
    lives in [divecomputer.cpp], which is not among the sources; it appends
    one event with these attributes to the dive computer's event list. *)
Record event : Type := Event {
  ev_time : Z;
  ev_type : event_type;
  ev_flags : event_flags;
  ev_value : Z;
  ev_name : string
}.

(** The threshold of the sample-time workaround, [0xFFFF * 3 / 4]. *)
Definition mkvi_time_limit : Z := (65535 * 3 / 4)%Z.

(** The locals a timestamp group works on: the flags and carried values of
    lines 583-584, [gaschange], the sample under construction, and the
    events and diagnostics the group emitted.  [g_records] lists the
    (type, value) pairs the dispatch of lines 697-811 saw, in order; no
    decision of the decoder reads it. *)
Record group_vars : Type := GroupVars {
  has_depth : bool;
  has_setpoint : bool;
  has_ndl : bool;
  prev_depth : Z;
  prev_setpoint : Z;
  prev_ndl : Z;
  gaschange : Z;
  g_sample : sample;
  g_events : list event;
  g_diags : list diag;
  g_records : list (Z * Z)
}.

Definition upd_sample (f : sample -> sample) (g : group_vars) : group_vars :=
  GroupVars (has_depth g) (has_setpoint g) (has_ndl g) (prev_depth g) (prev_setpoint g)
    (prev_ndl g) (gaschange g) (f (g_sample g)) (g_events g) (g_diags g) (g_records g).

Definition add_event (e : event) (g : group_vars) : group_vars :=
  GroupVars (has_depth g) (has_setpoint g) (has_ndl g) (prev_depth g) (prev_setpoint g)
    (prev_ndl g) (gaschange g) (g_sample g) (g_events g ++ [e]) (g_diags g) (g_records g).

Definition report_info (d : diag) (g : group_vars) : group_vars :=
  GroupVars (has_depth g) (has_setpoint g) (has_ndl g) (prev_depth g) (prev_setpoint g)
    (prev_ndl g) (gaschange g) (g_sample g) (g_events g) (g_diags g ++ [d]) (g_records g).

Definition saw_record (type value : Z) (g : group_vars) : group_vars :=
  GroupVars (has_depth g) (has_setpoint g) (has_ndl g) (prev_depth g) (prev_setpoint g)
    (prev_ndl g) (gaschange g) (g_sample g) (g_events g) (g_diags g)
    (g_records g ++ [(type, value)]).

(** [has_depth = true; prev_depth = value;] and its two siblings. *)
Definition got_depth (value : Z) (g : group_vars) : group_vars :=
  GroupVars true (has_setpoint g) (has_ndl g) value (prev_setpoint g)
    (prev_ndl g) (gaschange g) (g_sample g) (g_events g) (g_diags g) (g_records g).

Definition got_setpoint (value : Z) (g : group_vars) : group_vars :=
  GroupVars (has_depth g) true (has_ndl g) (prev_depth g) value
    (prev_ndl g) (gaschange g) (g_sample g) (g_events g) (g_diags g) (g_records g).

Definition got_ndl (value : Z) (g : group_vars) : group_vars :=
  GroupVars (has_depth g) (has_setpoint g) true (prev_depth g) (prev_setpoint g)
    value (gaschange g) (g_sample g) (g_events g) (g_diags g) (g_records g).

(** [gaschange += x], in [int] arithmetic. *)
Definition add_gaschange (x : Z) (g : group_vars) : group_vars :=
  GroupVars (has_depth g) (has_setpoint g) (has_ndl g) (prev_depth g) (prev_setpoint g)
    (prev_ndl g) (wrap32 (gaschange g + x)) (g_sample g) (g_events g) (g_diags g) (g_records g).

Section MkVI.
(** The conversions of [add_sample_data] whose [double] arithmetic is
    not exact on integers ([C_to_mkelvin(val * 0.2)] and the imperial
    ones) stay a parameter. *)
Variable float_conv : csv_format -> Z -> Z.
(** Whether [SAMPLE_EVENT_BATTERY] is defined ([#ifdef], line 726). *)
Variable battery_event_defined : bool.
(** [sampletime] is declared without a value in the loop body; [indet p]
    is what it holds in the iteration that starts at offset [p] until
    [sscanf] stores into it. *)
Variable indet : nat -> Z.

(** The right-hand sides of [add_sample_data] on an [int] argument, as
    the sample keeps them: the products [val * 0.5 * 1000], [val * 10],
    [val * 60] and [val * 1000] are integers below 2^53, so the [double]
    arithmetic and [lrint] are exact, and the assignment to the 32-bit
    field of the sample ([depth.mm], [setpoint.mbar], [o2sensor[].mbar],
    [ndl.seconds] and [stopdepth.mm] are [int32_t] in [units.h], which is
    not among the sources) keeps the low 32 bits of the [long]. *)
Definition mkvi_conv (type : csv_format) (val : Z) : Z :=
  match type with
  | POSEIDON_DEPTH => wrap32 (500 * val)
  | POSEIDON_SETPOINT | POSEIDON_SENSOR1 | POSEIDON_SENSOR2 => wrap32 (10 * val)
  | POSEIDON_NDL => wrap32 (60 * val)
  | POSEIDON_CEILING => wrap32 (1000 * val)
  | _ => float_conv type val
  end.

Definition mouthpiece_event (cur_sampletime value : Z) (g : group_vars) : group_vars :=
  if (value =? 0)%Z then
    add_event (Event cur_sampletime EVENT_0 FLAGS_0 0 "Mouth piece position OC") g
  else if (value =? 1)%Z then
    add_event (Event cur_sampletime EVENT_0 FLAGS_0 0 "Mouth piece position CC") g
  else if (value =? 2)%Z then
    add_event (Event cur_sampletime EVENT_0 FLAGS_0 0 "Mouth piece position unknown") g
  else if (value =? 3)%Z then
    add_event (Event cur_sampletime EVENT_0 FLAGS_0 0 "Mouth piece position not connected") g
  else g.

(** The [switch (type)] of lines 697-811. *)
Definition mkvi_record (cur_sampletime type value : Z) (g : group_vars) : group_vars :=
  if (type =? 0)%Z then mouthpiece_event cur_sampletime value g
  else if (type =? 3)%Z then
    add_event (Event cur_sampletime EVENT_0 FLAGS_0 0 "Power off") g
  else if (type =? 4)%Z then
    if battery_event_defined
    then add_event (Event cur_sampletime SAMPLE_EVENT_BATTERY FLAGS_0 value "battery") g
    else g
  else if (type =? 6)%Z then
    upd_sample (fun s => add_sample_data mkvi_conv s POSEIDON_SENSOR1 value) g
  else if (type =? 7)%Z then
    upd_sample (fun s => add_sample_data mkvi_conv s POSEIDON_SENSOR2 value) g
  else if (type =? 8)%Z then
    upd_sample (fun s => add_sample_data mkvi_conv s POSEIDON_DEPTH value) (got_depth value g)
  else if (type =? 11)%Z then
    add_event (Event cur_sampletime SAMPLE_EVENT_ASCENT FLAGS_0 0 "ascent") g
  else if (type =? 13)%Z then
    upd_sample (fun s => add_sample_pressure s 0 (wrap32 (value * 1000))) g
  else if (type =? 14)%Z then
    upd_sample (fun s => add_sample_pressure s 1 (wrap32 (value * 1000))) g
  else if (type =? 20)%Z then
    upd_sample (fun s => add_sample_data mkvi_conv s POSEIDON_SETPOINT value)
      (got_setpoint value g)
  else if (type =? 22)%Z then
    let g := if (value =? 2)%Z
             then add_event (Event cur_sampletime EVENT_0 SAMPLE_FLAGS_END 0
                               "O₂ calibration failed") g
             else g in
    add_event (Event cur_sampletime EVENT_0 SAMPLE_FLAGS_END 0 "O₂ calibration") g
  else if (type =? 25)%Z then
    upd_sample (fun s => add_sample_data mkvi_conv s POSEIDON_CEILING value) g
  else if (type =? 31)%Z then
    add_event (Event cur_sampletime EVENT_0 SAMPLE_FLAGS_BEGIN 0 "O₂ calibration") g
  else if (type =? 37)%Z then
    upd_sample (fun s => add_sample_data mkvi_conv s POSEIDON_NDL value) (got_ndl value g)
  else if (type =? 39)%Z then
    upd_sample (fun s => add_sample_data mkvi_conv s POSEIDON_TEMP value) g
  else if (type =? 85)%Z then
    add_gaschange (wrap32 (value * 2 ^ 16)) g   (* gaschange += value << 16 *)
  else if (type =? 86)%Z then
    add_gaschange value g
  else g.

(** The [do ... while (sampletime == cur_sampletime)] loop of lines
    693-827.  Returns [lineptr] (null once no newline is left),
    [cur_sampletime] and the group's locals. *)
Fixpoint mkvi_group_loop (fuel : nat) (buf : bytes) (lineptr : nat)
    (sampletime cur_sampletime : Z) (g : group_vars)
  : outcome (option nat * Z * group_vars) :=
  match fuel with
  | 0 => OutOfFuel
  | S fuel' =>
      let '(i, vs) := sscanf_d3 "," (cstr (drop lineptr buf)) in
      let sampletime := stored vs 0 sampletime in
      let g :=
        if (i =? 3)%Z then
          let type := stored vs 1 0 in
          let value := stored vs 2 0 in
          mkvi_record cur_sampletime type value (saw_record type value g)
        else if (i =? EOF)%Z then g
        else report_info (Info "Unable to parse input: %s\n") g in
      match strchr buf lineptr LF with
      | None => Returns (None, cur_sampletime, g)
      | Some q =>
          if Ascii.eqb (char_at buf q) NUL then Returns (Some q, cur_sampletime, g)
          else
            let lineptr := q + 1 in
            (* Grabbing next sample time *)
            let '(_, vs) := sscanf_d3 "," (cstr (drop lineptr buf)) in
            let cur_sampletime := stored vs 0 cur_sampletime in
            if (sampletime =? cur_sampletime)%Z
            then mkvi_group_loop fuel' buf lineptr sampletime cur_sampletime g
            else Returns (Some lineptr, cur_sampletime, g)
      end
  end.

(** Lines 829-837, after the records of the group: the gas-change event
    and the fallbacks for depth, setpoint and NDL. *)
Definition mkvi_finish (cur_sampletime : Z) (g : group_vars) : group_vars :=
  let g := if (gaschange g =? 0)%Z then g
           else add_event (Event cur_sampletime SAMPLE_EVENT_GASCHANGE2 FLAGS_0
                             (gaschange g) "gaschange") g in
  let g := if has_depth g then g
           else upd_sample (fun s => add_sample_data mkvi_conv s POSEIDON_DEPTH (prev_depth g)) g in
  let g := if negb (has_setpoint g) && (0 <=? prev_setpoint g)%Z
           then upd_sample (fun s => add_sample_data mkvi_conv s POSEIDON_SETPOINT
                                       (prev_setpoint g)) g
           else g in
  let g := if negb (has_ndl g) && (0 <=? prev_ndl g)%Z
           then upd_sample (fun s => add_sample_data mkvi_conv s POSEIDON_NDL (prev_ndl g)) g
           else g in
  g.

(** The variables of lines 583-586 that live across timestamp groups,
    and the dive computer's samples and events so far.  [ms_trace] keeps
    for every finished group the sample time read at line 678 and the
    group's locals at its end. *)
Record mkvi_state : Type := MkviState {
  ms_lineptr : nat;
  ms_cur_sampletime : Z;
  ms_prev_depth : Z;
  ms_prev_setpoint : Z;
  ms_prev_ndl : Z;
  ms_prev_time : Z;
  ms_samples : list sample;
  ms_events : list event;
  ms_diags : list diag;
  ms_trace : list (Z * group_vars)
}.

(** One iteration of the [for (;;)] loop of lines 670-841: the state
    afterwards and whether the loop goes on. *)
Definition mkvi_group (buf : bytes) (st : mkvi_state) : outcome (mkvi_state * bool) :=
  let lineptr := ms_lineptr st in
  let gaschange0 := 0%Z in  (* int gaschange = 0; *)
  (* Collect all the information for one sample *)
  let '(_, vs) := sscanf_d3 "," (cstr (drop lineptr buf)) in
  let cur_sampletime := stored vs 0 (ms_cur_sampletime st) in
  let raw_time := cur_sampletime in
  let sample := prepare_sample in
  let sample := set_time sample
    (if (cur_sampletime <? mkvi_time_limit)%Z then cur_sampletime else ms_prev_time st) in
  let prev_time := time_seconds sample in
  let g := GroupVars false false false (ms_prev_depth st) (ms_prev_setpoint st)
             (ms_prev_ndl st) gaschange0 sample [] [] [] in
  '(lineptr, cur_sampletime, g) ←
    mkvi_group_loop (S (length buf - lineptr)) buf lineptr (indet lineptr) cur_sampletime g;
  let g := mkvi_finish cur_sampletime g in
  let more :=
    match lineptr with
    | None => false
    | Some p => negb (Ascii.eqb (char_at buf p) NUL)
    end in
  Returns (MkviState (default 0 lineptr) cur_sampletime (prev_depth g) (prev_setpoint g)
             (prev_ndl g) prev_time (ms_samples st ++ [g_sample g])
             (ms_events st ++ g_events g) (ms_diags st ++ g_diags g)
             (ms_trace st ++ [(raw_time, g)]),
           more).

Fixpoint mkvi_loop (fuel : nat) (buf : bytes) (st : mkvi_state) : outcome mkvi_state :=
  match fuel with
  | 0 => OutOfFuel
  | S fuel' =>
      '(st', more) ← mkvi_group buf st;
      match more with
      | true => mkvi_loop fuel' buf st'
      | false => Returns st'
      end
  end.

(** Lines 583-586 and 669-841 of [parse_txt_file]: the sample loop over
    the content [memcsv] of the CSV file. *)
Definition parse_txt_file_samples (memcsv : bytes) : outcome mkvi_state :=
  let prev_depth := 0%Z in
  let cur_sampletime := 0%Z in
  let prev_setpoint := (-1)%Z in
  let prev_ndl := (-1)%Z in
  let prev_time := 0%Z in
  let lineptr := 0 in
  mkvi_loop (S (length memcsv)) memcsv
    (MkviState lineptr cur_sampletime prev_depth prev_setpoint prev_ndl prev_time [] [] [] []).
End MkVI.

(** ** 4.4 The generic CSV decoder: [parse_date] and [try_to_open_csv] *)

(** The fields of [struct tm] that [parse_date] sets; the others stay zero. *)
Record tm : Type := Tm {
  tm_sec : Z;
  tm_min : Z;
  tm_hour : Z;
  tm_mday : Z;
  tm_mon : nat;
  tm_year : Z
}.

(** Modelled from the spec: a dive record and the dive store live outside
    the sources ([dive.h], [divelog.h]); [record_dive] appends one dive to
    the log.  Of a dive the decoder sets the start time, the number, and
    the samples and duration of its first dive computer. *)
Record dive : Type := Dive {
  when : Z;
  number : Z;
  dc_samples : list sample;
  dc_duration : Z
}.

Definition record_dive (log : list dive) (d : dive) : list dive := log ++ [d].

(** [memcmp(p, name, 3) == 0] over the C string [s] at [p].  Bytes past a
    terminator read as NUL. *)
Definition memcmp3 (s name : bytes) : bool :=
  bool_decide (take 3 (s ++ [NUL; NUL; NUL]) = take 3 (name ++ [NUL; NUL; NUL])).

Section GenericCSV.
(** [monthname(mon)] and [utc_mktime] live in [time.cpp], outside the
    sources. *)
Variable monthname : nat -> bytes.
Variable utc_mktime : tm -> Z.
(** [strtod] over a C string: the value, the length of the text it
    consumed, and whether it set [errno].  [D] stands for [double]. *)
Context {D : Type}.
Variable strtod : bytes -> D * nat * bool.
(** The right-hand sides of [add_sample_data] on a [double]. *)
Variable conv : csv_format -> D -> Z.

(** [for (tm.tm_mon = 0; tm.tm_mon < 12; tm.tm_mon++)] with its [break]:
    [n] iterations are left, the result is [tm.tm_mon] after the loop. *)
Fixpoint month_loop (n mon : nat) (p : bytes) : nat :=
  match n with
  | 0 => mon
  | S n' => if memcmp3 p (monthname mon) then mon else month_loop n' (S mon) p
  end.

(** [parse_date(date)] over the C string at [date]. *)
Definition parse_date (date : bytes) : Z :=
  let '(mday, n) := strtol10 date in
  let p := drop n date in
  if (mday <? 1)%Z || (31 <? mday)%Z then 0%Z
  else
    let mon := month_loop 12 0 p in
    if decide (11 < mon) then 0%Z
    else
      let date := drop 3 p in
      let '(year, n) := strtol10 date in
      let p := drop n date in
      if decide (n = 0) then 0%Z
      else
        let year := if (year <? 70)%Z then (year + 2000)%Z else year in
        let year := if (year <? 100)%Z then (year + 1900)%Z else year in
        let '(k, vs) := sscanf_d3 ":" p in
        if negb (k =? 3)%Z then 0%Z
        else utc_mktime (Tm (stored vs 2 0) (stored vs 1 0) (stored vs 0 0) mday mon year).

(** The header loop of lines 496-502: [i] iterations are left.  [None]
    when a comma is missing. *)
Fixpoint header_loop (i : nat) (buf : bytes) (p : nat) (header : list nat)
  : option (list nat * nat) :=
  match i with
  | 0 => Some (header, p)
  | S i' =>
      match strchr buf p "," with
      | None => None
      | Some q => header_loop i' buf (q + 1) (header ++ [p])
      end
  end.

(** The sample loop of lines 514-535: the samples and the duration of
    the dive computer afterwards. *)
Fixpoint csv_sample_loop (fuel : nat) (buf : bytes) (type : csv_format) (p : nat)
    (time : Z) (samples : list sample) (duration : Z) : outcome (list sample * Z) :=
  match fuel with
  | 0 => OutOfFuel
  | S fuel' =>
      let '(val, n, errno) := strtod (cstr (drop p buf)) in
      let end_ := p + n in
      if decide (end_ = p) then Returns (samples, duration)
      else if errno then Returns (samples, duration)
      else
        let sample := set_time prepare_sample time in
        let sample := add_sample_data conv sample type val in
        let samples := samples ++ [sample] in
        let time := wrap32 (time + 1) in
        let duration := time in
        if negb (Ascii.eqb (char_at buf end_) ",") then Returns (samples, duration)
        else csv_sample_loop fuel' buf type (end_ + 1) time samples duration
  end.

(** [try_to_open_csv(mem, type, log)]: the return value and the log. *)
Definition try_to_open_csv (mem : bytes) (type : csv_format) (log : list dive)
  : outcome (Z * list dive) :=
  match header_loop 8 mem 0 [] with
  | None => Returns (0%Z, log)
  | Some (header, p) =>
      let date := parse_date (cstr (drop (default 0 (header !! 2)) mem)) in
      if (date =? 0)%Z then Returns (0%Z, log)
      else
        let number := fst (strtol10 (cstr (drop (default 0 (header !! 1)) mem))) in
        '(samples, duration) ← csv_sample_loop (S (length mem)) mem type p 0 [] 0;
        Returns (1%Z, record_dive log (Dive date number samples duration))
  end.
End GenericCSV.

(** ** 4.7 The Seabear decoder: [parse_seabear_csv_file] *)

(** The [while ((ptr = strstr(ptr, sep)) != NULL)] loops of lines 906-910
    and 914-918: [ptr_old] after the loop. *)
Fixpoint last_separator (fuel : nat) (buf sep : bytes) (ptr : nat) (ptr_old : option nat)
  : outcome (option nat) :=
  match strstr buf ptr sep with
  | None => Returns ptr_old
  | Some q =>
      match fuel with
      | 0 => OutOfFuel
      | S fuel' => last_separator fuel' buf sep (q + 1) (Some q)
      end
  end.

(** Lines 904-922: the offset [ptr_old] of the body and the newline marker
    [NL]; [None] when [NL] stays null (then [ptr_old], null plus two, is
    never used). *)
Definition seabear_split (mem : bytes) : outcome (option (nat * bytes)) :=
  ptr_old ← last_separator (S (length mem)) mem [CR; LF; CR; LF] 0 None;
  match ptr_old with
  | Some q => Returns (Some (q + 4, [CR; LF]))
  | None =>
      ptr_old ← last_separator (S (length mem)) mem [LF; LF] 0 None;
      match ptr_old with
      | Some q => Returns (Some (q + 2, [LF]))
      | None => Returns None
      end
  end.

(** Lines 937-966: the date and time of the line after "Serial number:"
    overwrite the last two parameters.  The fixed offsets are read without
    a bounds check: a read past the terminator is undefined. *)
Definition seabear_header_date (mem NL : bytes) (params : xml_params)
  : outcome xml_params :=
  match strstr mem 0 (lit "Serial number:") with
  | None => Returns params
  | Some ptr =>
      match strstr mem ptr NL with
      | None => Returns params
      | Some ptr =>
          let ptr := ptr + strlen NL + 2 in
          if decide (ptr + 15 <= length mem) then
            let buf := substr mem ptr 4 ++ substr mem (ptr + 5) 2 ++ substr mem (ptr + 8) 2 in
            let params := xml_params_set_value params (xml_params_count params - 2) (cstr buf) in
            let buf :=
              [char_at (xml_params_get_value params (xml_params_count params - 1)) 0]
              ++ substr mem (ptr + 11) 2 ++ substr mem (ptr + 14) 2 in
            Returns (xml_params_set_value params (xml_params_count params - 1) (cstr buf))
          else Undefined
      end
  end.

Section Seabear.
Context {divelog : Type}.
Variable parse_xml_buffer : bytes -> xml_params -> divelog -> Z * divelog.
Variable readfile : string -> option bytes.
(** [strftime] of the local time with "%Y%m%d" and "1%H%M". *)
Variables now_date now_time : bytes.
Variable verbose : Z.

Definition parse_seabear_csv_file (filename : option string) (params : xml_params)
    (csvtemplate : bytes) (log : divelog) : outcome (Z * xml_params * divelog * list diag) :=
  let params := xml_params_add params "date" now_date in
  let params := xml_params_add params "time" now_time in
  match filename with
  | None => Returns ((-1)%Z, params, log, [Error "No CSV filename"])
  | Some filename =>
      match readfile filename with
      | None => Returns ((-1)%Z, params, log, [Error "Failed to read '%s'"])
      | Some mem =>
          (* Determine NL (new line) character and the start of CSV data *)
          split ← seabear_split mem;
          match split with
          | None => Returns ((-1)%Z, params, log, [])
          | Some (ptr_old, NL) =>
              params ← seabear_header_date mem NL params;
              (* Move the CSV data to the start of mem buffer *)
              let mem := drop ptr_old mem in
              '(r, mem, d) ← try_to_xslt_open_csv (readfile filename) mem csvtemplate;
              if negb (r =? 0)%Z then Returns ((-1)%Z, params, log, d)
              else
                let d := if (2 <=? verbose)%Z then d ++ [Info "%s"] else d in
                let '(ret, log) := parse_xml_buffer mem params log in
                Returns (ret, params, log, d)
          end
      end
  end.
End Seabear.

(** ** Specification vocabulary *)

(** The fields of a line, each followed by the delimiter. *)
Definition join_fields (delim : ascii) (fields : list bytes) : bytes :=
  flat_map (fun f => f ++ [delim]) fields.

(** The number of occurrences of [c] in [s]. *)
Definition count_char (c : ascii) (s : bytes) : nat :=
  length (filter (fun x => x = c) s).

(** The value of the last record of type [k] among [recs], if any. *)
Fixpoint last_value (k : Z) (recs : list (Z * Z)) : option Z :=
  match recs with
  | [] => None
  | (t, v) :: rest =>
      match last_value k rest with
      | Some x => Some x
      | None => if (t =? k)%Z then Some v else None
      end
  end.

(** Whether [recs] holds a record of type [k]. *)
Definition has_type (k : Z) (recs : list (Z * Z)) : bool :=
  match last_value k recs with
  | Some _ => true
  | None => false
  end.

(** The combined gas value of the records of a group: every helium
    record (type 85) adds its value shifted left by 16 bits, every oxygen
    record (type 86) adds its value, in [int] arithmetic. *)
Definition gas_step (acc : Z) (r : Z * Z) : Z :=
  if (r.1 =? 85)%Z then wrap32 (acc + wrap32 (r.2 * 2 ^ 16))
  else if (r.1 =? 86)%Z then wrap32 (acc + r.2)
  else acc.

Definition gas_sum (recs : list (Z * Z)) : Z := fold_left gas_step recs 0%Z.

(** The gas-change events among [evs]. *)
Definition gaschange_events (evs : list event) : list event :=
  filter (fun e => ev_type e = SAMPLE_EVENT_GASCHANGE2) evs.

(** The sample times the workaround of line 690 assigns to the raw
    timestamps [raws], [prev] being the time assigned last. *)
Fixpoint clamp_times (prev : Z) (raws : list Z) : list Z :=
  match raws with
  | [] => []
  | raw :: rest =>
      let t := if (raw <? mkvi_time_limit)%Z then raw else prev in
      t :: clamp_times t rest
  end.

(** The records of all groups of a trace, in order. *)
Definition all_records (trace : list (Z * group_vars)) : list (Z * Z) :=
  concat (map (fun e => g_records e.2) trace).

(** What the locals of a timestamp group say about the records the group
    has seen so far; [pd], [ps], [pn] are the carried values and [t0] the
    sample time the group started with, [conv] the unit conversion. *)
Definition group_inv (conv : csv_format -> Z -> Z) (pd ps pn t0 : Z) (g : group_vars) : Prop :=
  let recs := g_records g in
  let s := g_sample g in
  has_depth g = has_type 8 recs
  /\ has_setpoint g = has_type 20 recs
  /\ has_ndl g = has_type 37 recs
  /\ prev_depth g = default pd (last_value 8 recs)
  /\ prev_setpoint g = default ps (last_value 20 recs)
  /\ prev_ndl g = default pn (last_value 37 recs)
  /\ gaschange g = gas_sum recs
  /\ time_seconds s = t0
  /\ depth_mm s = conv POSEIDON_DEPTH <$> last_value 8 recs
  /\ setpoint_mbar s = conv POSEIDON_SETPOINT <$> last_value 20 recs
  /\ ndl_seconds s = conv POSEIDON_NDL <$> last_value 37 recs
  /\ temperature_mkelvin s = conv POSEIDON_TEMP <$> last_value 39 recs
  /\ pressure0_mbar s = (fun v => wrap32 (v * 1000)) <$> last_value 13 recs
  /\ pressure1_mbar s = (fun v => wrap32 (v * 1000)) <$> last_value 14 recs
  /\ gaschange_events (g_events g) = [].

(** The value a field falls back to: the last record of type [k] in the
    earlier groups when it is not negative. *)
Definition carried (conv : Z -> Z) (k : Z) (before : list (Z * Z)) : option Z :=
  match last_value k before with
  | Some v => if (0 <=? v)%Z then Some (conv v) else None
  | None => None
  end.

(** What a finished group looks like: [before] are the records of the
    earlier groups, [prev_t] the sample time assigned last, [raw] the
    timestamp read at line 678 and [g] the locals at the end of line 837. *)
Definition group_ok (conv : csv_format -> Z -> Z) (before : list (Z * Z)) (prev_t : Z)
    (e : Z * group_vars) : Prop :=
  let recs := g_records e.2 in
  let s := g_sample e.2 in
  time_seconds s = (if (e.1 <? mkvi_time_limit)%Z then e.1 else prev_t)
  /\ depth_mm s = Some (conv POSEIDON_DEPTH
                          (default (default 0%Z (last_value 8 before)) (last_value 8 recs)))
  /\ setpoint_mbar s = match last_value 20 recs with
                       | Some v => Some (conv POSEIDON_SETPOINT v)
                       | None => carried (conv POSEIDON_SETPOINT) 20 before
                       end
  /\ ndl_seconds s = match last_value 37 recs with
                     | Some v => Some (conv POSEIDON_NDL v)
                     | None => carried (conv POSEIDON_NDL) 37 before
                     end
  /\ temperature_mkelvin s = conv POSEIDON_TEMP <$> last_value 39 recs
  /\ pressure0_mbar s = (fun v => wrap32 (v * 1000)) <$> last_value 13 recs
  /\ pressure1_mbar s = (fun v => wrap32 (v * 1000)) <$> last_value 14 recs
  /\ exists t, gaschange_events (g_events e.2)
               = if (gas_sum recs =? 0)%Z then []
                 else [Event t SAMPLE_EVENT_GASCHANGE2 FLAGS_0 (gas_sum recs) "gaschange"].

(** Every group of a trace is as [group_ok] says, given the records
    [before] and the sample time [prev_t] the trace starts from. *)
Fixpoint trace_ok (conv : csv_format -> Z -> Z) (before : list (Z * Z)) (prev_t : Z)
    (trace : list (Z * group_vars)) : Prop :=
  match trace with
  | [] => True
  | e :: rest =>
      group_ok conv before prev_t e
      /\ trace_ok conv (before ++ g_records e.2) (time_seconds (g_sample e.2)) rest
  end.

(** The sample time assigned last in a trace, [t0] when it is empty. *)
Definition last_time (t0 : Z) (trace : list (Z * group_vars)) : Z :=
  fold_left (fun _ e => time_seconds (g_sample e.2)) trace t0.

(** The invariant of the [for (;;)] loop of the sample decoder. *)
Definition mkvi_inv (conv : csv_format -> Z -> Z) (st : mkvi_state) : Prop :=
  let tr := ms_trace st in
  ms_samples st = map (fun e => g_sample e.2) tr
  /\ ms_events st = concat (map (fun e => g_events e.2) tr)
  /\ ms_prev_depth st = default 0%Z (last_value 8 (all_records tr))
  /\ ms_prev_setpoint st = default (-1)%Z (last_value 20 (all_records tr))
  /\ ms_prev_ndl st = default (-1)%Z (last_value 37 (all_records tr))
  /\ ms_prev_time st = last_time 0%Z tr
  /\ trace_ok conv [] 0%Z tr.

(** The sample values the generic CSV decoder accepts from offset [p] on:
    consecutive tokens [strtod] converts without setting [errno], each but
    the last followed by a comma.  The stream ends at the first token that
    does not convert or is out of range, or behind a token that no comma
    follows. *)
Inductive sample_tokens {D : Type} (strtod : bytes -> D * nat * bool) (buf : bytes)
  : nat -> list D -> Prop :=
  | tokens_stop p val n errno :
      strtod (cstr (drop p buf)) = (val, n, errno) ->
      n = 0 \/ errno = true ->
      sample_tokens strtod buf p []
  | tokens_last p val n :
      strtod (cstr (drop p buf)) = (val, n, false) ->
      n <> 0 -> char_at buf (p + n) <> ","%char ->
      sample_tokens strtod buf p [val]
  | tokens_more p val n vals :
      strtod (cstr (drop p buf)) = (val, n, false) ->
      n <> 0 -> char_at buf (p + n) = ","%char ->
      sample_tokens strtod buf (p + n + 1) vals ->
      sample_tokens strtod buf p (val :: vals).

(** The samples of the values [vals], the first at time [time] and each
    next one second later, in [int] arithmetic. *)
Fixpoint csv_samples {D : Type} (conv : csv_format -> D -> Z) (type : csv_format)
    (time : Z) (vals : list D) : list sample :=
  match vals with
  | [] => []
  | v :: rest =>
      add_sample_data conv (set_time prepare_sample time) type v
      :: csv_samples conv type (wrap32 (time + 1)) rest
  end.

(** The time after [n] samples, starting from [time]. *)
Fixpoint csv_time_after (time : Z) (n : nat) : Z :=
  match n with
  | 0 => time
  | S n' => csv_time_after (wrap32 (time + 1)) n'
  end.

(** ** Instances for the examples *)

Definition crlf : string := String CR (String LF EmptyString).
Definition lf : string := String LF EmptyString.

(** A transform engine that accepts every document and logs what it was
    handed. *)
Definition recording_engine (doc : bytes) (params : xml_params)
    (log : list (bytes * xml_params)) : Z * list (bytes * xml_params) :=
  (0%Z, log ++ [(doc, params)]).

(** A DL7 file with one dive and its profile. *)
Definition dl7_one_dive : bytes :=
  lit ("FSH|^~<>{}|DL7^|ZXU|" ++ crlf ++
       "ZDH|1|7|I|QS|20200102103000|20|||" ++ crlf ++
       "ZDP{" ++ crlf ++ "|0|1.5" ++ crlf ++ "|10|3&4" ++ crlf ++ "ZDP}" ++ crlf ++
       "ZDT|1|7|30|20200102111500|15|" ++ crlf).

(** The same dive without a ZDP block. *)
Definition dl7_no_profile : bytes :=
  lit ("FSH|" ++ crlf ++
       "ZDH|1|7|I|QS|20200102103000|20|||" ++ crlf ++
       "ZDT|1|7|30|20200102111500|15|" ++ crlf).


(** One dive, followed by a blank line. *)
Definition dl7_trailing_blank : bytes := dl7_one_dive ++ lit crlf.

(** The state of the dive loop after the dive of [dl7_one_dive]. *)
Definition dl7_one_dive_end : @dan_state (list (bytes * xml_params)) :=
  Eval vm_compute in
    match dan_dive recording_engine (Some dl7_one_dive) dl7_one_dive [CR; LF] 0
            (DanState 20 0%Z [] [] []) with
    | Returns (inl st) => st
    | _ => DanState 0 0%Z [] [] []
    end.

(** A record stream with a group at 5 s holding the two diluent records,
    a timestamp above the threshold and a group without a depth record. *)
Definition mkvi_stream : bytes :=
  lit ("5,85,10" ++ lf ++ "5,86,21" ++ lf ++ "5,8,20" ++ lf ++ "60000,13,3" ++ lf
       ++ "7,20,13" ++ lf).

(** The month names of the source, untranslated. *)
Definition monthname_en (mon : nat) : bytes :=
  lit (nth mon ["Jan"; "Feb"; "Mar"; "Apr"; "May"; "Jun";
                "Jul"; "Aug"; "Sep"; "Oct"; "Nov"; "Dec"]%string EmptyString).

(** An instance of [strtod] for the examples: plain decimal numbers
    (optional sign, digits, optional fraction), kept exact as a mantissa
    and a count of decimals; it never sets [errno]. *)
Definition strtod_dec (s : bytes) : (Z * nat) * nat * bool :=
  let t := skip_space s in
  let '(neg, t) :=
    match t with
    | c :: t' => if Ascii.eqb c "-" then (true, t')
                 else if Ascii.eqb c "+" then (false, t') else (false, t)
    | [] => (false, t)
    end in
  let '(int_part, n1, t1) := scan_digits t 0 0 in
  let '(mantissa, n2, t2) :=
    match t1 with
    | c :: t1' => if Ascii.eqb c "." then scan_digits t1' int_part 0 else (int_part, 0, t1)
    | [] => (int_part, 0, t1)
    end in
  match n1 + n2 with
  | 0 => ((0%Z, 0), 0, false)
  | S _ => ((if neg then (- mantissa)%Z else mantissa, n2), length s - length t2, false)
  end.

(** An instance of [utc_mktime] for the examples: the seconds from
    1970-01-01 00:00:00 UTC to the calendar time [t], whose [tm_year] is
    the calendar year and [tm_mon] counts from 0. *)
Definition utc_seconds (t : tm) : Z :=
  let m := (Z.of_nat (tm_mon t) + 1)%Z in
  let y := (if (m <=? 2)%Z then tm_year t - 1 else tm_year t)%Z in
  let era := (y / 400)%Z in
  let yoe := (y - era * 400)%Z in
  let mp := ((m + 9) mod 12)%Z in
  let doy := ((153 * mp + 2) / 5 + tm_mday t - 1)%Z in
  let doe := (yoe * 365 + yoe / 4 - yoe / 100 + doy)%Z in
  let days := (era * 146097 + doe - 719468)%Z in
  (days * 86400 + tm_hour t * 3600 + tm_min t * 60 + tm_sec t)%Z.

(** The header and samples of the example of the specification, with the
    date as the specification writes it and as [parse_date] reads it. *)
Definition csv_spec_example : bytes := lit "1,2,01-Jan-2020 10:00:00,x,x,x,x,x,10,20,30".
Definition csv_example : bytes := lit "1,2,01Jan2020 10:00:00,x,x,x,x,x,10,20,30".
Definition csv_example_stop : bytes := lit "1,2,01Jan2020 10:00:00,x,x,x,x,x,10,20,30,abc".

(** A Seabear file: a header with the serial number and the date, a
    separator, two lines of samples. *)
Definition seabear_file : bytes :=
  lit ("Serial number: 42" ++ lf ++ "//2020-01-02 10:30:00" ++ lf ++ lf
       ++ "0,1.5" ++ lf ++ "10,3.0" ++ lf).

(** A file without a blank line. *)
Definition seabear_no_separator : bytes := lit ("a,b" ++ lf ++ "1,2" ++ lf).

(** A dive whose closing "ZDP}" marker ends the file without a newline. *)
Definition dl7_unterminated_profile : bytes :=
  lit ("FSH|" ++ crlf ++
       "ZDH|1|7|I|QS|20200102103000|20|||" ++ crlf ++
       "ZDP{" ++ crlf ++ "|0|1.5" ++ crlf ++ "ZDP}").

(** ** 4.6 The Poseidon MkVI decoder: the text file of [parse_txt_file] *)

(** The result of running code that builds a [std::string] from two
    cursors: besides returning, running into undefined behaviour or out of
    fuel, it can leave through [std::length_error], which nothing in the
    source catches: that is how the library answers a length beyond
    [max_size()], before it reads a byte. *)
Inductive result (A : Type) : Type :=
  | Ok (a : A)
  | LengthError
  | UB
  | Fuel.
Arguments Ok {A} a.
Arguments LengthError {A}.
Arguments UB {A}.
Arguments Fuel {A}.

Instance result_ret : MRet result := fun _ a => Ok a.
Instance result_bind : MBind result := fun _ _ f m =>
  match m with
  | Ok a => f a
  | LengthError => LengthError
  | UB => UB
  | Fuel => Fuel
  end.

Definition lift {A : Type} (o : outcome A) : result A :=
  match o with
  | Returns a => Ok a
  | Undefined => UB
  | OutOfFuel => Fuel
  end.

(** [std::string(p, q - p)]: the length is a [size_t], so a [q] before [p]
    asks for more than [max_size()] bytes and the constructor of libstdc++
    and libc++ throws. *)
Definition string_between (buf : bytes) (p q : nat) : result bytes :=
  if decide (p <= q) then Ok (substr buf p (q - p)) else LengthError.

(** [parse_mkvi_value(haystack, needle)]; [haystack] is an offset into
    [buf].  [*(endptr - 1)] is read without a check that [endptr] is not
    the first byte of the buffer. *)
Definition parse_mkvi_value (buf : bytes) (haystack : nat) (needle : bytes) : result bytes :=
  match strstr buf haystack needle with
  | Some lineptr =>
      match strstr buf lineptr (lit ": ") with
      | Some valueptr =>
          let valueptr := valueptr + 2 in
          match strstr buf lineptr [LF] with
          | Some endptr =>
              match endptr with
              | 0 => UB
              | S before =>
                  let endptr := if Ascii.eqb (char_at buf before) CR then before else endptr in
                  string_between buf valueptr endptr
              end
          | None => Ok []
          end
      | None => Ok []
      end
  | None => Ok []
  end.

(** [next_mkvi_key(haystack)]: [endptr] is found from [valueptr] on, so
    the length is never negative. *)
Definition next_mkvi_key (buf : bytes) (haystack : nat) : bytes :=
  match strstr buf haystack [LF] with
  | Some valueptr =>
      let valueptr := valueptr + 1 in
      match strstr buf valueptr (lit ": ") with
      | Some endptr => substr buf valueptr (endptr - valueptr)
      | None => []
      end
  | None => []
  end.

(** The directives of a [sscanf] format: [%d], an ordinary character, and
    white space (which matches any amount of white space, none included). *)
Inductive directive : Type :=
  | Dir_d
  | Dir_char (c : ascii)
  | Dir_space.

(** [sscanf(s, fmt, ...)] over the C string [s]: the return value and the
    values stored, in order; [vs] are the values stored so far.  A failure
    of the input before the first conversion gives [EOF]. *)
Fixpoint sscanf_fmt (fmt : list directive) (s : bytes) (vs : list Z) : Z * list Z :=
  let count := Z.of_nat (length vs) in
  let input_failure := match vs with [] => EOF | _ => count end in
  match fmt with
  | [] => (count, vs)
  | Dir_d :: fmt' =>
      match scan_d s with
      | InputFailure => (input_failure, vs)
      | MatchingFailure => (count, vs)
      | Converted v rest => sscanf_fmt fmt' rest (vs ++ [v])
      end
  | Dir_char c :: fmt' =>
      match s with
      | [] => (input_failure, vs)
      | x :: rest => if Ascii.eqb x c then sscanf_fmt fmt' rest vs else (count, vs)
      end
  | Dir_space :: fmt' => sscanf_fmt fmt' (skip_space s) vs
  end.

(** "%d-%d-%d %d:%d:%d" *)
Definition date_time_format : list directive :=
  [Dir_d; Dir_char "-"; Dir_d; Dir_char "-"; Dir_d; Dir_space;
   Dir_d; Dir_char ":"; Dir_d; Dir_char ":"; Dir_d].

(** [atoi(s)] over the C string [s]. *)
Definition atoi (s : bytes) : Z := (strtol10 s).1.

(** [struct tm] as [parse_txt_file] fills it: [tm_mon] is [m - 1] for
    whatever [m] the file holds. *)
Record tm_int : Type := TmInt {
  ti_sec : Z;
  ti_min : Z;
  ti_hour : Z;
  ti_mday : Z;
  ti_mon : Z;
  ti_year : Z
}.

Inductive cylinder_use_type : Type := OC_GAS | DILUENT | OXYGEN.

(** Modelled from the spec: [cylinder_t] lives in [equipment.h], outside
    the sources.  Of a cylinder the decoder sets the use, the size (in
    litres), the working pressure (in bar), the description, the gas mix
    (in permille; the literal [100_percent] is 1000) and, for the oxygen
    cylinder, [manually_added]; a field it does not set holds the zero of
    its type. *)
Record cylinder : Type := Cylinder {
  cylinder_use : cylinder_use_type;
  type_size_l : Z;
  type_workingpressure_bar : Z;
  type_description : string;
  gasmix_o2_permille : Z;
  gasmix_he_permille : Z;
  manually_added : bool
}.

Inductive dive_mode : Type := OC | CCR | PSCR | FREEDIVE.

(** Modelled from the spec: what [parse_txt_file] sets of the dive and of
    its first dive computer; the dive and the dive computer live in
    [dive.h] and [divecomputer.h], outside the sources.  [md_deviceid] is
    the [int] that [atoi] yields, before it is stored in the field.
    [add_extra_data(dc, key, value)] appends one key/value pair. *)
Record mkvi_dive : Type := MkviDive {
  md_when : Z;
  md_model : string;
  md_deviceid : Z;
  md_divemode : dive_mode;
  md_no_o2sensors : Z;
  md_cylinders : list cylinder;
  md_extra_data : list (bytes * bytes);
  md_samples : list sample;
  md_events : list event
}.

(** The header walk of lines 637-646.  [lineptr] is not null here; each
    iteration moves it behind a newline. *)
Fixpoint extra_data_loop (fuel : nat) (buf : bytes) (lineptr : nat)
    (extra : list (bytes * bytes)) : result (list (bytes * bytes)) :=
  if Ascii.eqb (char_at buf lineptr) NUL then Ok extra
  else
    match strchr buf lineptr LF with
    | None => Ok extra
    | Some q =>
        match fuel with
        | 0 => Fuel
        | S fuel' =>
            let lineptr := q + 1 in  (* Skip over '\n' *)
            let key := next_mkvi_key buf lineptr in
            match key with
            | [] => Ok extra
            | _ =>
                value ← parse_mkvi_value buf lineptr key;
                match value with
                | [] => Ok extra
                | _ => extra_data_loop fuel' buf lineptr (extra ++ [(key, value)])
                end
            end
        end
    end.

Section MkVIFile.
Variable float_conv : csv_format -> Z -> Z.
Variable battery_event_defined : bool.
Variable indet : nat -> Z.
(** [utc_mktime] lives in [time.cpp], outside the sources. *)
Variable utc_mktime : tm_int -> Z.

(** [parse_txt_file(filename, csv, log)]; [txt] and [csv] are what
    [readfile] yields for the two files, [None] for a read error.  The
    result is the return value, the log and the diagnostics.
    [MATCH(memtxt.data(), "MkVI_Config")] at line 580 is [memcmp] over the
    11 bytes of the magic, whatever the text holds; [memtxt.data()] has
    [memtxt.size() + 1] bytes, so the comparison reads past them when the
    text is shorter than 10 bytes. *)
Definition parse_txt_file (txt csv : option bytes) (log : list mkvi_dive)
  : result (Z * list mkvi_dive * list diag) :=
  match txt with
  | None => Ok ((-1)%Z, log, [Error "Failed to read '%s'"])
  | Some memtxt =>
      if decide (length memtxt + 1 < length (lit "MkVI_Config")) then UB
      else if starts_with memtxt 0 (lit "MkVI_Config") then
        value ← parse_mkvi_value memtxt 0 (lit "Dive started at");
        let '(n, vs) := sscanf_fmt date_time_format (cstr value) [] in
        if negb (n =? 6)%Z then Ok ((-1)%Z, log, [])
        else
          let y := stored vs 0 0 in
          let m := stored vs 1 0 in
          let d := stored vs 2 0 in
          let hh := stored vs 3 0 in
          let mm := stored vs 4 0 in
          let ss := stored vs 5 0 in
          let cur_tm := TmInt ss mm hh d (wrap32 (m - 1)) y in
          let when := utc_mktime cur_tm in
          value ← parse_mkvi_value memtxt 0 (lit "Rig Serial number");
          let deviceid := atoi (cstr value) in
          let oxygen := Cylinder OXYGEN 3 200 "3l Mk6" 1000 0 true in
          value ← parse_mkvi_value memtxt 0 (lit "Helium percentage");
          let he := atoi (cstr value) in
          value ← parse_mkvi_value memtxt 0 (lit "Nitrogen percentage");
          let diluent :=
            Cylinder DILUENT 3 200 "3l Mk6"
              (wrap32 (wrap32 (wrap32 (100 - atoi (cstr value)) - he) * 10))
              (wrap32 (he * 10)) false in
          extra ←
            match strstr memtxt 0 (lit "Dive started at") with
            | None => Ok []
            | Some lineptr => extra_data_loop (S (length memtxt)) memtxt lineptr []
            end;
          match csv with
          | None =>
              Ok ((-1)%Z, log, [Error "Poseidon import failed: unable to read '%s'"])
          | Some memcsv =>
              st ← lift (parse_txt_file_samples float_conv battery_event_defined indet memcsv);
              Ok (1%Z,
                  log ++ [MkviDive when "Poseidon MkVI Discovery" deviceid CCR 2
                            [oxygen; diluent] extra (ms_samples st) (ms_events st)],
                  ms_diags st)
          end
      else Ok (0%Z, log, [])
  end.
End MkVIFile.

(** ** 4.8 The file entry points: [parse_csv_file] and [parse_manual_file] *)

(** Modelled from the spec: [xml_params_get_key(params, idx)] lives in
    [xmlparams.cpp]; it hands out the name of the entry at [idx], and
    there is none when [idx] is outside the set. *)
Definition xml_params_get_key (params : xml_params) (idx : nat) : option string :=
  fst <$> params !! idx.

Section FileEntryPoints.
Context {divelog : Type}.
Variable parse_xml_buffer : bytes -> xml_params -> divelog -> Z * divelog.
Variable readfile : string -> option bytes.
(** [strftime] of the local time with "%Y%m%d" and "1%H%M". *)
Variables now_date now_time : bytes.
Variable verbose : Z.
(** Whether [SUBSURFACE_MOBILE] is defined. *)
Variable mobile : bool.

(** Lines 395-415 and 1018-1032: the wrapper on an empty [mem], the
    command line for manual testing, the transform engine. *)
Definition wrap_and_transform (filename : string) (params : xml_params) (tag : bytes)
    (log : divelog) : outcome (Z * xml_params * divelog * list diag) :=
  '(r, mem, d) ← try_to_xslt_open_csv (readfile filename) [] tag;
  if negb (r =? 0)%Z then Returns ((-1)%Z, params, log, d)
  else
    let d := if negb mobile && (2 <=? verbose)%Z then d ++ [Info "%s"] else d in
    let '(ret, log) := parse_xml_buffer mem params log in
    Returns (ret, params, log, d).

Definition parse_csv_file (filename : option string) (params : xml_params)
    (csvtemplate : bytes) (log : divelog) : outcome (Z * xml_params * divelog * list diag) :=
  match filename with
  | None => Returns ((-1)%Z, params, log, [Error "No CSV filename"])
  | Some filename =>
      if bool_decide (cstr csvtemplate = lit "DL7") then
        parse_dan_format parse_xml_buffer (readfile filename) params log
      else
        match xml_params_get_key params 0 with
        | None => Undefined
        | Some key =>
            let params :=
              if negb (String.eqb key "date") then
                let params := xml_params_add params "date" now_date in
                xml_params_add params "time" now_time
              else params in
            wrap_and_transform filename params csvtemplate log
        end
  end.

Definition parse_manual_file (filename : option string) (params : xml_params)
    (log : divelog) : outcome (Z * xml_params * divelog * list diag) :=
  let params := xml_params_add params "date" now_date in
  let params := xml_params_add params "time" now_time in
  match filename with
  | None => Returns ((-1)%Z, params, log, [Error "No manual CSV filename"])
  | Some filename => wrap_and_transform filename params (lit "manualCSV") log
  end.
End FileEntryPoints.

(** ** More specification vocabulary *)

(** Reading the wrapper's escape backwards: every "&amp;" stands for "&".
    [skip] bytes of an entity are still to be dropped. *)
Fixpoint unescape_from (skip : nat) (s : bytes) : bytes :=
  match s with
  | [] => []
  | c :: s' =>
      match skip with
      | S k => unescape_from k s'
      | 0 => c :: unescape_from (if Ascii.eqb c "&" then 4 else 0) s'
      end
  end.

Definition unescape_amp (s : bytes) : bytes := unescape_from 0 s.

(** A line of fields, each preceded by the delimiter. *)
Definition delimited (delim : ascii) (fields : list bytes) : bytes :=
  flat_map (fun f => delim :: f) fields.

(** The names of what a ZDH header line adds to the parameters: an
    optional date, an optional time (only with a date), the air
    temperature and the dive number. *)
Definition header_keys (keys : list string) : Prop :=
  keys = ["airTemp"; "diveNro"]%string
  ∨ keys = ["date"; "airTemp"; "diveNro"]%string
  ∨ keys = ["date"; "time"; "airTemp"; "diveNro"]%string.

(** Decides a condition on the bytes of a literal. *)
Ltac forall_chars := apply (bool_decide_unpack _); vm_compute; exact I.

(** A file with a ZDH line before the first newline marker only. *)
Definition dl7_header_on_first_line : bytes :=
  lit ("ZDH|1|7|I|QS|20200102103000|20|||" ++ crlf ++ "ZDT|1|7|" ++ crlf).

(** A Seabear file that ends with its separator. *)
Definition seabear_empty_body : bytes := lit ("a,b" ++ lf ++ "1,2" ++ lf ++ lf).

(** A MkVI text file: the magic, the start of the dive, two more lines. *)
Definition mkvi_txt : bytes :=
  lit ("MkVI_Config" ++ lf ++ "Dive started at: 2012-08-16 12:14:30" ++ crlf
       ++ "Rig Serial number: 4711" ++ crlf ++ "Helium percentage: 10" ++ crlf
       ++ "Nitrogen percentage: 69" ++ crlf).

(** The same start of a file, with no ": " in the line of the start. *)
Definition mkvi_txt_no_colon : bytes :=
  lit ("MkVI_Config" ++ lf ++ "Dive started at" ++ lf ++ "Rig: 1" ++ lf).

(** An instance of [utc_mktime] on the [struct tm] of [parse_txt_file],
    which holds the calendar year. *)
Definition utc_seconds_int (t : tm_int) : Z :=
  utc_seconds (Tm (ti_sec t) (ti_min t) (ti_hour t) (ti_mday t) (Z.to_nat (ti_mon t))
                 (ti_year t)).


(** The document the wrapper makes of a file read into an empty buffer. *)
Definition file_document (mem tag : bytes) : bytes :=
  match mem with
  | [] => []
  | _ => wrapped mem tag
  end.

(** The state of the dive loop behind the header of [dl7_one_dive]. *)
Definition dl7_one_dive_header : @dan_state (list (bytes * xml_params)) :=
  Eval vm_compute in
    match dan_header dl7_one_dive [CR; LF] 0 (DanState 20 0%Z [] [] []) with
    | Returns (inl st) => st
    | _ => DanState 0 0%Z [] [] []
    end.

(** The fields of a sample that [add_sample_data] can write. *)
Inductive field : Type :=
  | F_depth | F_temperature | F_pressure0 | F_setpoint
  | F_o2sensor0 | F_o2sensor1 | F_ndl | F_stopdepth.

Instance field_eq_dec : EqDecision field.
Proof. solve_decision. Defined.

(** The field a format tag stands for, after the [switch] of lines 58-89. *)
Definition field_of (type : csv_format) : field :=
  match type with
  | CSV_DEPTH | POSEIDON_DEPTH => F_depth
  | CSV_TEMP | POSEIDON_TEMP => F_temperature
  | CSV_PRESSURE => F_pressure0
  | POSEIDON_SETPOINT => F_setpoint
  | POSEIDON_SENSOR1 => F_o2sensor0
  | POSEIDON_SENSOR2 => F_o2sensor1
  | POSEIDON_NDL => F_ndl
  | POSEIDON_CEILING => F_stopdepth
  end.

Definition sample_field (s : sample) (f : field) : option Z :=
  match f with
  | F_depth => depth_mm s
  | F_temperature => temperature_mkelvin s
  | F_pressure0 => pressure0_mbar s
  | F_setpoint => setpoint_mbar s
  | F_o2sensor0 => o2sensor0_mbar s
  | F_o2sensor1 => o2sensor1_mbar s
  | F_ndl => ndl_seconds s
  | F_stopdepth => stopdepth_mm s
  end.

(** The number a run of decimal digits stands for. *)
Definition digits_value (ds : bytes) : Z :=
  fold_left (fun a c => (10 * a + digit_value c)%Z) ds 0%Z.

(** A text that does not go on with a digit. *)
Definition no_digit_head (s : bytes) : Prop :=
  match s with
  | [] => True
  | c :: _ => isdigit c = false
  end.

(** [q] is where a line starts at or behind the cursor [p]: [p] itself,
    or the byte right behind a newline marker that lies at or behind [p]. *)
Definition line_start (buf NL : bytes) (p q : nat) : Prop :=
  q = p ∨ (p + strlen NL ≤ q ∧ starts_with buf (q - strlen NL) (cstr NL) = true).

Instance line_start_dec (buf NL : bytes) (p q : nat) : Decision (line_start buf NL p q).
Proof. unfold line_start. apply _. Defined.

(** One dive, followed by a line that holds "ZDH" but does not start
    with it. *)
Definition dl7_stray_header : bytes := dl7_one_dive ++ lit ("xZDH|" ++ crlf).

(** The state of the dive loop after the dive of [dl7_stray_header]. *)
Definition dl7_stray_header_end : @dan_state (list (bytes * xml_params)) :=
  Eval vm_compute in
    match dan_dive recording_engine (Some dl7_stray_header) dl7_stray_header [CR; LF] 0
            (DanState 20 0%Z [] [] []) with
    | Returns (inl st) => st
    | _ => DanState 0 0%Z [] [] []
    end.

(** A transform engine that rejects every document, and logs what it was
    handed. *)
Definition rejecting_engine (doc : bytes) (params : xml_params)
    (log : list (bytes * xml_params)) : Z * list (bytes * xml_params) :=
  ((-1)%Z, log ++ [(doc, params)]).

(** A DL7 file with two dives. *)
Definition dl7_two_dives : bytes :=
  lit ("FSH|^~<>{}|DL7^|ZXU|" ++ crlf ++
       "ZDH|1|7|I|QS|20200102103000|20|||" ++ crlf ++
       "ZDP{" ++ crlf ++ "|0|1.5" ++ crlf ++ "|10|3&4" ++ crlf ++ "ZDP}" ++ crlf ++
       "ZDT|1|7|30|20200102111500|15|" ++ crlf ++
       "ZDH|2|8|I|QS|20200103093000|21|||" ++ crlf ++
       "ZDT|2|8|18|20200103101000|16|" ++ crlf).

(** The state of the dive loop after the first dive of [dl7_two_dives],
    decoded with the rejecting engine. *)
Definition dl7_two_dives_rejected : @dan_state (list (bytes * xml_params)) :=
  Eval vm_compute in
    match dan_dive rejecting_engine (Some dl7_two_dives) dl7_two_dives [CR; LF] 0
            (DanState 20 0%Z [] [] []) with
    | Returns (inl st) => st
    | _ => DanState 0 0%Z [] [] []
    end.


(** ** The CSV file of the MkVI as text *)

(** A decimal numeral as it stands in the file: an optional minus sign
    and a run of digits. *)
Record numeral : Type := Numeral {
  num_neg : bool;
  num_digits : bytes
}.

Definition numeral_text (n : numeral) : bytes :=
  (if num_neg n then ["-"] else []) ++ num_digits n.

Definition numeral_value (n : numeral) : Z :=
  if num_neg n then (- digits_value (num_digits n))%Z else digits_value (num_digits n).

(** A numeral with at least one digit whose value fits an [int]. *)
Definition numeral_ok (n : numeral) : Prop :=
  num_digits n ≠ []
  ∧ Forall (fun c => isdigit c = true) (num_digits n)
  ∧ (digits_value (num_digits n) < 2 ^ 31)%Z.

(** A line of the CSV file: timestamp, type and value, separated by
    commas, whatever else the line holds, and the newline. *)
Record csv_row : Type := CsvRow {
  row_time : numeral;
  row_type : numeral;
  row_value : numeral;
  row_rest : bytes
}.

Definition row_text (r : csv_row) : bytes :=
  numeral_text (row_time r) ++ "," :: numeral_text (row_type r) ++ ","
    :: numeral_text (row_value r) ++ row_rest r ++ [LF].

Definition row_ok (r : csv_row) : Prop :=
  numeral_ok (row_time r) ∧ numeral_ok (row_type r) ∧ numeral_ok (row_value r)
  ∧ no_digit_head (row_rest r)
  ∧ Forall (fun c => c ≠ NUL ∧ c ≠ LF) (row_rest r).

(** The text of a CSV file with the lines [rows]. *)
Definition csv_text (rows : list csv_row) : bytes := flat_map row_text rows.

(** The record of a line: its timestamp, and its type and value. *)
Definition row_record (r : csv_row) : Z * (Z * Z) :=
  (numeral_value (row_time r), (numeral_value (row_type r), numeral_value (row_value r))).

(** The records of a file. *)
Definition csv_records (rows : list csv_row) : list (Z * (Z * Z)) := map row_record rows.

(** The timestamp groups of a sequence of records: the maximal runs of
    consecutive records with the same timestamp, each with its timestamp
    and its (type, value) pairs in order. *)
Fixpoint timestamp_groups (recs : list (Z * (Z * Z))) : list (Z * list (Z * Z)) :=
  match recs with
  | [] => []
  | (t, r) :: rest =>
      match timestamp_groups rest with
      | (t', g) :: groups =>
          if (t =? t')%Z then (t, r :: g) :: groups else (t, [r]) :: (t', g) :: groups
      | [] => [(t, [r])]
      end
  end.

(** The gas-change event of a group with the records [recs], stamped
    [time]: none when the combined gas value is zero. *)
Definition group_gas_event (time : Z) (recs : list (Z * Z)) : list event :=
  if (gas_sum recs =? 0)%Z then []
  else [Event time SAMPLE_EVENT_GASCHANGE2 FLAGS_0 (gas_sum recs) "gaschange"].

(** The gas-change events of a sequence of groups: the event of a group
    is stamped with the timestamp of the group that follows, that of the
    last group with its own. *)
Fixpoint gas_events (groups : list (Z * list (Z * Z))) : list event :=
  match groups with
  | [] => []
  | (t, recs) :: rest =>
      group_gas_event (match rest with (t', _) :: _ => t' | [] => t end) recs
      ++ gas_events rest
  end.

(** What the trace of a run says of a group: the timestamp read at its
    head and its records. *)
Definition trace_group (e : Z * group_vars) : Z * list (Z * Z) := (e.1, g_records e.2).

(** The numeral of a literal without sign. *)
Definition dec (s : string) : numeral := Numeral false (lit s).

(** The lines of [mkvi_stream]. *)
Definition mkvi_rows : list csv_row :=
  [CsvRow (dec "5") (dec "85") (dec "10") [];
   CsvRow (dec "5") (dec "86") (dec "21") [];
   CsvRow (dec "5") (dec "8") (dec "20") [];
   CsvRow (dec "60000") (dec "13") (dec "3") [];
   CsvRow (dec "7") (dec "20") (dec "13") []].

(** A file with a negative setpoint, a line that goes on behind the
    value, and carriage returns before the newlines. *)
Definition mkvi_rows_signed : list csv_row :=
  [CsvRow (dec "1") (dec "20") (Numeral true (lit "7")) [CR];
   CsvRow (dec "1") (dec "8") (dec "12") (lit ",x" ++ [CR]);
   CsvRow (dec "2") (dec "39") (dec "100") [CR]].
(** * Properties *)

(** ** The markup wrapper *)

Example wrap_A_amp_B :
  try_to_xslt_open_csv None (lit "A&B") (lit "x") = Returns (0%Z, lit "<x>A&amp;B</x>", []).
Proof. reflexivity. Qed.

Lemma take_strlen (s : bytes) : take (strlen s) s = cstr s.
Proof.
  unfold strlen. induction s as [|c s IH]; simpl; [done|].
  destruct (Ascii.eqb c NUL); simpl; [done|]. by rewrite IH.
Qed.

Lemma snoc_split {A} (xs : list A) (n : nat) :
  length xs = S n → ∃ ys y, xs = ys ++ [y] ∧ length ys = n.
Proof.
  intros H. destruct (decide (xs = [])) as [->|Hne]; [done|].
  destruct (exists_last Hne) as (ys & y & ->).
  exists ys, y. split; [done|]. rewrite length_app in H. simpl in H. lia.
Qed.

Lemma app_split {A} (xs : list A) (n m : nat) :
  length xs = n + m → ∃ ys zs, xs = ys ++ zs ∧ length ys = n ∧ length zs = m.
Proof.
  intros H. exists (take n xs), (drop n xs).
  rewrite take_drop, length_take, length_drop. repeat split; lia.
Qed.

Lemma store_dec_app (a b : bytes) (x c : ascii) (p : nat) :
  p = S (length a) →
  store_dec (a ++ [x] ++ b) p c = Some (a ++ [c] ++ b, length a).
Proof.
  intros ->. unfold store_dec.
  rewrite decide_True by (rewrite !length_app; simpl; lia).
  replace (length a) with (length a + 0) at 1 by lia.
  by rewrite insert_app_r.
Qed.

Lemma store_dec_seq_app (cs a xs b : bytes) (p : nat) :
  length xs = length cs → p = length a + length xs →
  store_dec_seq (a ++ xs ++ b) p cs = Some (a ++ rev cs ++ b, length a).
Proof.
  revert xs b p. induction cs as [|c cs IH]; intros xs b p Hlen ->.
  - destruct xs; [|done]. simpl. by rewrite Nat.add_0_r.
  - simpl in Hlen. destruct (snoc_split xs _ Hlen) as (ys & y & -> & Hys).
    simpl. rewrite <- (app_assoc ys), (app_assoc a ys).
    rewrite (store_dec_app (a ++ ys) _ y c)
      by (rewrite !length_app; simpl; lia).
    rewrite <- (app_assoc a ys).
    rewrite (IH ys ([c] ++ b)) by (rewrite ?length_app; lia).
    by rewrite <- !app_assoc.
Qed.

Lemma memcpy_app (src a xs b : bytes) :
  length xs = length src →
  memcpy (a ++ xs ++ b) (length a) src = Some (a ++ src ++ b).
Proof.
  revert a xs. induction src as [|c src IH]; intros a xs Hlen.
  - by destruct xs.
  - destruct xs as [|x xs]; [done|]. simpl in *.
    rewrite decide_True by (rewrite !length_app; simpl; lia).
    replace (length a) with (length a + 0) at 1 by lia.
    rewrite insert_app_r. simpl.
    specialize (IH (a ++ [c]) xs).
    rewrite length_app in IH. simpl in IH. rewrite Nat.add_1_r in IH.
    rewrite <- !app_assoc in IH. simpl in IH. apply IH. lia.
Qed.

Lemma store_tag_app (tag a xs b : bytes) (p : nat) :
  length xs = strlen tag → p = length a + length xs →
  store_tag (a ++ xs ++ b) p tag = Some (a ++ cstr tag ++ b, length a).
Proof.
  intros Hlen ->. unfold store_tag.
  rewrite decide_True by lia.
  replace (length a + length xs - strlen tag) with (length a) by lia.
  rewrite take_strlen, memcpy_app; [done|]. by rewrite Hlen.
Qed.

Lemma count_amp_snoc (pre : bytes) (c : ascii) :
  count_amp (pre ++ [c]) = count_amp pre + (if Ascii.eqb c "&" then 1 else 0).
Proof. induction pre as [|x pre IH]; simpl; [lia|]. rewrite IH. lia. Qed.

Lemma escape_amp_snoc (pre : bytes) (c : ascii) :
  escape_amp (pre ++ [c]) = escape_amp pre ++ (if Ascii.eqb c "&" then lit "&amp;" else [c]).
Proof. unfold escape_amp. rewrite flat_map_app. simpl. by rewrite app_nil_r. Qed.

Lemma length_escape_amp (mem : bytes) :
  length (escape_amp mem) = length mem + 4 * count_amp mem.
Proof.
  induction mem as [|c mem IH]; [done|].
  change (escape_amp (c :: mem))
    with ((if Ascii.eqb c "&" then lit "&amp;" else [c]) ++ escape_amp mem).
  rewrite length_app, IH. simpl count_amp.
  destruct (Ascii.eqb c "&"); simpl; lia.
Qed.

Lemma char_at_app (a b : bytes) (c : ascii) : char_at (a ++ c :: b) (length a) = c.
Proof. unfold char_at. rewrite nth_lookup, list_lookup_middle; done. Qed.

Lemma fill_backward_S (n : nat) (mem : bytes) (ptr_out : nat) :
  fill_backward (S n) mem ptr_out =
  match (if Ascii.eqb (char_at mem n) "&"
         then store_dec_seq mem ptr_out [";"; "p"; "m"; "a"]
         else Some (mem, ptr_out)) with
  | Some (mem1, out1) =>
      match store_dec mem1 out1 (char_at mem n) with
      | Some (mem2, out2) => fill_backward n mem2 out2
      | None => None
      end
  | None => None
  end.
Proof. reflexivity. Qed.

(** The loop invariant of the backward fill: with [n] source bytes unread,
    the write cursor is ahead of the read cursor by the room the pending
    escapes and the start tag need, and everything behind the write cursor
    is the escaped text of the bytes already read. *)
Lemma fill_backward_spec (pre gap post : bytes) (k : nat) :
  length gap = k + 4 * count_amp pre →
  fill_backward (length pre) (pre ++ gap ++ post) (length pre + length gap)
  = Some (take k (pre ++ gap) ++ escape_amp pre ++ post, k).
Proof.
  revert gap post. induction pre as [|c pre IH] using rev_ind; intros gap post Hgap.
  - simpl in *. rewrite Nat.add_0_r in Hgap. subst k. by rewrite take_ge.
  - rewrite count_amp_snoc in Hgap. rewrite escape_amp_snoc.
    rewrite length_app. simpl length. rewrite Nat.add_1_r, fill_backward_S.
    rewrite <- (app_assoc pre [c]).
    change ([c] ++ gap ++ post) with (c :: gap ++ post).
    change ([c] ++ gap) with (c :: gap).
    rewrite char_at_app.
    destruct (Ascii.eqb c "&") eqn:Hc.
    + destruct (app_split gap (k + 4 * count_amp pre) 4) as (g1 & g2 & -> & Hg1 & Hg2); [lia|].
      destruct (snoc_split (c :: g1) (length g1)) as (g' & y & Hg' & Hlg'); [done|].
      replace (pre ++ c :: (g1 ++ g2) ++ post) with ((pre ++ c :: g1) ++ g2 ++ post)
        by (by rewrite <- !app_assoc).
      rewrite (store_dec_seq_app [";"; "p"; "m"; "a"] (pre ++ c :: g1) g2 post)
        by (rewrite ?length_app; simpl; rewrite ?length_app; lia).
      rewrite Hg', (app_assoc pre g' [y]), <- (app_assoc (pre ++ g')).
      rewrite (store_dec_app (pre ++ g') _ y c)
        by (rewrite !length_app; simpl; lia).
      rewrite <- (app_assoc pre g').
      replace (length (pre ++ g')) with (length pre + length g') by (by rewrite length_app).
      rewrite IH by lia.
      apply Ascii.eqb_eq in Hc. subst c.
      assert (take k (pre ++ g') = take k ((pre ++ ["&"]) ++ g1 ++ g2)) as ->.
      { replace ((pre ++ ["&"]) ++ g1 ++ g2) with ((pre ++ g') ++ [y] ++ g2).
        2:{ rewrite <- !app_assoc. f_equal. rewrite (app_assoc g' [y]), <- Hg'. done. }
        rewrite (take_app_le (pre ++ g')); [done|]. rewrite length_app. lia. }
      by rewrite <- !app_assoc.
    + destruct (snoc_split (c :: gap) (length gap)) as (g' & y & Hg' & Hlg'); [done|].
      replace (pre ++ c :: gap ++ post) with ((pre ++ g') ++ [y] ++ post).
      2:{ rewrite <- !app_assoc. f_equal. rewrite (app_assoc g' [y]), <- Hg'. done. }
      rewrite (store_dec_app (pre ++ g') _ y c)
        by (rewrite !length_app; simpl; lia).
      rewrite <- (app_assoc pre g').
      replace (length (pre ++ g')) with (length pre + length g') by (by rewrite length_app).
      rewrite IH by lia.
      assert (take k (pre ++ g') = take k ((pre ++ [c]) ++ gap)) as ->.
      { replace ((pre ++ [c]) ++ gap) with ((pre ++ g') ++ [y]).
        2:{ rewrite <- !app_assoc. f_equal. by rewrite <- Hg'. }
        rewrite (take_app_le (pre ++ g')); [done|]. rewrite length_app. lia. }
      by rewrite <- !app_assoc.
Qed.

Lemma resize_grow (mem : bytes) (n : nat) :
  resize mem (length mem + n) = mem ++ replicate n NUL.
Proof.
  unfold resize. rewrite take_ge by lia. f_equal. f_equal. lia.
Qed.

(** The whole rewrite: the buffer becomes the wrapped document and the
    write cursor ends on the first byte. *)
Lemma xslt_wrap_spec (mem tag : bytes) :
  xslt_wrap mem tag = Some (wrapped mem tag, 0).
Proof.
  unfold xslt_wrap.
  replace (length mem + strlen tag * 2 + 5 + count_amp mem * 4)
    with (length mem + (strlen tag * 2 + 5 + count_amp mem * 4)) by lia.
  rewrite resize_grow.
  destruct (app_split (replicate (strlen tag * 2 + 5 + count_amp mem * 4) NUL)
              (strlen tag + 2 + 4 * count_amp mem) (strlen tag + 3))
    as (gap & e & -> & Hgap & He); [rewrite length_replicate; lia|].
  destruct (app_split e 2 (strlen tag + 1)) as (e1 & e' & -> & He1 & He'); [lia|].
  destruct (app_split e' (strlen tag) 1) as (e2 & e3 & -> & He2 & He3); [lia|].
  destruct e3 as [|x [|? ?]]; try done.
  (* the end tag *)
  replace (mem ++ gap ++ e1 ++ e2 ++ [x]) with ((mem ++ gap ++ e1 ++ e2) ++ [x] ++ [])
    by (by rewrite <- !app_assoc).
  rewrite (store_dec_app (mem ++ gap ++ e1 ++ e2) [] x ">")
    by (rewrite !length_app; simpl; lia).
  cbn [mbind option_bind].
  replace ((mem ++ gap ++ e1 ++ e2) ++ [">"] ++ [])
    with ((mem ++ gap ++ e1) ++ e2 ++ lit ">") by (by rewrite <- !app_assoc).
  rewrite (store_tag_app tag (mem ++ gap ++ e1) e2)
    by (rewrite ?length_app; lia).
  cbn [mbind option_bind].
  replace ((mem ++ gap ++ e1) ++ cstr tag ++ lit ">")
    with ((mem ++ gap) ++ e1 ++ cstr tag ++ lit ">") by (by rewrite <- !app_assoc).
  rewrite (store_dec_seq_app ["/"; "<"] (mem ++ gap) e1)
    by (rewrite ?length_app; simpl; lia).
  cbn [mbind option_bind].
  (* the escaped content *)
  rewrite <- (app_assoc mem gap), length_app.
  rewrite (fill_backward_spec mem gap _ (strlen tag + 2)) by lia.
  cbn [mbind option_bind].
  (* the start tag *)
  destruct (app_split (take (strlen tag + 2) (mem ++ gap)) (strlen tag + 1) 1)
    as (s' & s3 & Hs & Hs' & Hs3).
  { rewrite length_take, length_app. lia. }
  destruct (app_split s' 1 (strlen tag)) as (s1 & s2 & -> & Hs1 & Hs2); [lia|].
  destruct s3 as [|y [|? ?]]; try done.
  destruct s1 as [|z [|? ?]]; try done.
  rewrite Hs.
  set (rest := escape_amp mem ++ rev ["/"; "<"] ++ cstr tag ++ lit ">").
  replace ((([z] ++ s2) ++ [y]) ++ rest) with (([z] ++ s2) ++ [y] ++ rest)
    by (by rewrite <- !app_assoc).
  rewrite (store_dec_app ([z] ++ s2) rest y ">")
    by (rewrite !length_app; simpl; lia).
  cbn [mbind option_bind].
  replace (([z] ++ s2) ++ [">"] ++ rest) with ([z] ++ s2 ++ [">"] ++ rest)
    by (by rewrite <- !app_assoc).
  rewrite (store_tag_app tag [z] s2) by (simpl; lia).
  cbn [mbind option_bind].
  change ([z] ++ cstr tag ++ [">"] ++ rest) with ([] ++ [z] ++ cstr tag ++ [">"] ++ rest).
  rewrite (store_dec_app [] _ z "<") by done.
  cbn [mbind option_bind]. unfold wrapped, rest. simpl. done.
Qed.

Lemma try_to_xslt_open_csv_spec (file : option bytes) (mem tag : bytes) :
  try_to_xslt_open_csv file mem tag =
  match wrapper_input file mem with
  | None => Returns ((-1)%Z, mem, [Error "Failed to read '%s'"])
  | Some [] => Returns (0%Z, mem, [])
  | Some src => Returns (0%Z, wrapped src tag, [])
  end.
Proof.
  unfold try_to_xslt_open_csv, wrapper_input.
  destruct mem as [|c mem]; [destruct file as [[|c mem2]|]|]; try done;
    by rewrite xslt_wrap_spec.
Qed.

Lemma length_wrapped (mem tag : bytes) :
  length (wrapped mem tag) = length mem + 2 * strlen tag + 5 + 4 * count_amp mem.
Proof.
  unfold wrapped, strlen. rewrite !length_app, length_escape_amp. simpl. lia.
Qed.

Lemma count_amp_count_char (mem : bytes) : count_amp mem = count_char "&" mem.
Proof.
  unfold count_char. induction mem as [|c mem IH]; [done|]. simpl count_amp.
  destruct (Ascii.eqb_spec c "&") as [->|Hc].
  - rewrite filter_cons_True by done. simpl. lia.
  - rewrite filter_cons_False by done. lia.
Qed.

(** C1. For a non-empty buffer [mem] and a tag, [try_to_xslt_open_csv]
    turns the buffer into [<tag>] + escaped original + [</tag>], where the
    escape replaces each '&' by "&amp;" and keeps every other byte; the
    new length is the old one plus twice the tag length plus 5 plus four
    per '&'; the backward fill leaves the write cursor on the first byte,
    so no off-by diagnostic is emitted; and the call returns 0.  With an
    empty buffer and an empty file the call returns 0 and the buffer stays
    empty. *)
Theorem wrapper_contract (file : option bytes) (mem tag : bytes) :
  mem ≠ [] →
  let doc := lit "<" ++ cstr tag ++ lit ">" ++ escape_amp mem
             ++ lit "</" ++ cstr tag ++ lit ">" in
  try_to_xslt_open_csv file mem tag = Returns (0%Z, doc, [])
  ∧ length doc = length mem + 2 * strlen tag + 5 + 4 * count_char "&" mem
  ∧ xslt_wrap mem tag = Some (doc, 0)
  ∧ try_to_xslt_open_csv (Some []) [] tag = Returns (0%Z, [], []).
Proof.
  intros Hne doc. split_and!.
  - rewrite try_to_xslt_open_csv_spec. by destruct mem.
  - rewrite <- count_amp_count_char. apply length_wrapped.
  - apply xslt_wrap_spec.
  - done.
Qed.

Lemma wrapper_contract_witness :
  try_to_xslt_open_csv None (lit "A&B") (lit "x") = Returns (0%Z, lit "<x>A&amp;B</x>", [])
  ∧ length (lit "<x>A&amp;B</x>") = 3 + 2 * 1 + 5 + 4 * 1.
Proof.
  pose proof (wrapper_contract None (lit "A&B") (lit "x") ltac:(done)) as (H1 & H2 & _).
  split; [exact H1 | exact H2].
Defined.

(** ** The libc primitives *)

Lemma isprefix_spec (p s : bytes) : isprefix p s = true ↔ take (length p) s = p.
Proof.
  revert s. induction p as [|a p IH]; intros [|b s]; simpl; try done.
  rewrite andb_true_iff, Ascii.eqb_eq, IH. split; [intros [-> ->]; done|].
  intros H. by simplify_eq.
Qed.

Lemma strstr_from_Some (s needle : bytes) (off q : nat) :
  strstr_from s needle off = Some q →
  off ≤ q ∧ q ≤ off + length s ∧ isprefix needle (drop (q - off) s) = true
  ∧ ∀ j, off ≤ j < q → isprefix needle (drop (j - off) s) = false
                       ∧ s !! (j - off) ≠ Some NUL ∧ j - off < length s.
Proof.
  revert off. induction s as [|c s IH]; intros off; simpl.
  - destruct (isprefix needle []) eqn:Hp; [|done]. intros [= <-].
    rewrite Nat.sub_diag. simpl. repeat split; try done; lia.
  - destruct (isprefix needle (c :: s)) eqn:Hp.
    + intros [= <-]. rewrite Nat.sub_diag. simpl. repeat split; try done; lia.
    + destruct (Ascii.eqb_spec c NUL) as [->|Hc]; [done|].
      intros H. apply IH in H as (H1 & H2 & H3 & H4).
      replace (q - off) with (S (q - S off)) by lia. simpl.
      split; [lia|]. split; [lia|]. split; [done|].
      intros j Hj. destruct (decide (j = off)) as [->|Hne].
      * rewrite Nat.sub_diag. simpl. repeat split; [done|congruence|lia].
      * replace (j - off) with (S (j - S off)) by lia. simpl.
        specialize (H4 j ltac:(lia)) as (? & ? & ?). repeat split; [done|done|lia].
Qed.

Lemma strstr_from_None (s needle : bytes) (off : nat) :
  strstr_from s needle off = None →
  ∀ j, j ≤ strlen s → isprefix needle (drop j s) = false.
Proof.
  unfold strlen. revert off. induction s as [|c s IH]; intros off; simpl.
  - destruct (isprefix needle []) eqn:Hp; [done|]. intros _ j Hj.
    by rewrite drop_nil.
  - destruct (isprefix needle (c :: s)) eqn:Hp; [done|].
    destruct (Ascii.eqb_spec c NUL) as [->|Hc]; simpl.
    + intros _ j Hj. by replace j with 0 by lia.
    + intros H [|j] Hj; [done|]. simpl. eapply IH; [done|lia].
Qed.

Lemma strstr_Some (buf needle : bytes) (p q : nat) :
  strstr buf p needle = Some q →
  p ≤ q ∧ q ≤ p + length (drop p buf) ∧ starts_with buf q (cstr needle) = true
  ∧ ∀ j, p ≤ j < q → starts_with buf j (cstr needle) = false ∧ char_at buf j ≠ NUL
                      ∧ j < length buf.
Proof.
  unfold strstr, starts_with. intros H.
  apply strstr_from_Some in H as (H1 & H2 & H3 & H4).
  rewrite drop_drop in H3. replace (p + (q - p)) with q in H3 by lia.
  repeat split; try done.
  - specialize (H4 j ltac:(lia)) as (H4 & _ & _).
    rewrite drop_drop in H4. by replace (p + (j - p)) with j in H4 by lia.
  - specialize (H4 j ltac:(lia)) as (_ & H4 & H5).
    rewrite lookup_drop in H4. replace (p + (j - p)) with j in H4 by lia.
    rewrite length_drop in H5.
    unfold char_at. rewrite nth_lookup. intros Hn. apply H4.
    destruct (lookup_lt_is_Some_2 buf j ltac:(lia)) as [x Hx].
    rewrite Hx in *. simpl in Hn. congruence.
  - specialize (H4 j ltac:(lia)) as (_ & _ & H4).
    rewrite length_drop in H4. lia.
Qed.

Lemma strstr_None (buf needle : bytes) (p : nat) :
  strstr buf p needle = None →
  ∀ j, p ≤ j ≤ p + strlen (drop p buf) → starts_with buf j (cstr needle) = false.
Proof.
  unfold strstr, starts_with. intros H j Hj.
  pose proof (strstr_from_None _ _ _ H (j - p) ltac:(lia)) as H'.
  rewrite drop_drop in H'. by replace (p + (j - p)) with j in H' by lia.
Qed.

Lemma length_cstr_le (s : bytes) : strlen s ≤ length s.
Proof.
  unfold strlen. induction s as [|c s IH]; simpl; [lia|].
  destruct (Ascii.eqb c NUL); simpl; lia.
Qed.

Lemma memchr_from_Some (s : bytes) (c : ascii) (n off q : nat) :
  memchr_from s c n off = Some q →
  ∃ i, q = off + i ∧ i < n ∧ s !! i = Some c ∧ Forall (fun x => x ≠ c) (take i s).
Proof.
  revert n off. induction s as [|x s IH]; intros [|n] off; simpl; try done.
  destruct (Ascii.eqb_spec x c) as [->|Hx].
  - intros [= <-]. exists 0. repeat split; [lia|lia|]. simpl. constructor.
  - intros H. apply IH in H as (i & -> & Hi & Hl & Hf).
    exists (S i). repeat split; [lia|lia|done|]. simpl. by constructor.
Qed.

Lemma memchr_from_None (s : bytes) (c : ascii) (n off : nat) :
  memchr_from s c n off = None → Forall (fun x => x ≠ c) (take n s).
Proof.
  revert n off. induction s as [|x s IH]; intros [|n] off; simpl; try done.
  destruct (Ascii.eqb_spec x c) as [->|Hx]; [done|].
  intros H. constructor; [done|]. by eapply IH.
Qed.

(** ** The tokenizer *)

Lemma count_char_app (c : ascii) (a b : bytes) :
  count_char c (a ++ b) = count_char c a + count_char c b.
Proof. unfold count_char. by rewrite filter_app, length_app. Qed.

Lemma count_char_cons_eq (c : ascii) (s : bytes) : count_char c (c :: s) = S (count_char c s).
Proof. unfold count_char. by rewrite filter_cons_True. Qed.

Lemma take_middle {A} (x : list A) (i m : nat) (d : A) :
  x !! i = Some d → i < m →
  take m x = take i x ++ d :: take (m - S i) (drop (S i) x).
Proof.
  intros Hl Hi. rewrite <- (take_drop_middle x i d Hl) at 1.
  rewrite take_app, length_take_le by (apply lookup_lt_Some in Hl; lia).
  rewrite take_take, Nat.min_r by lia.
  replace (m - i) with (S (m - S i)) by lia. done.
Qed.

(** The field loop: what it appends is a list of delimiter-free fields
    which, each followed by the delimiter, spell the span it scanned (up
    to the delimiter after a last, unterminated field). *)
Lemma csv_fields_loop_spec (n : nat) (buf : bytes) (fs le : nat) (d : ascii)
    (fields : list bytes) :
  le - fs ≤ n →
  ∃ emitted,
    csv_fields_loop n buf fs le d fields = fields ++ emitted
    ∧ Forall (fun f => Forall (fun x => x ≠ d) f) emitted
    ∧ (join_fields d emitted = substr buf fs (le - fs)
       ∨ join_fields d emitted = substr buf fs (le - fs) ++ [d])
    ∧ length emitted ≤ count_char d (substr buf fs (le - fs)) + 1.
Proof.
  revert fs fields. induction n as [|n IH]; intros fs fields Hn.
  - exists []. simpl. rewrite app_nil_r. replace (le - fs) with 0 by lia.
    repeat split; [constructor|by left|lia].
  - simpl. destruct (decide (fs < le)) as [Hlt|Hge].
    + unfold memchr. destruct (memchr_from _ _ _ _) as [fe|] eqn:Hm.
      * apply memchr_from_Some in Hm as (i & -> & Hi & Hl & Hf).
        destruct (IH (fs + i + 1) (fields ++ [substr buf fs (fs + i - fs)]) ltac:(lia))
          as (em & -> & Hnd & Hj & Hc).
        replace (fs + i - fs) with i in * by lia.
        assert (substr buf fs (le - fs)
                = substr buf fs i ++ d :: substr buf (fs + i + 1) (le - (fs + i + 1))) as Hs.
        { unfold substr. rewrite (take_middle _ i _ d Hl Hi). f_equal. f_equal.
          rewrite drop_drop. f_equal; [lia|]. f_equal. lia. }
        exists (substr buf fs i :: em). rewrite <- app_assoc. split; [done|].
        split; [by constructor|]. rewrite Hs. split.
        -- simpl. rewrite <- ?app_assoc. simpl.
           destruct Hj as [->| ->]; [by left|by right].
        -- rewrite count_char_app, count_char_cons_eq. simpl. lia.
      * apply memchr_from_None in Hm.
        exists [substr buf fs (le - fs)]. split; [done|].
        split; [by repeat constructor|]. split; [right; simpl; by rewrite app_nil_r|].
        simpl. lia.
    + exists []. rewrite app_nil_r. replace (le - fs) with 0 by lia.
      repeat split; [constructor|by left|simpl; lia].
Qed.

Lemma count_char_line (buf : bytes) (ptr le : nat) (delim : ascii) :
  count_char delim (substr buf (ptr + 1) (le - (ptr + 1)))
  ≤ count_char delim (substr buf ptr (le - ptr)).
Proof.
  unfold substr. destruct (decide (ptr < le)) as [Hlt|Hge].
  - destruct (buf !! ptr) as [c|] eqn:Hl.
    + rewrite (take_middle (drop ptr buf) 0 (le - ptr) c); [|by rewrite lookup_drop, Nat.add_0_r|lia].
      simpl take at 2. rewrite drop_drop.
      replace (le - ptr - 1) with (le - (ptr + 1)) by lia.
      rewrite (count_char_app _ _ (c :: _)). unfold count_char at 3.
      destruct (decide (c = delim)); [rewrite filter_cons_True by done|rewrite filter_cons_False by done];
        simpl; unfold count_char; lia.
    + apply lookup_ge_None in Hl. rewrite (drop_ge _ (ptr + 1)) by lia.
      rewrite take_nil. unfold count_char. simpl. lia.
  - replace (le - (ptr + 1)) with 0 by lia. unfold count_char. simpl. lia.
Qed.

(** C7. [parse_csv_line] on a line that does not start with the delimiter
    fails with an error and leaves the cursor and the fields alone.
    Otherwise it succeeds; the fields it appends are free of the
    delimiter and, each followed by the delimiter, spell the line after
    its leading delimiter (the leading empty field is skipped and a last
    field needs no trailing delimiter); there are at most as many of them
    as the line span has delimiters, plus one; and the cursor ends just
    past the first newline marker at or after the cursor, or at the end of
    the C string when no newline marker follows. *)
Theorem parse_csv_line_contract (buf : bytes) (ptr : nat) (NL : bytes) (delim : ascii)
    (fields : list bytes) :
  let line_end := default (ptr + strlen (drop ptr buf)) (strstr buf ptr NL) in
  (char_at buf ptr ≠ delim →
     parse_csv_line buf ptr NL delim fields
     = ((-1)%Z, ptr, fields, [Error "DEBUG: No leading delimiter found"]))
  ∧ (char_at buf ptr = delim →
     ∃ emitted cursor,
       parse_csv_line buf ptr NL delim fields = (0%Z, cursor, fields ++ emitted, [])
       ∧ length emitted ≤ count_char delim (substr buf ptr (line_end - ptr)) + 1
       ∧ Forall (fun f => Forall (fun x => x ≠ delim) f) emitted
       ∧ (join_fields delim emitted = substr buf (ptr + 1) (line_end - (ptr + 1))
          ∨ join_fields delim emitted
            = substr buf (ptr + 1) (line_end - (ptr + 1)) ++ [delim])
       ∧ (∀ e, strstr buf ptr NL = Some e →
            ptr ≤ e ∧ starts_with buf e (cstr NL) = true ∧ cursor = e + strlen NL)
       ∧ (strstr buf ptr NL = None → cursor = ptr + strlen (drop ptr buf))).
Proof.
  intros line_end. unfold parse_csv_line. fold line_end. split.
  - intros Hne. destruct (Ascii.eqb_spec (char_at buf ptr) delim); done.
  - intros Hd. rewrite Hd, Ascii.eqb_refl.
    destruct (csv_fields_loop_spec (line_end - (ptr + 1)) buf (ptr + 1) line_end
                delim fields ltac:(lia)) as (em & -> & Hnd & Hj & Hc).
    eexists em, _. split; [done|]. split.
    { pose proof (count_char_line buf ptr line_end delim). lia. }
    split; [done|]. split; [done|]. split.
    + intros e He. unfold line_end. rewrite He.
      apply strstr_Some in He as (? & ? & ? & ?).
      by rewrite bool_decide_true.
    + intros He. unfold line_end. rewrite He. rewrite bool_decide_false; [done|].
      by intros [? ?].
Qed.

Example parse_csv_line_dan :
  parse_csv_line (lit ("|1|7||QS" ++ crlf ++ "next")) 0 (lit crlf) "|" []
  = (0%Z, 10, [lit "1"; lit "7"; lit ""; lit "QS"], []).
Proof. reflexivity. Qed.

Example parse_csv_line_eof :
  parse_csv_line (lit "|a|b|") 0 (lit crlf) "|" [] = (0%Z, 5, [lit "a"; lit "b"], []).
Proof. reflexivity. Qed.

(** ** The DAN decoder *)

Lemma isprefix_length (p s : bytes) : isprefix p s = true → length p ≤ length s.
Proof.
  intros H. apply isprefix_spec in H. rewrite <- H at 1. rewrite length_take. lia.
Qed.


Lemma parse_dan_new_line_Some (buf NL : bytes) (p q : nat) (d : list diag) :
  parse_dan_new_line buf (Some p) NL = (Some q, d) →
  p + strlen NL ≤ q ∧ (0 < strlen NL → q ≤ length buf) ∧ d = [].
Proof.
  unfold parse_dan_new_line. destruct (strstr buf p NL) as [i|] eqn:Hs; [|done].
  intros [= <- <-]. apply strstr_Some in Hs as (H1 & _ & H3 & _).
  apply isprefix_length in H3. rewrite length_drop in H3. unfold strlen.
  repeat split; lia.
Qed.

Lemma parse_dan_new_line_None (buf NL : bytes) (p : nat) (d : list diag) :
  parse_dan_new_line buf (Some p) NL = (None, d) →
  d = [Info "DEBUG: No new line found"].
Proof.
  unfold parse_dan_new_line. destruct (strstr buf p NL); [done|]. by intros [= <-].
Qed.

Lemma parse_csv_line_cursor (buf : bytes) (ptr : nat) (NL : bytes) (delim : ascii)
    (fields : list bytes) :
  ptr ≤ (parse_csv_line buf ptr NL delim fields).1.1.2.
Proof.
  unfold parse_csv_line.
  assert (ptr ≤ default (ptr + strlen (drop ptr buf)) (strstr buf ptr NL)) as Hle.
  { destruct (strstr buf ptr NL) eqn:Hs; simpl; [|lia].
    by apply strstr_Some in Hs as (? & _). }
  destruct (Ascii.eqb _ _); simpl; [|done].
  destruct (bool_decide _); lia.
Qed.

Lemma parse_dan_fields_cursor (buf NL : bytes) (fields : gmap nat bytes) (ptr : nat) :
  ptr ≤ (parse_dan_fields buf NL fields ptr).1.2.
Proof.
  unfold parse_dan_fields.
  pose proof (parse_csv_line_cursor buf ptr NL "|" []) as H.
  destruct (parse_csv_line buf ptr NL "|" []) as [[[ret c] fs] d]. simpl in H.
  destruct (ret <? 0)%Z; [done|]. by destruct (decide _).
Qed.

Lemma parse_dan_zdh_cursor (buf NL : bytes) (params : xml_params) (ptr : nat) :
  ptr + 3 ≤ (parse_dan_zdh buf NL params ptr).1.2.
Proof.
  unfold parse_dan_zdh.
  pose proof (parse_dan_fields_cursor buf NL (empty_slots 10) (ptr + 3)) as H.
  destruct (parse_dan_fields _ _ _ _) as [[[ret fs] c] d]. simpl in H.
  by destruct (ret <? 0)%Z.
Qed.

Lemma parse_dan_zdt_cursor (buf NL : bytes) (params : xml_params) (ptr : nat) :
  ptr + 3 ≤ (parse_dan_zdt buf NL params ptr).1.2.
Proof.
  unfold parse_dan_zdt.
  pose proof (parse_dan_fields_cursor buf NL (empty_slots 6) (ptr + 3)) as H.
  destruct (parse_dan_fields _ _ _ _) as [[[ret fs] c] d]. simpl in H.
  by destruct (ret <? 0)%Z.
Qed.

Lemma parse_dan_zdp_cursor (buf NL : bytes) (ptr : nat) (mem_csv : bytes) (c : nat) :
  (parse_dan_zdp buf NL ptr mem_csv).1.1.2 = Some c → ptr ≤ c.
Proof.
  unfold parse_dan_zdp.
  destruct (negb _); [by intros [= <-]|].
  destruct (Ascii.eqb _ _); [by intros [= <-]|].
  destruct (parse_dan_new_line buf (Some ptr) NL) as [[q|] d] eqn:H1; [|done].
  apply parse_dan_new_line_Some in H1 as (H1 & _ & _).
  destruct (strstr buf q (lit "ZDP}")) as [e|] eqn:H2; [|simpl; intros [= <-]; lia].
  apply strstr_Some in H2 as (H2 & _).
  destruct (parse_dan_new_line buf (Some e) NL) as [[q'|] d'] eqn:H3; [|done].
  apply parse_dan_new_line_Some in H3 as (H3 & _ & _).
  simpl. intros [= <-]. lia.
Qed.

Section DANProperties.
Context {divelog : Type}.
Variable parse_xml_buffer : bytes -> xml_params -> divelog -> Z * divelog.

Abbreviation dan_dive' := (dan_dive parse_xml_buffer).
Abbreviation dan_body' := (dan_body parse_xml_buffer).
Abbreviation dan_loop' := (dan_loop parse_xml_buffer).

(** With enough fuel the header scan returns: it finds a header at or
    after the cursor, or it reports the missing header. *)
Lemma locate_zdh_spec (fuel : nat) (buf NL : bytes) (ptr : nat) :
  0 < strlen NL → length buf - ptr < fuel →
  (∃ h, locate_zdh fuel buf NL ptr = Returns (Some h, [])
        ∧ ptr ≤ h ∧ starts_with buf h (lit "ZDH") = true)
  ∨ locate_zdh fuel buf NL ptr
    = Returns (None, [Info "DEBUG: No new line found";
                      Error "Expected ZDH header not found"]).
Proof.
  intros HNL. revert ptr. induction fuel as [|fuel IH]; intros ptr Hf; [lia|].
  cbn [locate_zdh]. destruct (starts_with buf ptr (lit "ZDH")) eqn:Hz.
  { left. by exists ptr. }
  destruct (parse_dan_new_line buf (Some ptr) NL) as [[q|] d] eqn:Hn.
  - apply parse_dan_new_line_Some in Hn as (H1 & H2 & ->).
    specialize (H2 HNL).
    destruct (IH q ltac:(lia)) as [(h & -> & Hh & Hs)| ->].
    + left. exists h. split; [done|]. split; [lia|done].
    + by right.
  - apply parse_dan_new_line_None in Hn as ->. by right.
Qed.

Lemma dan_header_progress (buf NL : bytes) (n : nat) (st st1 : @dan_state divelog) :
  0 < strlen NL →
  dan_header buf NL n st = Returns (inl st1) →
  ds_ptr st + 3 ≤ ds_ptr st1 ∧ ds_ret st1 = ds_ret st ∧ ds_log st1 = ds_log st.
Proof.
  intros HNL. unfold dan_header.
  destruct (locate_zdh_spec (S (length buf - ds_ptr st)) buf NL (ds_ptr st) HNL ltac:(lia))
    as [(h & -> & Hh & _)| ->]; [|done].
  cbn [mbind outcome_bind].
  pose proof (parse_dan_zdh_cursor buf NL
                (xml_params_resize (ds_params st) n) h) as Hc.
  destruct (parse_dan_zdh _ _ _ _) as [[[ret ps] c] d]. simpl in Hc.
  destruct (ret <? 0)%Z; [done|]. intros [= <-]. simpl. repeat split; lia.
Qed.

Lemma dan_header_returns (buf NL : bytes) (n : nat) (st : @dan_state divelog) :
  0 < strlen NL → ∃ r, dan_header buf NL n st = Returns r.
Proof.
  intros HNL. unfold dan_header.
  destruct (locate_zdh_spec (S (length buf - ds_ptr st)) buf NL (ds_ptr st) HNL ltac:(lia))
    as [(h & -> & Hh & _)| ->]; cbn [mbind outcome_bind]; [|by eexists].
  destruct (parse_dan_zdh _ _ _ _) as [[[ret ps] c] d].
  destruct (ret <? 0)%Z; by eexists.
Qed.

Lemma dan_body_progress (file : option bytes) (buf NL : bytes) (st1 st' : @dan_state divelog) :
  dan_body' file buf NL st1 = Returns (inl st') → ds_ptr st1 + 3 ≤ ds_ptr st'.
Proof.
  unfold dan_body, dan_profile.
  destruct (starts_with buf (ds_ptr st1) (lit "ZDP")).
  - pose proof (parse_dan_zdp_cursor buf NL (ds_ptr st1) []) as Hc.
    destruct (parse_dan_zdp _ _ _ _) as [[[ret c] m] d]. simpl in Hc.
    destruct (ret <? 0)%Z; [done|]. destruct c as [c|]; [|done].
    specialize (Hc c eq_refl).
    destruct (starts_with buf c (lit "ZDT")); [|done].
    pose proof (parse_dan_zdt_cursor buf NL (ds_params st1) c) as Hc'.
    destruct (parse_dan_zdt _ _ _ _) as [[[ret' ps] c'] d']. simpl in Hc'.
    destruct (ret' <? 0)%Z; [done|].
    destruct (try_to_xslt_open_csv _ _ _) as [[[r m'] d'']| |]; try done.
    cbn [mbind outcome_bind]. destruct (r =? 0)%Z; [|done].
    destruct (parse_xml_buffer _ _ _). intros [= <-]. simpl. lia.
  - change (0 <? 0)%Z with false. cbv beta iota zeta.
    destruct (starts_with buf (ds_ptr st1) (lit "ZDT")); [|done].
    pose proof (parse_dan_zdt_cursor buf NL (ds_params st1) (ds_ptr st1)) as Hc'.
    destruct (parse_dan_zdt _ _ _ _) as [[[ret' ps] c'] d']. simpl in Hc'.
    destruct (ret' <? 0)%Z; [done|].
    destruct (try_to_xslt_open_csv _ _ _) as [[[r m'] d'']| |]; try done.
    cbn [mbind outcome_bind]. destruct (r =? 0)%Z; [|done].
    destruct (parse_xml_buffer _ _ _). intros [= <-]. simpl. lia.
Qed.

Lemma dan_dive_progress (file : option bytes) (buf NL : bytes) (n : nat)
    (st st' : @dan_state divelog) :
  0 < strlen NL →
  dan_dive' file buf NL n st = Returns (inl st') → ds_ptr st < ds_ptr st'.
Proof.
  intros HNL. unfold dan_dive.
  destruct (dan_header buf NL n st) as [[st1|r]| |] eqn:Hh; try done.
  cbn [mbind outcome_bind]. intros Hb.
  apply dan_header_progress in Hh as (? & _); [|done].
  apply dan_body_progress in Hb. lia.
Qed.

(** The dive loop does not depend on the fuel it is given, as long as
    there is more of it than buffer left. *)
Lemma dan_loop_fuel (file : option bytes) (buf NL : bytes) (n : nat) (f1 f2 : nat)
    (st : @dan_state divelog) :
  0 < strlen NL →
  length buf - ds_ptr st < f1 → length buf - ds_ptr st < f2 →
  dan_loop' f1 file buf NL n st = dan_loop' f2 file buf NL n st.
Proof.
  intros HNL. revert f2 st. induction f1 as [|f1 IH]; intros [|f2] st H1 H2; try lia.
  simpl. destruct (decide (ds_ptr st < length buf)); [|done].
  destruct (dan_dive' file buf NL n st) as [[st'|r]| |] eqn:Hd; try done.
  cbn [mbind outcome_bind].
  apply dan_dive_progress in Hd; [|done]. apply IH; lia.
Qed.

Lemma dan_loop_reaches (file : option bytes) (buf NL : bytes) (n : nat)
    (st st' : @dan_state divelog) :
  0 < strlen NL →
  dan_reaches parse_xml_buffer file buf NL n st st' →
  dan_loop' (S (length buf)) file buf NL n st
  = dan_loop' (S (length buf)) file buf NL n st'.
Proof.
  intros HNL. induction 1 as [st|st st' st'' Hlt Hd _ IH]; [done|].
  rewrite <- IH. simpl. rewrite decide_True by done. rewrite Hd.
  cbn [mbind outcome_bind].
  apply dan_dive_progress in Hd; [|done].
  apply (dan_loop_fuel file buf NL n (length buf) (S (length buf))); [done|lia|lia].
Qed.

Lemma detect_NL_strlen (mem : bytes) (ptr : nat) (NL : bytes) :
  detect_NL mem = Some (ptr, NL) → 0 < strlen NL.
Proof.
  unfold detect_NL. destruct (strstr mem 0 [CR; LF]).
  - intros [= <- <-]. vm_compute. lia.
  - destruct (strstr mem 0 [LF]); [|done]. intros [= <- <-]. vm_compute. lia.
Qed.

(** Where the dive loop stands is where the decoding of the file goes on. *)
Lemma parse_dan_format_at (mem : bytes) (params : xml_params) (log : divelog)
    (NL : bytes) (st : @dan_state divelog) :
  dan_at parse_xml_buffer mem params log NL st →
  0 < strlen NL
  ∧ parse_dan_format parse_xml_buffer (Some mem) params log
    = dan_loop' (S (length mem)) (Some mem) mem NL (xml_params_count params) st.
Proof.
  intros (ptr & Hd & Hr). pose proof (detect_NL_strlen _ _ _ Hd) as HNL.
  split; [done|]. unfold parse_dan_format. rewrite Hd.
  by apply dan_loop_reaches.
Qed.

Lemma dan_loop_returns (file : option bytes) (buf NL : bytes) (n f : nat)
    (st st1 : @dan_state divelog) (r : @dan_result divelog) :
  ds_ptr st < length buf →
  dan_header buf NL n st = Returns (inl st1) →
  dan_body' file buf NL st1 = Returns (inr r) →
  dan_loop' (S f) file buf NL n st = Returns r.
Proof.
  intros Hlt Hh Hb. simpl. rewrite decide_True by done.
  unfold dan_dive. rewrite Hh. cbn [mbind outcome_bind]. by rewrite Hb.
Qed.

(** The decoding of a file never runs out of fuel. *)
Lemma dan_loop_total (file : option bytes) (buf NL : bytes) (n fuel : nat)
    (st : @dan_state divelog) :
  0 < strlen NL → length buf - ds_ptr st < fuel →
  dan_loop' fuel file buf NL n st ≠ OutOfFuel.
Proof.
  intros HNL. revert st. induction fuel as [|fuel IH]; intros st Hf; [lia|].
  cbn [dan_loop]. destruct (decide (ds_ptr st < length buf)); [|done].
  destruct (dan_dive' file buf NL n st) as [[st'|r]| |] eqn:Hd; cbn [mbind outcome_bind];
    try done.
  - apply dan_dive_progress in Hd; [|done]. apply IH. lia.
  - exfalso. unfold dan_dive in Hd.
    destruct (dan_header_returns buf NL n st HNL) as ([st1|r] & Hh); rewrite Hh in Hd;
      cbn [mbind outcome_bind] in Hd; [|done].
    unfold dan_body in Hd.
    destruct (dan_profile buf NL (ds_ptr st1)) as [[[ret c] m] d].
    destruct (ret <? 0)%Z; [done|]. destruct c as [c|]; [|done].
    destruct (starts_with buf c (lit "ZDT")); [|done].
    destruct (parse_dan_zdt _ _ _ _) as [[[ret' ps] c'] d'].
    destruct (ret' <? 0)%Z; [done|].
    rewrite try_to_xslt_open_csv_spec in Hd.
    destruct (wrapper_input file m) as [[|x src]|]; cbn [mbind outcome_bind] in Hd;
      try (change (0 =? 0)%Z with true in Hd; cbv beta iota zeta in Hd;
           by destruct (parse_xml_buffer _ _ _)).
Qed.

Lemma parse_dan_format_total (file : option bytes) (params : xml_params) (log : divelog) :
  parse_dan_format parse_xml_buffer file params log ≠ OutOfFuel.
Proof.
  unfold parse_dan_format. destruct file as [mem|]; [|done].
  destruct (detect_NL mem) as [[ptr NL]|] eqn:Hd; [|done].
  apply dan_loop_total; [by eapply detect_NL_strlen|lia].
Qed.




End DANProperties.

Lemma dl7_one_dive_at :
  dan_at recording_engine dl7_one_dive [] [] [CR; LF] dl7_one_dive_end.
Proof.
  exists 20. split; [reflexivity|].
  eapply dan_reaches_step; [vm_compute; lia|vm_compute; reflexivity|].
  apply dan_reaches_refl.
Defined.

(** C3, as the specification words it, fails: a blank line after the
    trailer of the last dive makes the decoding return -1 with "Expected
    ZDH header not found", although the dive before it was decoded and
    handed to the transform engine. *)
Lemma dan_trailing_blank_line_fails :
  match parse_dan_format recording_engine (Some dl7_trailing_blank) [] [] with
  | Returns (ret, _, log, diags) =>
      ret = (-1)%Z ∧ length log = 1
      ∧ diags = [Info "DEBUG: No new line found"; Error "Expected ZDH header not found"]
  | _ => False
  end.
Proof. vm_compute. repeat split. Qed.



(** When no newline follows the closing "ZDP}" marker, [parse_dan_zdp]
    returns 0 with a null cursor, which the trailer test hands to
    [strncmp]. *)
Example dan_null_cursor :
  parse_dan_format recording_engine (Some dl7_unterminated_profile) [] [] = Undefined.
Proof. vm_compute. reflexivity. Qed.

Example dan_profile_payload :
  match parse_dan_format recording_engine (Some dl7_one_dive) [] [] with
  | Returns (ret, _, [(doc, _)], diags) =>
      ret = 0%Z ∧ diags = []
      ∧ doc = lit ("<csv>|0|1.5" ++ crlf ++ "|10|3&amp;4" ++ crlf ++ "</csv>")
  | _ => False
  end.
Proof. vm_compute. repeat split. Qed.

(** C2, on a dive that has no ZDP block: the decoding succeeds, but the
    document handed to the transform engine is not an empty payload: the
    wrapper, given the empty [mem_csv], reads the file again and wraps the
    whole DL7 file. *)
Theorem dan_absent_profile_rereads_file :
  match parse_dan_format recording_engine (Some dl7_no_profile) [] [] with
  | Returns (ret, _, [(doc, _)], diags) =>
      ret = 0%Z ∧ diags = [] ∧ doc = lit "<csv>" ++ dl7_no_profile ++ lit "</csv>"
  | _ => False
  end.
Proof. vm_compute. repeat split. Qed.

(** ** The Poseidon MkVI sample loop *)

Lemma last_value_app (k : Z) (a b : list (Z * Z)) :
  last_value k (a ++ b)
  = match last_value k b with Some x => Some x | None => last_value k a end.
Proof.
  induction a as [|[t v] a IH]; simpl.
  - by destruct (last_value k b).
  - rewrite IH. by destruct (last_value k b).
Qed.

Lemma last_value_snoc (k : Z) (recs : list (Z * Z)) (t v : Z) :
  last_value k (recs ++ [(t, v)]) = if (t =? k)%Z then Some v else last_value k recs.
Proof. rewrite last_value_app. simpl. by destruct (t =? k)%Z. Qed.

Lemma gas_sum_snoc (recs : list (Z * Z)) (t v : Z) :
  gas_sum (recs ++ [(t, v)]) = gas_step (gas_sum recs) (t, v).
Proof. unfold gas_sum. by rewrite fold_left_app. Qed.

Lemma gaschange_events_app (evs evs' : list event) :
  gaschange_events (evs ++ evs') = gaschange_events evs ++ gaschange_events evs'.
Proof. unfold gaschange_events. by rewrite filter_app. Qed.

Lemma gaschange_events_snoc (evs : list event) (e : event) :
  gaschange_events (evs ++ [e])
  = gaschange_events evs
    ++ (if decide (ev_type e = SAMPLE_EVENT_GASCHANGE2) then [e] else []).
Proof.
  unfold gaschange_events. by rewrite filter_app.
Qed.

Lemma strchr_lt (buf : bytes) (p q : nat) (c : ascii) :
  c ≠ NUL → strchr buf p c = Some q → p ≤ q < length buf.
Proof.
  intros Hc H. unfold strchr in H. apply strstr_Some in H as (H1 & _ & H3 & _).
  split; [done|]. apply isprefix_length in H3. rewrite length_drop in H3.
  assert (cstr [c] = [c]) as Hcs.
  { simpl. destruct (Ascii.eqb_spec c NUL); done. }
  rewrite Hcs in H3. simpl in H3. lia.
Qed.

Section MkVIProperties.
Variable float_conv : csv_format -> Z -> Z.
Variable battery_event_defined : bool.
Variable indet : nat -> Z.

Abbreviation conv := (mkvi_conv float_conv).

Lemma mkvi_record_inv (pd ps pn t0 cur type value : Z) (g : group_vars) :
  group_inv conv pd ps pn t0 g →
  group_inv conv pd ps pn t0
    (mkvi_record float_conv battery_event_defined cur type value (saw_record type value g)).
Proof.
  unfold group_inv, has_type.
  intros (H1 & H2 & H3 & H4 & H5 & H6 & H7 & H8 & H9 & H10 & H11 & H12 & H13 & H14 & H15).
  unfold mkvi_record, mouthpiece_event.
  repeat match goal with
         | |- context [(type =? ?k)%Z] =>
             destruct (Z.eqb_spec type k); [subst type|]
         end;
    repeat match goal with
           | |- context [(value =? ?k)%Z] => destruct (value =? k)%Z
           | |- context [if battery_event_defined then _ else _] =>
               destruct battery_event_defined
           end;
    cbn [saw_record add_event upd_sample got_depth got_setpoint got_ndl add_gaschange
           has_depth has_setpoint has_ndl prev_depth prev_setpoint prev_ndl gaschange
           g_sample g_events g_diags g_records];
    rewrite !last_value_snoc, gas_sum_snoc, ?gaschange_events_snoc, ?H15;
    unfold gas_step; cbn [fst snd];
    repeat match goal with
           | H : ?t ≠ ?k |- context [(?t =? ?k)%Z] =>
               rewrite (proj2 (Z.eqb_neq t k) H)
           end;
    simpl; rewrite ?H7; repeat split; try done; try congruence.
Qed.

Lemma mkvi_group_loop_spec (fuel : nat) (buf : bytes) (lineptr : nat)
    (sampletime cur : Z) (g : group_vars) (pd ps pn t0 : Z) :
  length buf - lineptr < fuel →
  group_inv conv pd ps pn t0 g →
  ∃ lp cur' g',
    mkvi_group_loop float_conv battery_event_defined fuel buf lineptr sampletime cur g
    = Returns (lp, cur', g')
    ∧ group_inv conv pd ps pn t0 g'
    ∧ ∀ p, lp = Some p → char_at buf p ≠ NUL → lineptr < p.
Proof.
  revert lineptr sampletime cur g.
  induction fuel as [|fuel IH]; intros lineptr sampletime cur g Hf Hg; [lia|].
  cbn [mkvi_group_loop].
  destruct (sscanf_d3 "," (cstr (drop lineptr buf))) as [i vs].
  set (g1 := if (i =? 3)%Z then _ else _).
  assert (group_inv conv pd ps pn t0 g1) as Hg1.
  { unfold g1. destruct (i =? 3)%Z; [by apply mkvi_record_inv|].
    destruct (i =? EOF)%Z; [done|]. exact Hg. }
  clearbody g1.
  destruct (strchr buf lineptr LF) as [q|] eqn:Hq.
  - apply strchr_lt in Hq; [|done].
    destruct (Ascii.eqb_spec (char_at buf q) NUL) as [Hn|Hn].
    + eexists _, _, _. split; [done|]. split; [done|].
      intros p [= <-] Hp. done.
    + destruct (sscanf_d3 "," (cstr (drop (q + 1) buf))) as [i' vs'].
      destruct (_ =? _)%Z.
      * destruct (IH (q + 1) (stored vs 0 sampletime) (stored vs' 0 cur) g1 ltac:(lia) Hg1)
          as (lp & cur' & g' & -> & Hg' & Hp).
        eexists _, _, _. split; [done|]. split; [done|].
        intros p Hlp Hc. specialize (Hp p Hlp Hc). lia.
      * eexists _, _, _. split; [done|]. split; [done|].
        intros p [= <-] _. lia.
  - eexists _, _, _. split; [done|]. split; [done|]. done.
Qed.

Lemma all_records_snoc (tr : list (Z * group_vars)) (e : Z * group_vars) :
  all_records (tr ++ [e]) = all_records tr ++ g_records e.2.
Proof. unfold all_records. rewrite map_app, concat_app. simpl. by rewrite app_nil_r. Qed.

Lemma last_time_snoc (t0 : Z) (tr : list (Z * group_vars)) (e : Z * group_vars) :
  last_time t0 (tr ++ [e]) = time_seconds (g_sample e.2).
Proof. unfold last_time. by rewrite fold_left_app. Qed.

Lemma trace_ok_app (b : list (Z * Z)) (t : Z) (tr tr' : list (Z * group_vars)) :
  trace_ok conv b t (tr ++ tr')
  ↔ trace_ok conv b t tr ∧ trace_ok conv (b ++ all_records tr) (last_time t tr) tr'.
Proof.
  revert b t. induction tr as [|e tr IH]; intros b t; simpl.
  - unfold all_records, last_time. simpl. rewrite app_nil_r. tauto.
  - rewrite IH. unfold all_records, last_time. simpl.
    rewrite <- app_assoc. tauto.
Qed.

Lemma default_last_value_app (k d : Z) (a b : list (Z * Z)) :
  default d (last_value k (a ++ b)) = default (default d (last_value k a)) (last_value k b).
Proof. rewrite last_value_app. by destruct (last_value k b). Qed.

Lemma group_inv_init (pd ps pn t0 : Z) :
  group_inv conv pd ps pn t0
    (GroupVars false false false pd ps pn 0 (set_time prepare_sample t0) [] [] []).
Proof. unfold group_inv. simpl. repeat split. Qed.

(** What lines 829-837 change: the events gain the gas-change event when
    [gaschange] is not zero, depth, setpoint and NDL take their
    fallbacks, and nothing else moves. *)
Lemma mkvi_finish_fields (cur : Z) (g : group_vars) :
  let g' := mkvi_finish float_conv cur g in
  let s := g_sample g in
  let s' := g_sample g' in
  g_records g' = g_records g
  ∧ g_diags g' = g_diags g
  ∧ prev_depth g' = prev_depth g
  ∧ prev_setpoint g' = prev_setpoint g
  ∧ prev_ndl g' = prev_ndl g
  ∧ time_seconds s' = time_seconds s
  ∧ temperature_mkelvin s' = temperature_mkelvin s
  ∧ pressure0_mbar s' = pressure0_mbar s
  ∧ pressure1_mbar s' = pressure1_mbar s
  ∧ depth_mm s' = (if has_depth g then depth_mm s
                   else Some (conv POSEIDON_DEPTH (prev_depth g)))
  ∧ setpoint_mbar s' = (if negb (has_setpoint g) && (0 <=? prev_setpoint g)%Z
                        then Some (conv POSEIDON_SETPOINT (prev_setpoint g))
                        else setpoint_mbar s)
  ∧ ndl_seconds s' = (if negb (has_ndl g) && (0 <=? prev_ndl g)%Z
                      then Some (conv POSEIDON_NDL (prev_ndl g))
                      else ndl_seconds s)
  ∧ g_events g' = g_events g
                  ++ (if (gaschange g =? 0)%Z then []
                      else [Event cur SAMPLE_EVENT_GASCHANGE2 FLAGS_0 (gaschange g)
                              "gaschange"]).
Proof.
  unfold mkvi_finish.
  destruct (gaschange g =? 0)%Z; simpl;
    (destruct (has_depth g); simpl;
     (destruct (negb (has_setpoint g) && (0 <=? prev_setpoint g)%Z); simpl;
      (destruct (negb (has_ndl g) && (0 <=? prev_ndl g)%Z); simpl;
       rewrite ?app_nil_r; repeat split))).
Qed.

(** The end of a group: with the carried values as the invariant of the
    loop gives them, the finished group is as [group_ok] says. *)
Lemma mkvi_finish_ok (before : list (Z * Z)) (prev_t raw cur : Z) (g : group_vars) :
  group_inv conv (default 0%Z (last_value 8 before))
    (default (-1)%Z (last_value 20 before)) (default (-1)%Z (last_value 37 before))
    (if (raw <? mkvi_time_limit)%Z then raw else prev_t) g →
  let g' := mkvi_finish float_conv cur g in
  group_ok conv before prev_t (raw, g')
  ∧ g_records g' = g_records g
  ∧ g_diags g' = g_diags g
  ∧ prev_depth g' = prev_depth g
  ∧ prev_setpoint g' = prev_setpoint g
  ∧ prev_ndl g' = prev_ndl g
  ∧ time_seconds (g_sample g') = (if (raw <? mkvi_time_limit)%Z then raw else prev_t).
Proof.
  intros (G1 & G2 & G3 & G4 & G5 & G6 & G7 & G8 & G9 & G10 & G11 & G12 & G13 & G14 & G15).
  destruct (mkvi_finish_fields cur g)
    as (F1 & F2 & F3 & F4 & F5 & F6 & F7 & F8 & F9 & F10 & F11 & F12 & F13).
  cbv zeta. rewrite F1, F2, F3, F4, F5, F6, G8.
  split; [|by repeat split].
  unfold group_ok, carried. cbn [fst snd].
  rewrite F1, F6, F7, F8, F9, F10, F11, F12, F13, G1, G2, G3, G4, G5, G6, G7, G8, G9,
    G10, G11, G12, G13, G14, gaschange_events_app, G15.
  unfold has_type. repeat split.
  - by destruct (last_value 8 (g_records g)).
  - destruct (last_value 20 (g_records g)); [done|].
    destruct (last_value 20 before) as [v|]; simpl; [|done].
    by destruct (0 <=? v)%Z.
  - destruct (last_value 37 (g_records g)); [done|].
    destruct (last_value 37 before) as [v|]; simpl; [|done].
    by destruct (0 <=? v)%Z.
  - exists cur. by destruct (gas_sum (g_records g) =? 0)%Z.
Qed.

(** One timestamp group keeps the loop invariant, and when the loop goes
    on the cursor has moved on inside the buffer. *)
Lemma mkvi_group_spec (buf : bytes) (st : mkvi_state) :
  mkvi_inv conv st →
  ∃ st' more,
    mkvi_group float_conv battery_event_defined indet buf st = Returns (st', more)
    ∧ mkvi_inv conv st'
    ∧ (more = true → ms_lineptr st < ms_lineptr st' < length buf).
Proof.
  intros (I1 & I2 & I3 & I4 & I5 & I6 & I7). unfold mkvi_group.
  destruct (sscanf_d3 "," (cstr (drop (ms_lineptr st) buf))) as [i vs].
  set (raw := stored vs 0 (ms_cur_sampletime st)).
  set (t0 := if (raw <? mkvi_time_limit)%Z then raw else ms_prev_time st).
  destruct (mkvi_group_loop_spec (S (length buf - ms_lineptr st)) buf (ms_lineptr st)
              (indet (ms_lineptr st)) raw
              (GroupVars false false false (ms_prev_depth st) (ms_prev_setpoint st)
                 (ms_prev_ndl st) 0 (set_time prepare_sample t0) [] [] [])
              (ms_prev_depth st) (ms_prev_setpoint st) (ms_prev_ndl st) t0
              ltac:(lia) (group_inv_init _ _ _ _))
    as (lp & cur' & g & Hrun & Hg & Hp).
  change (time_seconds (set_time prepare_sample t0)) with t0.
  rewrite Hrun. cbn [mbind outcome_bind].
  rewrite I3, I4, I5 in Hg. unfold t0 in Hg. rewrite I6 in Hg.
  pose proof Hg as (_ & _ & _ & G4 & G5 & G6 & _).
  destruct (mkvi_finish_ok _ _ _ cur' _ Hg) as (Hok & Hr & _ & Hd & Hs & Hn & Ht).
  eexists _, _. split; [done|]. split.
  - unfold mkvi_inv. cbn [ms_samples ms_events ms_prev_depth ms_prev_setpoint ms_prev_ndl
                            ms_prev_time ms_trace].
    rewrite !map_app, concat_app, all_records_snoc, !default_last_value_app,
      last_time_snoc, trace_ok_app. cbn [map concat fst snd trace_ok].
    rewrite app_nil_r, Hd, Hs, Hn, Hr, Ht, I1, I2. unfold t0. rewrite I6.
    split_and!; try done.
  - intros Hmore. cbn [ms_lineptr]. destruct lp as [p|]; [|done].
    apply negb_true_iff in Hmore.
    destruct (Ascii.eqb_spec (char_at buf p) NUL) as [|Hc]; [done|].
    cbn [default]. split; [by apply Hp|].
    destruct (decide (p < length buf)) as [|Hge]; [done|].
    exfalso. apply Hc. unfold char_at. apply nth_overflow. lia.
Qed.

(** The sample loop returns, and keeps its invariant. *)
Lemma mkvi_loop_spec (fuel : nat) (buf : bytes) (st : mkvi_state) :
  length buf - ms_lineptr st < fuel →
  mkvi_inv conv st →
  ∃ st', mkvi_loop float_conv battery_event_defined indet fuel buf st = Returns st'
         ∧ mkvi_inv conv st'.
Proof.
  revert st. induction fuel as [|fuel IH]; intros st Hf Hi; [lia|].
  cbn [mkvi_loop].
  destruct (mkvi_group_spec buf st Hi) as (st' & more & -> & Hi' & Hm).
  cbn [mbind outcome_bind]. destruct more; [|by eexists].
  specialize (Hm eq_refl). apply IH; [lia|done].
Qed.

Lemma parse_txt_file_samples_spec (memcsv : bytes) :
  ∃ st, parse_txt_file_samples float_conv battery_event_defined indet memcsv = Returns st
        ∧ mkvi_inv conv st.
Proof.
  apply mkvi_loop_spec; [simpl; lia|].
  unfold mkvi_inv, all_records. simpl. repeat split.
Qed.

Lemma trace_ok_middle (pre post : list (Z * group_vars)) (e : Z * group_vars) :
  trace_ok conv [] 0 (pre ++ e :: post) →
  trace_ok conv [] 0 pre ∧ group_ok conv (all_records pre) (last_time 0 pre) e.
Proof. rewrite trace_ok_app. simpl. tauto. Qed.

Lemma trace_ok_times (b : list (Z * Z)) (t : Z) (tr : list (Z * group_vars)) :
  trace_ok conv b t tr →
  map (fun e => time_seconds (g_sample e.2)) tr = clamp_times t (map fst tr).
Proof.
  revert b t. induction tr as [|e tr IH]; intros b t; simpl; [done|].
  intros ((Ht & _) & Hrest). rewrite <- Ht. f_equal. by eapply IH.
Qed.
End MkVIProperties.

Example gas_sum_he10_o21 : gas_sum [(85, 10); (86, 21)]%Z = (Z.shiftl 10 16 + 21)%Z.
Proof. reflexivity. Qed.

Example mkvi_stream_decoded :
  match parse_txt_file_samples (fun _ v => v) false (fun _ => 0%Z) mkvi_stream with
  | Returns st =>
      map time_seconds (ms_samples st) = [5; 5; 7]%Z
      ∧ map depth_mm (ms_samples st) = [Some 10000; Some 10000; Some 10000]%Z
      ∧ map setpoint_mbar (ms_samples st) = [None; None; Some 130%Z]
      ∧ map pressure0_mbar (ms_samples st) = [None; Some 3000%Z; None]
      ∧ gaschange_events (ms_events st)
        = [Event 60000 SAMPLE_EVENT_GASCHANGE2 FLAGS_0 (Z.shiftl 10 16 + 21) "gaschange"]
  | _ => False
  end.
Proof. vm_compute. repeat split. Qed.

(** ** The generic CSV decoder *)

Lemma cstr_app_nonul (a b : bytes) :
  Forall (fun x => x ≠ NUL) a → cstr (a ++ b) = a ++ cstr b.
Proof.
  induction 1 as [|x a Hx _ IH]; simpl; [done|].
  destruct (Ascii.eqb_spec x NUL); [done|]. by rewrite IH.
Qed.

Lemma cstr_single (c : ascii) : c ≠ NUL → cstr [c] = [c].
Proof. intros Hc. simpl. by destruct (Ascii.eqb_spec c NUL). Qed.

Lemma starts_with_single (buf : bytes) (j : nat) (c : ascii) :
  starts_with buf j [c] = bool_decide (buf !! j = Some c).
Proof.
  unfold starts_with.
  assert (buf !! j = drop j buf !! 0) as -> by (by rewrite lookup_drop, Nat.add_0_r).
  destruct (drop j buf) as [|x l]; simpl; [done|].
  rewrite andb_true_r. destruct (Ascii.eqb_spec c x) as [->|Hne].
  - by rewrite bool_decide_true.
  - rewrite bool_decide_false; [done|]. intros [= ->]. done.
Qed.

(** The C string at [p] up to the first [c]: the bytes before it hold
    neither [c] nor NUL, and the C string goes on behind it. *)
Lemma strchr_split (buf : bytes) (p q : nat) (c : ascii) :
  c ≠ NUL → strchr buf p c = Some q →
  p ≤ q < length buf
  ∧ Forall (fun x => x ≠ c) (take (q - p) (drop p buf))
  ∧ cstr (drop p buf) = take (q - p) (drop p buf) ++ c :: cstr (drop (q + 1) buf).
Proof.
  intros Hc H. pose proof (strchr_lt _ _ _ _ Hc H) as Hlt.
  unfold strchr in H. apply strstr_Some in H as (H1 & _ & H3 & H4).
  rewrite cstr_single in * by done.
  rewrite starts_with_single in H3. apply bool_decide_eq_true in H3.
  split; [done|].
  assert (∀ i x, take (q - p) (drop p buf) !! i = Some x → x ≠ c ∧ x ≠ NUL) as Hel.
  { intros i x Hi. apply lookup_take_Some in Hi as (Hi & Hlt').
    rewrite lookup_drop in Hi.
    destruct (H4 (p + i) ltac:(lia)) as (Hs & Hn & _).
    rewrite starts_with_single in Hs. apply bool_decide_eq_false in Hs.
    unfold char_at in Hn. rewrite nth_lookup, Hi in Hn. simpl in Hn.
    split; [|done]. intros ->. by apply Hs. }
  split.
  - apply Forall_lookup. intros i x Hi. by apply (Hel i x).
  - rewrite <- (take_drop_middle (drop p buf) (q - p) c) at 1.
    2:{ rewrite lookup_drop. by replace (p + (q - p)) with q by lia. }
    rewrite cstr_app_nonul.
    2:{ apply Forall_lookup. intros i x Hi. by apply (Hel i x). }
    f_equal. simpl. destruct (Ascii.eqb_spec c NUL); [done|].
    rewrite drop_drop. do 3 f_equal. lia.
Qed.

Lemma count_char_Forall (c : ascii) (s : bytes) :
  Forall (fun x => x ≠ c) s → count_char c s = 0.
Proof.
  unfold count_char. induction 1 as [|x s Hx _ IH]; [done|].
  by rewrite filter_cons_False.
Qed.

Lemma strchr_None_count (buf : bytes) (p : nat) (c : ascii) :
  c ≠ NUL → strchr buf p c = None → count_char c (cstr (drop p buf)) = 0.
Proof.
  intros Hc H. unfold strchr in H. pose proof (strstr_None _ _ _ H) as Hn.
  rewrite cstr_single in Hn by done.
  apply count_char_Forall, Forall_lookup. intros i x Hi.
  rewrite <- take_strlen in Hi. apply lookup_take_Some in Hi as (Hi & Hlt).
  rewrite lookup_drop in Hi. specialize (Hn (p + i) ltac:(lia)).
  rewrite starts_with_single in Hn. apply bool_decide_eq_false in Hn.
  intros ->. by apply Hn.
Qed.

Lemma wrap32_small (z : Z) : (- 2 ^ 31 <= z < 2 ^ 31)%Z → wrap32 z = z.
Proof.
  intros H. unfold wrap32, wrap. rewrite Z.mod_small; lia.
Qed.

Section GenericCSVProperties.
Variable monthname : nat -> bytes.
Variable utc_mktime : tm -> Z.
Context {D : Type}.
Variable strtod : bytes -> D * nat * bool.
Variable conv : csv_format -> D -> Z.

Lemma header_loop_None (n : nat) (buf : bytes) (p : nat) (header : list nat) :
  count_char "," (cstr (drop p buf)) < n → header_loop n buf p header = None.
Proof.
  revert p header. induction n as [|n IH]; intros p header Hc; [lia|].
  simpl. destruct (strchr buf p ",") as [q|] eqn:Hq; [|done].
  apply strchr_split in Hq as (_ & Hf & Hs); [|done].
  apply IH. rewrite Hs, count_char_app, (count_char_Forall _ _ Hf) in Hc.
  rewrite count_char_cons_eq in Hc. lia.
Qed.

Lemma header_loop_Some (n : nat) (buf : bytes) (p : nat) (header : list nat) :
  n ≤ count_char "," (cstr (drop p buf)) →
  ∃ header' p', header_loop n buf p header = Some (header', p')
                ∧ length header' = length header + n.
Proof.
  revert p header. induction n as [|n IH]; intros p header Hc.
  - simpl. exists header, p. split; [done|lia].
  - simpl. destruct (strchr buf p ",") as [q|] eqn:Hq.
    + apply strchr_split in Hq as (_ & Hf & Hs); [|done].
      rewrite Hs, count_char_app, (count_char_Forall _ _ Hf), count_char_cons_eq in Hc.
      destruct (IH (q + 1) (header ++ [p]) ltac:(lia)) as (h' & p' & -> & Hl).
      exists h', p'. split; [done|]. rewrite length_app in Hl. simpl in Hl. lia.
    + apply strchr_None_count in Hq; [|done]. lia.
Qed.

Lemma time_seconds_add_sample_data (s : sample) (type : csv_format) (v : D) :
  time_seconds (add_sample_data conv s type v) = time_seconds s.
Proof. by destruct type. Qed.

Lemma csv_time_after_S (time : Z) (n : nat) :
  csv_time_after time (S n) = csv_time_after (wrap32 (time + 1)) n.
Proof. reflexivity. Qed.

(** The sample loop returns: it accepts the tokens [sample_tokens]
    describes and makes one sample of each. *)
Lemma csv_sample_loop_spec (fuel : nat) (buf : bytes) (type : csv_format) (p : nat)
    (time : Z) (samples : list sample) (duration : Z) :
  length buf - p < fuel →
  ∃ vals,
    sample_tokens strtod buf p vals
    ∧ csv_sample_loop strtod conv fuel buf type p time samples duration
      = Returns (samples ++ csv_samples conv type time vals,
                 match vals with
                 | [] => duration
                 | _ => csv_time_after time (length vals)
                 end).
Proof.
  revert p time samples duration.
  induction fuel as [|fuel IH]; intros p time samples duration Hf; [lia|].
  cbn [csv_sample_loop].
  destruct (strtod (cstr (drop p buf))) as [[val n] errno] eqn:Hs.
  destruct (decide (p + n = p)) as [Hn|Hn].
  { exists []. split; [eapply tokens_stop; [done|left; lia]|].
    simpl. by rewrite app_nil_r. }
  destruct errno.
  { exists []. split; [eapply tokens_stop; [done|by right]|].
    simpl. by rewrite app_nil_r. }
  destruct (Ascii.eqb_spec (char_at buf (p + n)) ",") as [Hc|Hc]; cbn [negb].
  - assert (p + n < length buf) as Hlt.
    { destruct (decide (p + n < length buf)); [done|].
      unfold char_at in Hc. rewrite nth_overflow in Hc by lia. done. }
    destruct (IH (p + n + 1) (wrap32 (time + 1))
                (samples ++ [add_sample_data conv (set_time prepare_sample time) type val])
                (wrap32 (time + 1)) ltac:(lia)) as (vals & Ht & ->).
    exists (val :: vals). split; [eapply tokens_more; [done|lia|done|done]|].
    rewrite <- app_assoc. simpl. by destruct vals.
  - exists [val]. split; [eapply tokens_last; [done|lia|done]|]. done.
Qed.

Lemma csv_samples_times (type : csv_format) (t : Z) (vals : list D) :
  (0 <= t)%Z → (t + Z.of_nat (length vals) <= 2 ^ 31)%Z →
  map time_seconds (csv_samples conv type t vals)
  = map (fun k => (t + Z.of_nat k)%Z) (seq 0 (length vals)).
Proof.
  revert t. induction vals as [|v vals IH]; intros t H0 Hn; [done|].
  cbn [csv_samples map length seq]. rewrite time_seconds_add_sample_data.
  f_equal; [simpl; lia|].
  destruct vals as [|v' vals']; [done|].
  rewrite wrap32_small by (simpl length in Hn; lia).
  rewrite IH by (simpl length in *; lia).
  rewrite <- seq_shift, map_map. apply map_ext. intros k. lia.
Qed.

(** C6, as the code has it. With fewer than 8 commas in the buffer, or
    when [parse_date] rejects the third header field, the decoder
    returns 0 and leaves the log alone.  Otherwise it returns 1 and
    appends one dive, whose samples are the tokens that follow the
    header as long as they convert, one second apart from time zero; the
    token that does not convert or is out of range ends the samples
    without an error.  The day, the month name and the year of the date
    follow each other without a separator: "1,2,01Jan2020 10:00:00,..."
    with the samples 10, 20, 30 gives one dive at that time with three
    samples one second apart, also when a non-numeric fourth token
    follows. *)
Theorem try_to_open_csv_contract (mem : bytes) (type : csv_format) (log : list dive) :
  (count_char "," (cstr mem) < 8 →
     try_to_open_csv monthname utc_mktime strtod conv mem type log = Returns (0%Z, log))
  ∧ (8 ≤ count_char "," (cstr mem) →
     ∃ header p,
       header_loop 8 mem 0 [] = Some (header, p) ∧ length header = 8
       ∧ let date := parse_date monthname utc_mktime
                       (cstr (drop (default 0 (header !! 2)) mem)) in
         let number := (strtol10 (cstr (drop (default 0 (header !! 1)) mem))).1 in
         (date = 0%Z →
            try_to_open_csv monthname utc_mktime strtod conv mem type log
            = Returns (0%Z, log))
         ∧ (date ≠ 0%Z →
            ∃ vals,
              sample_tokens strtod mem p vals
              ∧ try_to_open_csv monthname utc_mktime strtod conv mem type log
                = Returns (1%Z, log ++ [Dive date number (csv_samples conv type 0 vals)
                                          (csv_time_after 0 (length vals))])
              ∧ ((Z.of_nat (length vals) <= 2 ^ 31)%Z →
                 map time_seconds (csv_samples conv type 0 vals)
                 = map Z.of_nat (seq 0 (length vals)))))
  ∧ (∀ (cv : csv_format -> Z * nat -> Z),
       let start := utc_mktime (Tm 0 0 10 1 0 2020) in
       let three := csv_samples cv type 0 [(10%Z, 0); (20%Z, 0); (30%Z, 0)] in
       start ≠ 0%Z →
       try_to_open_csv monthname_en utc_mktime strtod_dec cv csv_example type log
       = Returns (1%Z, log ++ [Dive start 2 three 3])
       ∧ try_to_open_csv monthname_en utc_mktime strtod_dec cv csv_example_stop type log
         = Returns (1%Z, log ++ [Dive start 2 three 3])
       ∧ map time_seconds three = [0; 1; 2]%Z).
Proof.
  split_and!.
  - intros Hc. unfold try_to_open_csv. by rewrite header_loop_None.
  - intros Hc.
    destruct (header_loop_Some 8 mem 0 [] Hc) as (header & p & Hh & Hl).
    exists header, p. split; [done|]. split; [done|]. cbv zeta.
    unfold try_to_open_csv. rewrite Hh. split.
    + intros ->. done.
    + intros Hd. destruct (Z.eqb_spec (parse_date monthname utc_mktime
                                         (cstr (drop (default 0 (header !! 2)) mem))) 0);
        [done|].
      destruct (csv_sample_loop_spec (S (length mem)) mem type p 0 [] 0 ltac:(lia))
        as (vals & Ht & ->).
      exists vals. split; [done|]. cbn [mbind outcome_bind]. split.
      * unfold record_dive. simpl. by destruct vals.
      * intros Hn. rewrite csv_samples_times by lia.
        apply map_ext. intros k. lia.
  - intros cv start three Hs. unfold start, three in *. clear start three.
    apply Z.eqb_neq in Hs. vm_compute in Hs.
    split_and!.
    + destruct type; vm_compute; rewrite Hs; reflexivity.
    + destruct type; vm_compute; rewrite Hs; reflexivity.
    + by destruct type.
Qed.
End GenericCSVProperties.

(** C6, as the specification words it, fails on its own example: the
    hyphen behind the day is compared with the month names, the date is
    rejected, and the decoder returns 0 without appending a dive. *)
Lemma csv_spec_example_rejected :
  parse_date monthname_en utc_seconds (cstr (drop 4 csv_spec_example)) = 0%Z
  ∧ try_to_open_csv monthname_en utc_seconds strtod_dec (fun _ v => v.1)
      csv_spec_example CSV_DEPTH []
    = Returns (0%Z, []).
Proof. split; vm_compute; reflexivity. Qed.

Example csv_example_decoded :
  try_to_open_csv monthname_en utc_seconds strtod_dec (fun _ v => v.1)
    csv_example_stop CSV_DEPTH []
  = Returns (1%Z, [Dive 1577872800 2
                     (csv_samples (fun _ v => v.1) CSV_DEPTH 0 [(10%Z, 0); (20%Z, 0); (30%Z, 0)])
                     3]).
Proof. vm_compute. reflexivity. Qed.

(** ** The Seabear decoder *)

(** The scan for the last separator returns: [ptr_old] is kept when no
    separator follows the cursor, and else ends on a separator that no
    other one follows. *)
Lemma last_separator_spec (fuel : nat) (buf sep : bytes) (ptr : nat) (ptr_old : option nat) :
  0 < strlen sep → length buf - ptr < fuel →
  ∃ r, last_separator fuel buf sep ptr ptr_old = Returns r
       ∧ match strstr buf ptr sep with
         | None => r = ptr_old
         | Some _ =>
             ∃ q, r = Some q ∧ ptr ≤ q ∧ starts_with buf q (cstr sep) = true
                  ∧ strstr buf (q + 1) sep = None
         end.
Proof.
  intros Hsep. revert ptr ptr_old.
  induction fuel as [|fuel IH]; intros ptr ptr_old Hf; [lia|].
  cbn [last_separator]. destruct (strstr buf ptr sep) as [q|] eqn:Hq; [|by eexists].
  pose proof Hq as Hq'. apply strstr_Some in Hq' as (H1 & _ & H3 & _).
  pose proof (isprefix_length _ _ H3) as Hl. rewrite length_drop in Hl.
  unfold strlen in Hsep.
  destruct (IH (q + 1) (Some q) ltac:(lia)) as (r & -> & Hr).
  exists r. split; [done|].
  destruct (strstr buf (q + 1) sep) as [q2|] eqn:Hq2.
  - destruct Hr as (q3 & -> & ? & ? & ?). exists q3. split_and!; [done|lia|done|done].
  - exists q. by split_and!.
Qed.

Lemma no_occurrence_strstr (buf sep : bytes) (p : nat) :
  (∀ j, starts_with buf j (cstr sep) = false) → strstr buf p sep = None.
Proof.
  intros Hno. destruct (strstr buf p sep) as [q|] eqn:Hq; [|done].
  apply strstr_Some in Hq as (_ & _ & H3 & _). by rewrite Hno in H3.
Qed.

Section SeabearProperties.
Context {divelog : Type}.
Variable parse_xml_buffer : bytes -> xml_params -> divelog -> Z * divelog.
Variable readfile : string -> option bytes.
Variables now_date now_time : bytes.
Variable verbose : Z.

Abbreviation parse_seabear_csv_file' :=
  (parse_seabear_csv_file parse_xml_buffer readfile now_date now_time verbose).

(** C9. The body of a Seabear file starts behind the last "\r\n\r\n" of
    the buffer, and behind the last "\n\n" only when no "\r\n\r\n"
    occurs; the body is what is wrapped and handed to the transform
    engine.  A buffer without either separator makes the decoder return
    -1 before the transform engine is called, so that no dive is
    appended. *)
Theorem seabear_body_and_failure (filename : string) (mem : bytes) (params : xml_params)
    (csvtemplate : bytes) (log : divelog) :
  readfile filename = Some mem →
  let params0 := xml_params_add (xml_params_add params "date" now_date) "time" now_time in
  ((∀ j, starts_with mem j [CR; LF; CR; LF] = false) →
   (∀ j, starts_with mem j [LF; LF] = false) →
   parse_seabear_csv_file' (Some filename) params csvtemplate log
   = Returns ((-1)%Z, params0, log, []))
  ∧ (is_Some (strstr mem 0 [CR; LF; CR; LF]) →
     ∃ q, seabear_split mem = Returns (Some (q + 4, [CR; LF]))
          ∧ starts_with mem q [CR; LF; CR; LF] = true
          ∧ strstr mem (q + 1) [CR; LF; CR; LF] = None)
  ∧ (strstr mem 0 [CR; LF; CR; LF] = None → is_Some (strstr mem 0 [LF; LF]) →
     ∃ q, seabear_split mem = Returns (Some (q + 2, [LF]))
          ∧ starts_with mem q [LF; LF] = true
          ∧ strstr mem (q + 1) [LF; LF] = None)
  ∧ (∀ ptr_old NL params1,
       seabear_split mem = Returns (Some (ptr_old, NL)) →
       seabear_header_date mem NL params0 = Returns params1 →
       drop ptr_old mem ≠ [] →
       parse_seabear_csv_file' (Some filename) params csvtemplate log
       = let '(ret, log') :=
           parse_xml_buffer (wrapped (drop ptr_old mem) csvtemplate) params1 log in
         Returns (ret, params1, log', if (2 <=? verbose)%Z then [Info "%s"] else [])).
Proof.
  intros Hfile params0. split_and!.
  - intros H1 H2. unfold parse_seabear_csv_file. rewrite Hfile.
    unfold seabear_split. cbn [last_separator].
    rewrite (no_occurrence_strstr mem [CR; LF; CR; LF] 0) by done.
    cbn [mbind outcome_bind].
    rewrite (no_occurrence_strstr mem [LF; LF] 0) by done. done.
  - intros [q0 Hq0]. unfold seabear_split.
    destruct (last_separator_spec (S (length mem)) mem [CR; LF; CR; LF] 0 None
                ltac:(vm_compute; lia) ltac:(lia)) as (r & -> & Hr).
    rewrite Hq0 in Hr. destruct Hr as (q & -> & _ & Hs & Hn).
    exists q. by split_and!.
  - intros Hnone [q0 Hq0]. unfold seabear_split.
    destruct (last_separator_spec (S (length mem)) mem [CR; LF; CR; LF] 0 None
                ltac:(vm_compute; lia) ltac:(lia)) as (r & -> & Hr).
    rewrite Hnone in Hr. subst r. cbn [mbind outcome_bind].
    destruct (last_separator_spec (S (length mem)) mem [LF; LF] 0 None
                ltac:(vm_compute; lia) ltac:(lia)) as (r & -> & Hr).
    rewrite Hq0 in Hr. destruct Hr as (q & -> & _ & Hs & Hn).
    exists q. by split_and!.
  - intros ptr_old NL params1 Hsplit Hdate Hbody.
    unfold parse_seabear_csv_file. rewrite Hfile, Hsplit. cbn [mbind outcome_bind].
    fold params0. rewrite Hdate. cbn [mbind outcome_bind].
    rewrite try_to_xslt_open_csv_spec.
    destruct (drop ptr_old mem) as [|c body] eqn:Hd; [done|].
    cbn [wrapper_input mbind outcome_bind]. change (0 =? 0)%Z with true.
    cbn [negb app]. destruct (parse_xml_buffer _ _ _).
    by destruct (2 <=? verbose)%Z.
Qed.
End SeabearProperties.

Lemma seabear_body_and_failure_witness :
  parse_seabear_csv_file recording_engine (fun _ => Some seabear_no_separator)
    (lit "20261103") (lit "10830") 0 (Some "dive.csv"%string) [] (lit "csv") []
  = Returns ((-1)%Z, [("date"%string, lit "20261103"); ("time"%string, lit "10830")], [], []).
Proof.
  refine (proj1 (seabear_body_and_failure recording_engine (fun _ => Some seabear_no_separator)
                   (lit "20261103") (lit "10830") 0 "dive.csv" seabear_no_separator []
                   (lit "csv") [] eq_refl) _ _).
  - intros j. unfold starts_with.
    do 9 (destruct j as [|j]; [reflexivity|]). by rewrite drop_ge by (simpl; lia).
  - intros j. unfold starts_with.
    do 9 (destruct j as [|j]; [reflexivity|]). by rewrite drop_ge by (simpl; lia).
Defined.

Example seabear_file_decoded :
  parse_seabear_csv_file recording_engine (fun _ => Some seabear_file)
    (lit "20261103") (lit "10830") 0 (Some "dive.csv"%string) [] (lit "csv") []
  = Returns (0%Z, [("date"%string, lit "20200102"); ("time"%string, lit "11030")],
             [(lit ("<csv>0,1.5" ++ lf ++ "10,3.0" ++ lf ++ "</csv>"),
               [("date"%string, lit "20200102"); ("time"%string, lit "11030")])], []).
Proof. vm_compute. reflexivity. Qed.

(** ** The markup wrapper on every path *)

Lemma unescape_escape_amp (mem : bytes) : unescape_amp (escape_amp mem) = mem.
Proof.
  unfold unescape_amp, escape_amp.
  induction mem as [|c mem IH]; [done|].
  cbn [flat_map]. destruct (Ascii.eqb_spec c "&") as [->|Hc].
  - change (unescape_from 0 (lit "&amp;" ++ ?r)) with ("&" :: unescape_from 0 r).
    by rewrite IH.
  - cbn [app unescape_from]. apply Ascii.eqb_neq in Hc. rewrite Hc. by rewrite IH.
Qed.

(** X1. The wrapper returns on every input, with status 0 or -1 and
    without the "off by" diagnostic: -1 exactly when the buffer is empty and
    the file cannot be read, in which case the buffer is left as it was;
    otherwise the buffer holds the wrapped text of the buffer or, when the
    buffer was empty, of the file, and stays empty for an empty file. *)
Theorem wrapper_paths (file : option bytes) (mem tag : bytes) :
  ∃ r mem' d,
    try_to_xslt_open_csv file mem tag = Returns (r, mem', d)
    ∧ (r = 0%Z ∨ r = (-1)%Z)
    ∧ (r = (-1)%Z ↔ mem = [] ∧ file = None)
    ∧ (r = (-1)%Z → mem' = mem ∧ d = [Error "Failed to read '%s'"])
    ∧ (r = 0%Z →
       d = []
       ∧ mem' = match wrapper_input file mem with
                | Some (c :: src) => wrapped (c :: src) tag
                | _ => []
                end).
Proof.
  rewrite try_to_xslt_open_csv_spec.
  destruct mem as [|c mem]; cbn [wrapper_input].
  - destruct file as [[|c src]|].
    + exists 0%Z, [], []. split_and!; try done; [by left|]. split; [done|]. by intros [_ ?].
    + exists 0%Z, (wrapped (c :: src) tag), []. split_and!; try done; [by left|].
      split; [done|]. by intros [_ ?].
    + exists (-1)%Z, [], [Error "Failed to read '%s'"]. split_and!; try done. by right.
  - exists 0%Z, (wrapped (c :: mem) tag), []. split_and!; try done; [by left|].
    split; [done|]. by intros [? _].
Qed.

(** X2. Round trip of the escape: for a non-empty buffer the wrapper
    yields the opening tag, a body and the closing tag, and reading every
    "&amp;" of the body as "&" gives the buffer back; so two buffers that
    are wrapped to the same document under one tag are equal. *)
Theorem wrapper_escape_round_trip (file : option bytes) (mem tag : bytes) :
  mem ≠ [] →
  ∃ body,
    try_to_xslt_open_csv file mem tag
    = Returns (0%Z, lit "<" ++ cstr tag ++ lit ">" ++ body ++ lit "</" ++ cstr tag ++ lit ">", [])
    ∧ unescape_amp body = mem
    ∧ ∀ file2 mem2, mem2 ≠ [] →
        try_to_xslt_open_csv file2 mem2 tag = try_to_xslt_open_csv file mem tag →
        mem2 = mem.
Proof.
  intros Hmem. exists (escape_amp mem).
  assert (Hw : ∀ f m, m ≠ [] → try_to_xslt_open_csv f m tag = Returns (0%Z, wrapped m tag, [])).
  { intros f m Hm. rewrite try_to_xslt_open_csv_spec. by destruct m. }
  split_and!.
  - by rewrite Hw.
  - apply unescape_escape_amp.
  - intros file2 mem2 Hmem2. rewrite !Hw by done. intros [= Heq].
    unfold wrapped in Heq.
    apply app_inv_head in Heq. injection Heq as Heq.
    apply app_inv_tail in Heq.
    by rewrite <- (unescape_escape_amp mem2), Heq, unescape_escape_amp.
Qed.

Lemma wrapper_escape_round_trip_witness :
  ∃ body,
    try_to_xslt_open_csv None (lit "A&B") (lit "x")
    = Returns (0%Z, lit "<" ++ lit "x" ++ lit ">" ++ body ++ lit "</" ++ lit "x" ++ lit ">", [])
    ∧ unescape_amp body = lit "A&B".
Proof.
  destruct (wrapper_escape_round_trip None (lit "A&B") (lit "x")) as (body & H1 & H2 & _);
    [done|].
  exists body. split; [exact H1|exact H2].
Defined.

(** ** Searching a text that is given by its parts *)

Lemma isprefix_here (p s : bytes) : isprefix p (p ++ s) = true.
Proof. apply isprefix_spec. by rewrite take_app_length. Qed.

Lemma strstr_from_here (needle rest : bytes) (off : nat) :
  strstr_from (needle ++ rest) needle off = Some off.
Proof.
  destruct (needle ++ rest) eqn:E; cbn [strstr_from]; rewrite <- E;
    by rewrite isprefix_here.
Qed.

(** A needle is not found in a stretch that lacks its first byte. *)
Lemma strstr_from_skip (a b : bytes) (c0 : ascii) (n' : bytes) (off : nat) :
  Forall (fun x => x ≠ NUL ∧ x ≠ c0) a →
  strstr_from (a ++ b) (c0 :: n') off = strstr_from b (c0 :: n') (off + length a).
Proof.
  revert off. induction a as [|x a IH]; intros off Ha.
  - cbn [app length]. by rewrite Nat.add_0_r.
  - apply Forall_cons in Ha as [[Hx0 Hxc] Ha].
    cbn [app strstr_from isprefix length].
    assert (Ascii.eqb c0 x = false) as -> by (apply Ascii.eqb_neq; congruence).
    cbn [andb]. apply Ascii.eqb_neq in Hx0. rewrite Hx0.
    rewrite IH by done. f_equal. lia.
Qed.

Lemma strstr_parts (buf : bytes) (p : nat) (a b : bytes) (c0 : ascii) (n' : bytes) :
  drop p buf = a ++ (c0 :: n') ++ b →
  cstr (c0 :: n') = c0 :: n' →
  Forall (fun x => x ≠ NUL ∧ x ≠ c0) a →
  strstr buf p (c0 :: n') = Some (p + length a).
Proof.
  intros Hd Hn Ha. unfold strstr. rewrite Hn, Hd.
  rewrite strstr_from_skip by done. apply strstr_from_here.
Qed.

Lemma drop_parts (buf : bytes) (p : nat) (a b : bytes) :
  drop p buf = a ++ b → drop (p + length a) buf = b.
Proof. intros Hd. by rewrite <- drop_drop, Hd, drop_app_length. Qed.

Lemma char_at_parts (buf : bytes) (p : nat) (a b : bytes) (c : ascii) :
  drop p buf = a ++ c :: b → char_at buf (p + length a) = c.
Proof.
  intros Hd. unfold char_at. rewrite nth_lookup, <- lookup_drop, Hd.
  by rewrite list_lookup_middle.
Qed.

Lemma substr_parts (buf : bytes) (p : nat) (a v b : bytes) :
  drop p buf = a ++ v ++ b → substr buf (p + length a) (length v) = v.
Proof.
  intros Hd. unfold substr. rewrite (drop_parts _ _ _ _ Hd). by rewrite take_app_length.
Qed.

Lemma Forall_weaken_nul (P : ascii → Prop) (c : ascii) (s : bytes) :
  Forall (fun x => x ≠ NUL ∧ P x) s → (∀ x, P x → x ≠ c) →
  Forall (fun x => x ≠ NUL ∧ x ≠ c) s.
Proof. intros H HP. eapply Forall_impl; [exact H|]. intros x [? ?]. split; auto. Qed.

(** ** The MkVI text file: [parse_mkvi_value] and [next_mkvi_key] *)

(** The value of a line that is given by its parts, from the first
    occurrence [p] of the marker on. *)
Lemma parse_mkvi_value_parts (buf : bytes) (h p : nat) (needle mid v cr rest : bytes) :
  strstr buf h needle = Some p →
  drop p buf = cstr needle ++ mid ++ lit ": " ++ v ++ cr ++ LF :: rest →
  Forall (fun x => x ≠ NUL ∧ (x ≠ ":" ∧ x ≠ LF)) (cstr needle ++ mid) →
  Forall (fun x => x ≠ NUL ∧ x ≠ LF) v →
  (cr = [] ∧ last v ≠ Some CR) ∨ cr = [CR] →
  parse_mkvi_value buf h needle = Ok v.
Proof.
  intros Hneedle Hd Hnm Hv Hcr.
  set (nm := cstr needle ++ mid) in *.
  assert (Hd1 : drop p buf = nm ++ [":"; " "] ++ (v ++ cr ++ LF :: rest)).
  { rewrite Hd. unfold nm. by rewrite <- !app_assoc. }
  assert (Hd2 : drop p buf = (nm ++ lit ": " ++ v ++ cr) ++ [LF] ++ rest).
  { rewrite Hd. unfold nm. by rewrite <- !app_assoc. }
  assert (Hcr' : Forall (fun x => x ≠ NUL ∧ x ≠ LF) cr).
  { destruct Hcr as [[-> _]| ->]; [constructor|]. constructor; [|constructor]. done. }
  unfold parse_mkvi_value. rewrite Hneedle.
  change (lit ": ") with [":"; " "].
  rewrite (strstr_parts _ _ _ _ _ _ Hd1);
    [|reflexivity|eapply Forall_weaken_nul; [exact Hnm|by intros x [? ?]]].
  rewrite (strstr_parts _ _ _ _ _ _ Hd2); [|reflexivity|].
  2:{ rewrite !Forall_app. split_and!; [|by repeat constructor|done|done].
      eapply Forall_weaken_nul; [exact Hnm|by intros x [? ?]]. }
  destruct Hcr as [[-> Hlast]| ->].
  - rewrite app_nil_r in *.
    destruct (p + length (nm ++ lit ": " ++ v)) as [|before] eqn:E.
    { rewrite !length_app in E. simpl in E. lia. }
    assert (Ascii.eqb (char_at buf before) CR = false) as ->.
    { apply Ascii.eqb_neq.
      destruct v as [|x v _] using rev_ind.
      - assert (before = p + length (nm ++ [":"])) as ->
          by (rewrite !length_app in *; simpl in *; lia).
        assert (Hd3 : drop p buf = (nm ++ [":"]) ++ " " :: LF :: rest)
          by (rewrite Hd; unfold nm; rewrite <- !app_assoc; reflexivity).
        by rewrite (char_at_parts _ _ _ _ _ Hd3).
      - assert (before = p + length (nm ++ lit ": " ++ v)) as ->
          by (rewrite !length_app in *; simpl in *; lia).
        assert (Hd3 : drop p buf = (nm ++ lit ": " ++ v) ++ x :: LF :: rest)
          by (rewrite Hd; unfold nm; rewrite <- !app_assoc; reflexivity).
        rewrite (char_at_parts _ _ _ _ _ Hd3).
        rewrite last_snoc in Hlast. congruence. }
    unfold string_between. rewrite decide_True by (rewrite !length_app in E; simpl in E; lia).
    f_equal.
    replace (S before - (p + length nm + 2)) with (length v)
      by (rewrite !length_app in E; simpl in E; lia).
    replace (p + length nm + 2) with (p + length (nm ++ lit ": "))
      by (rewrite length_app; simpl; lia).
    eapply substr_parts. rewrite Hd. unfold nm. rewrite <- !app_assoc. reflexivity.
  - destruct (p + length (nm ++ lit ": " ++ v ++ [CR])) as [|before] eqn:E.
    { rewrite !length_app in E. simpl in E. lia. }
    assert (before = p + length (nm ++ lit ": " ++ v)) as ->
      by (rewrite !length_app in *; simpl in *; lia).
    assert (Hd3 : drop p buf = (nm ++ lit ": " ++ v) ++ CR :: LF :: rest)
      by (rewrite Hd; unfold nm; rewrite <- !app_assoc; reflexivity).
    rewrite (char_at_parts _ _ _ _ _ Hd3).
    change (Ascii.eqb CR CR) with true. cbv iota.
    unfold string_between. rewrite decide_True by (rewrite !length_app; simpl; lia).
    f_equal.
    replace (p + length (nm ++ lit ": " ++ v) - (p + length nm + 2)) with (length v)
      by (rewrite !length_app; simpl; lia).
    replace (p + length nm + 2) with (p + length (nm ++ lit ": "))
      by (rewrite length_app; simpl; lia).
    eapply substr_parts. rewrite Hd. unfold nm. rewrite <- !app_assoc. reflexivity.
Qed.


(** X3. Reading a header line back: in a text where the marker first
    occurs at the head of a line of the form marker, text, ": ", value,
    line end (LF or CR LF), with no colon and no newline before the ": "
    and no newline in the value, [parse_mkvi_value] returns exactly the
    value, without the CR. *)
Theorem parse_mkvi_value_line (pre needle mid v cr rest : bytes) :
  let buf := pre ++ needle ++ mid ++ lit ": " ++ v ++ cr ++ LF :: rest in
  strstr buf 0 needle = Some (length pre) →
  Forall (fun x => x ≠ NUL ∧ (x ≠ ":" ∧ x ≠ LF)) (needle ++ mid) →
  Forall (fun x => x ≠ NUL ∧ x ≠ LF) v →
  (cr = [] ∧ last v ≠ Some CR) ∨ cr = [CR] →
  parse_mkvi_value buf 0 needle = Ok v.
Proof.
  intros buf Hp Hnm Hv Hcr.
  assert (Hneedle : cstr needle = needle).
  { apply Forall_app in Hnm as [Hn _]. rewrite <- (app_nil_r needle) at 1.
    rewrite cstr_app_nonul; [by rewrite app_nil_r|].
    eapply Forall_impl; [exact Hn|]. by intros x [? _]. }
  apply (parse_mkvi_value_parts buf 0 (length pre) needle mid v cr rest); try done.
  - unfold buf. by rewrite drop_app_length, Hneedle.
  - by rewrite Hneedle.
Qed.

Lemma parse_mkvi_value_line_witness :
  parse_mkvi_value mkvi_txt 0 (lit "Dive started at") = Ok (lit "2012-08-16 12:14:30").
Proof.
  apply (parse_mkvi_value_line (lit ("MkVI_Config" ++ lf ++ "")) (lit "Dive started at") []
           (lit "2012-08-16 12:14:30") [CR] (drop 50 mkvi_txt)).
  - reflexivity.
  - forall_chars.
  - forall_chars.
  - by right.
Defined.

Lemma starts_with_two (buf : bytes) (q : nat) (c1 c2 : ascii) :
  c1 ≠ NUL →
  starts_with buf q [c1; c2] = true →
  char_at buf q = c1 ∧ char_at buf (q + 1) = c2 ∧ q + 1 < length buf.
Proof.
  intros Hc1 H. unfold starts_with in H. apply isprefix_spec in H. cbn [length] in H.
  assert (Hl : q + 2 ≤ length buf).
  { apply (f_equal length) in H. rewrite length_take, length_drop in H. cbn [length] in H. lia. }
  unfold char_at. rewrite !nth_lookup.
  assert (H0 := f_equal (fun l => l !! 0) H). assert (H1 := f_equal (fun l => l !! 1) H).
  cbn beta in H0, H1. rewrite lookup_take_lt, lookup_drop in H0, H1 by lia.
  rewrite Nat.add_0_r in H0. rewrite H0, H1. simpl. split_and!; [done|done|lia].
Qed.

(** A ": " that lies behind the newline of the marker's line gives a
    negative length. *)
Lemma parse_mkvi_value_negative (buf : bytes) (h p q e : nat) (needle : bytes) :
  strstr buf h needle = Some p →
  strstr buf p (lit ": ") = Some q →
  strstr buf p [LF] = Some e →
  e < q → 0 < e → parse_mkvi_value buf h needle = LengthError.
Proof.
  intros Hp Hq He Hlt Hpos. unfold parse_mkvi_value. rewrite Hp, Hq, He.
  destruct e as [|before]; [lia|]. unfold string_between.
  destruct (Ascii.eqb (char_at buf before) CR); by rewrite decide_False by lia.
Qed.

(** X4. When the line of the marker holds no ": " but a later line does,
    the value would have a negative length: [parse_mkvi_value] leaves
    through [std::length_error].  When the ": " comes before the newline
    it returns the text between them. *)
Theorem parse_mkvi_value_throws (buf : bytes) (h p q e : nat) (needle : bytes) :
  strstr buf h needle = Some p →
  strstr buf p (lit ": ") = Some q →
  strstr buf p [LF] = Some e →
  (e < q → 0 < e → parse_mkvi_value buf h needle = LengthError)
  ∧ (q < e →
     let endptr := if Ascii.eqb (char_at buf (e - 1)) CR then e - 1 else e in
     q + 2 ≤ endptr
     ∧ parse_mkvi_value buf h needle = Ok (substr buf (q + 2) (endptr - (q + 2)))).
Proof.
  intros Hp Hq He. unfold parse_mkvi_value. rewrite Hp, Hq, He.
  apply strstr_Some in Hq as (_ & _ & Hq & _).
  apply strstr_Some in He as (_ & _ & He & _).
  change (cstr (lit ": ")) with [":"; " "] in Hq. change (cstr [LF]) with [LF] in He.
  apply starts_with_two in Hq as (Hq0 & Hq1 & Hql); [|done].
  rewrite starts_with_single in He. apply bool_decide_eq_true in He.
  assert (HLF : char_at buf e = LF) by (unfold char_at; by rewrite nth_lookup, He).
  split.
  - intros Hlt Hpos. destruct e as [|before]; [lia|].
    unfold string_between.
    destruct (Ascii.eqb (char_at buf before) CR); by rewrite decide_False by lia.
  - intros Hlt.
    assert (e ≠ q + 1) by (intros ->; rewrite Hq1 in HLF; discriminate).
    destruct e as [|before]; [lia|].
    replace (S before - 1) with before in * by lia.
    set (endptr := if Ascii.eqb (char_at buf before) CR then before else S before).
    assert (Hend : q + 2 ≤ endptr).
    { unfold endptr. destruct (Ascii.eqb_spec (char_at buf before) CR) as [Hcr|_]; [|lia].
      assert (before ≠ q + 1) by (intros ->; rewrite Hq1 in Hcr; discriminate). lia. }
    split; [done|]. unfold string_between. by rewrite decide_True by lia.
Qed.

Lemma parse_mkvi_value_throws_witness :
  parse_mkvi_value (lit ("Dive started at" ++ lf ++ "Rig: 1" ++ lf)) 0 (lit "Dive started at")
  = LengthError.
Proof.
  apply (parse_mkvi_value_throws (lit ("Dive started at" ++ lf ++ "Rig: 1" ++ lf)) 0 0 19 15
           (lit "Dive started at")); [reflexivity|reflexivity|reflexivity| |]; lia.
Defined.

(** The key behind the line at [h], in a text given by its parts. *)
Lemma next_mkvi_key_parts (buf : bytes) (h : nat) (line key rest : bytes) :
  drop h buf = line ++ LF :: key ++ lit ": " ++ rest →
  Forall (fun x => x ≠ NUL ∧ x ≠ LF) line →
  Forall (fun x => x ≠ NUL ∧ x ≠ ":") key →
  next_mkvi_key buf h = key.
Proof.
  intros Hd Hline Hkey. unfold next_mkvi_key.
  assert (Hd1 : drop h buf = line ++ [LF] ++ (key ++ lit ": " ++ rest)) by done.
  rewrite (strstr_parts _ _ _ _ _ _ Hd1); [|reflexivity|done].
  assert (Hd2 : drop (h + length line + 1) buf = key ++ [":"; " "] ++ rest).
  { replace (h + length line + 1) with (h + length (line ++ [LF]))
      by (rewrite length_app; simpl; lia).
    apply drop_parts. rewrite Hd. by rewrite <- app_assoc. }
  change (lit ": ") with [":"; " "].
  rewrite (strstr_parts _ _ _ _ _ _ Hd2); [|reflexivity|done].
  replace (h + length line + 1 + length key - (h + length line + 1)) with (length key) by lia.
  unfold substr. rewrite Hd2. by rewrite take_app_length.
Qed.

(** X5. [next_mkvi_key] does not read the line its argument points
    into: it returns the text between the next newline and the first ": "
    behind it, so the key of the following line, read back exactly when
    it holds no colon. *)
Theorem next_mkvi_key_line (pre line key rest : bytes) :
  Forall (fun x => x ≠ NUL ∧ x ≠ LF) line →
  Forall (fun x => x ≠ NUL ∧ x ≠ ":") key →
  next_mkvi_key (pre ++ line ++ LF :: key ++ lit ": " ++ rest) (length pre) = key.
Proof.
  intros Hline Hkey. apply (next_mkvi_key_parts _ _ line key rest); [|done|done].
  by rewrite drop_app_length.
Qed.

Lemma next_mkvi_key_line_witness :
  next_mkvi_key mkvi_txt 12 = lit "Rig Serial number".
Proof.
  apply (next_mkvi_key_line (lit ("MkVI_Config" ++ lf ++ ""))
           (lit "Dive started at: 2012-08-16 12:14:30" ++ [CR])
           (lit "Rig Serial number") (drop 69 mkvi_txt)).
  - forall_chars.
  - forall_chars.
Defined.

(** ** The tokenizer reads back what was written *)

Lemma delimited_join (d : ascii) (fields : list bytes) :
  delimited d fields ++ [d] = d :: join_fields d fields.
Proof.
  induction fields as [|f fields IH]; [done|].
  unfold delimited, join_fields in *. cbn [flat_map].
  rewrite <- !app_assoc, <- app_comm_cons. f_equal. f_equal. exact IH.
Qed.

Lemma app_delim_inj (d : ascii) (f g x y : bytes) :
  Forall (fun c => c ≠ d) f → Forall (fun c => c ≠ d) g →
  f ++ d :: x = g ++ d :: y → f = g ∧ x = y.
Proof.
  revert g. induction f as [|a f IH]; intros g Hf Hg Heq.
  - destruct g as [|b g]; simpl in Heq.
    + by injection Heq as ->.
    + injection Heq as <- _. apply Forall_cons in Hg as [Hg _]. done.
  - apply Forall_cons in Hf as [Ha Hf].
    destruct g as [|b g]; simpl in Heq.
    + injection Heq as -> _. done.
    + injection Heq as -> Heq. apply Forall_cons in Hg as [_ Hg].
      destruct (IH g Hf Hg Heq) as [-> ->]. done.
Qed.

Lemma join_fields_inj (d : ascii) (a b : list bytes) :
  Forall (fun f => Forall (fun c => c ≠ d) f) a →
  Forall (fun f => Forall (fun c => c ≠ d) f) b →
  join_fields d a = join_fields d b → a = b.
Proof.
  revert b. induction a as [|f a IH]; intros b Ha Hb Heq.
  - destruct b as [|g b]; [done|]. unfold join_fields in Heq. cbn [flat_map] in Heq.
    rewrite <- app_assoc in Heq. by destruct g.
  - destruct b as [|g b].
    + unfold join_fields in Heq. cbn [flat_map] in Heq.
      rewrite <- app_assoc in Heq. by destruct f.
    + apply Forall_cons in Ha as [Hf Ha]. apply Forall_cons in Hb as [Hg Hb].
      unfold join_fields in Heq. cbn [flat_map] in Heq. rewrite <- !app_assoc in Heq.
      apply app_delim_inj in Heq as [-> Heq]; [|done|done].
      f_equal. by apply IH.
Qed.

Lemma join_fields_snoc_empty (d : ascii) (a : list bytes) :
  join_fields d (a ++ [[]]) = join_fields d a ++ [d].
Proof. unfold join_fields. by rewrite flat_map_app. Qed.

Lemma delimited_chars (P : ascii → Prop) (d : ascii) (fields : list bytes) :
  P d → Forall (Forall P) fields → Forall P (delimited d fields).
Proof.
  intros Hd. induction 1 as [|f fields Hf _ IH]; [constructor|].
  unfold delimited. cbn [flat_map]. constructor; [done|]. apply Forall_app. by split.
Qed.

(** A line that is given by its parts, at the cursor [ptr]. *)
Lemma parse_csv_line_parts (buf : bytes) (ptr : nat) (rest : bytes) (nl0 : ascii)
    (nl' : bytes) (delim : ascii) (fields acc : list bytes) :
  let NL := nl0 :: nl' in
  let line := delimited delim fields in
  drop ptr buf = line ++ NL ++ rest →
  cstr NL = NL →
  delim ≠ NUL → delim ≠ nl0 →
  Forall (Forall (fun x => x ≠ NUL ∧ x ≠ nl0 ∧ x ≠ delim)) fields →
  fields ≠ [] → last fields ≠ Some [] →
  parse_csv_line buf ptr NL delim acc
  = (0%Z, ptr + length line + length NL, acc ++ fields, []).
Proof.
  intros NL line Hdrop HNL Hd0 Hdnl Hfields Hne Hlast.
  assert (Hfound : strstr buf ptr NL = Some (ptr + length line)).
  { apply (strstr_parts _ _ _ _ _ _ Hdrop HNL).
    apply delimited_chars; [done|].
    eapply Forall_impl; [exact Hfields|]. intros f Hf.
    eapply Forall_impl; [exact Hf|]. by intros x (? & ? & ?). }
  destruct fields as [|f0 fields]; [done|].
  set (tl := f0 ++ delimited delim fields).
  assert (Hline : line = delim :: tl) by done.
  unfold parse_csv_line. rewrite Hfound. cbn [default]. unfold id.
  assert (char_at buf ptr = delim) as ->.
  { pose proof (char_at_parts buf ptr [] (tl ++ NL ++ rest) delim) as H.
    cbn [length app] in H. rewrite Nat.add_0_r in H. apply H.
    by rewrite Hdrop, Hline. }
  rewrite Ascii.eqb_refl.
  rewrite bool_decide_eq_true_2 by (by eexists).
  assert (Hlen : strlen NL = length NL) by (unfold strlen; by rewrite HNL).
  rewrite Hlen. f_equal. f_equal.
  destruct (csv_fields_loop_spec (ptr + length line - (ptr + 1)) buf
              (ptr + 1) (ptr + length line) delim acc)
    as (emitted & -> & Hnod & Hjoin & _); [lia|].
  f_equal.
  assert (Hspan : substr buf (ptr + 1) (ptr + length line - (ptr + 1)) = tl).
  { replace (ptr + length line - (ptr + 1)) with (length tl)
      by (rewrite Hline; simpl; lia).
    apply (substr_parts buf ptr [delim] tl (NL ++ rest)).
    rewrite Hdrop, Hline. reflexivity. }
  rewrite Hspan in Hjoin.
  assert (Htl : tl ++ [delim] = join_fields delim (f0 :: fields)).
  { pose proof (delimited_join delim (f0 :: fields)) as H. fold line in H.
    rewrite Hline in H. by injection H. }
  assert (Hfields' : Forall (fun f => Forall (fun c => c ≠ delim) f) (f0 :: fields)).
  { eapply Forall_impl; [exact Hfields|]. intros f Hf.
    eapply Forall_impl; [exact Hf|]. by intros x (? & ? & ?). }
  destruct Hjoin as [Hjoin|Hjoin].
  - exfalso. apply Hlast.
    assert (f0 :: fields = emitted ++ [[]]) as ->.
    { apply (join_fields_inj delim); [done| |].
      - apply Forall_app. split; [done|]. by repeat constructor.
      - by rewrite join_fields_snoc_empty, Hjoin, Htl. }
    by rewrite last_snoc.
  - apply (join_fields_inj delim); [done|done|]. by rewrite Hjoin, Htl.
Qed.

Lemma memchr_from_first (f t : bytes) (c : ascii) (n off : nat) :
  Forall (fun x => x ≠ c) f → length f < n →
  memchr_from (f ++ c :: t) c n off = Some (off + length f).
Proof.
  revert n off. induction f as [|x f IH]; intros n off Hf Hn.
  - destruct n; [simpl in Hn; lia|]. cbn [app memchr_from length].
    rewrite Ascii.eqb_refl. by rewrite Nat.add_0_r.
  - apply Forall_cons in Hf as [Hx Hf]. destruct n; [simpl in Hn; lia|].
    cbn [app memchr_from length]. apply Ascii.eqb_neq in Hx. rewrite Hx.
    rewrite IH by (simpl in Hn; done || lia). f_equal. lia.
Qed.

(** The field loop over fields that are each closed by the delimiter. *)
Lemma csv_fields_loop_terminated (fields : list bytes) (n : nat) (buf : bytes)
    (start : nat) (tail : bytes) (delim : ascii) (acc : list bytes) :
  drop start buf = join_fields delim fields ++ tail →
  Forall (Forall (fun x => x ≠ delim)) fields →
  length (join_fields delim fields) ≤ n →
  csv_fields_loop n buf start (start + length (join_fields delim fields)) delim acc
  = acc ++ fields.
Proof.
  revert n start acc. induction fields as [|f fields IH]; intros n start acc Hd Hf Hn.
  - cbn [join_fields flat_map length]. rewrite Nat.add_0_r, app_nil_r.
    destruct n; cbn [csv_fields_loop]; [done|]. by rewrite decide_False by lia.
  - apply Forall_cons in Hf as [Hf0 Hf].
    assert (Hj : join_fields delim (f :: fields) = f ++ delim :: join_fields delim fields).
    { unfold join_fields. cbn [flat_map]. by rewrite <- app_assoc. }
    rewrite Hj in *. rewrite length_app in *. cbn [length] in *.
    destruct n as [|n]; [lia|]. cbn [csv_fields_loop].
    rewrite decide_True by lia.
    unfold memchr. rewrite Hd, <- app_assoc. cbn [app].
    rewrite memchr_from_first by (done || lia).
    replace (start + length f - start) with (length f) by lia.
    assert (substr buf start (length f) = f) as ->.
    { pose proof (substr_parts buf start [] f (delim :: join_fields delim fields ++ tail)) as H.
      cbn [length app] in H. rewrite Nat.add_0_r in H. apply H.
      by rewrite Hd, <- app_assoc. }
    replace (start + (length f + S (length (join_fields delim fields))))
      with (start + length f + 1 + length (join_fields delim fields)) by lia.
    rewrite IH; [by rewrite <- app_assoc|..|done|lia].
    replace (start + length f + 1) with (start + length (f ++ [delim]))
      by (rewrite length_app; simpl; lia).
    apply drop_parts. rewrite Hd. by rewrite <- !app_assoc.
Qed.

Lemma join_fields_chars (P : ascii → Prop) (d : ascii) (fields : list bytes) :
  P d → Forall (Forall P) fields → Forall P (join_fields d fields).
Proof.
  intros Hd. induction 1 as [|f fields Hf _ IH]; [constructor|].
  unfold join_fields. cbn [flat_map]. rewrite <- app_assoc. apply Forall_app. split; [done|].
  by constructor.
Qed.

(** A line whose fields are each closed by the delimiter, at the cursor
    [ptr]. *)
Lemma parse_csv_line_terminated (buf : bytes) (ptr : nat) (rest : bytes) (nl0 : ascii)
    (nl' : bytes) (delim : ascii) (fields acc : list bytes) :
  let NL := nl0 :: nl' in
  let line := delim :: join_fields delim fields in
  drop ptr buf = line ++ NL ++ rest →
  cstr NL = NL →
  delim ≠ NUL → delim ≠ nl0 →
  Forall (Forall (fun x => x ≠ NUL ∧ x ≠ nl0 ∧ x ≠ delim)) fields →
  parse_csv_line buf ptr NL delim acc
  = (0%Z, ptr + length line + length NL, acc ++ fields, []).
Proof.
  intros NL line Hdrop HNL Hd0 Hdnl Hfields.
  assert (Hfound : strstr buf ptr NL = Some (ptr + length line)).
  { apply (strstr_parts _ _ _ _ _ _ Hdrop HNL). unfold line.
    constructor; [done|]. apply join_fields_chars; [done|].
    eapply Forall_impl; [exact Hfields|]. intros f Hf.
    eapply Forall_impl; [exact Hf|]. by intros x (? & ? & ?). }
  unfold parse_csv_line. rewrite Hfound. cbn [default]. unfold id.
  assert (char_at buf ptr = delim) as ->.
  { pose proof (char_at_parts buf ptr [] (join_fields delim fields ++ NL ++ rest) delim) as H.
    cbn [length app] in H. rewrite Nat.add_0_r in H. apply H. by rewrite Hdrop. }
  rewrite Ascii.eqb_refl.
  rewrite bool_decide_eq_true_2 by (by eexists).
  assert (Hlen : strlen NL = length NL) by (unfold strlen; by rewrite HNL).
  rewrite Hlen. f_equal. f_equal.
  replace (ptr + length line) with (ptr + 1 + length (join_fields delim fields))
    by (unfold line; simpl; lia).
  apply (csv_fields_loop_terminated fields _ buf (ptr + 1) (NL ++ rest)).
  - pose proof (drop_parts buf ptr [delim] (join_fields delim fields ++ NL ++ rest)) as H.
    cbn [length] in H. apply H. by rewrite Hdrop.
  - eapply Forall_impl; [exact Hfields|]. intros f Hf.
    eapply Forall_impl; [exact Hf|]. by intros x (? & ? & ?).
  - lia.
Qed.

(** X6. Reading a line back: a line of fields without delimiter, NUL and
    the first byte of the newline marker, closed by the marker, is
    tokenized into exactly these fields, with the cursor behind the
    marker and no diagnostic.  This holds for a line that closes every
    field with the delimiter (as the ZDH and ZDT lines do), whatever the
    fields, and for a line that only separates the fields, when the last
    field is not empty. *)
Theorem parse_csv_line_round_trip (pre rest : bytes) (nl0 : ascii) (nl' : bytes)
    (delim : ascii) (fields acc : list bytes) :
  let NL := nl0 :: nl' in
  cstr NL = NL →
  delim ≠ NUL → delim ≠ nl0 →
  Forall (Forall (fun x => x ≠ NUL ∧ x ≠ nl0 ∧ x ≠ delim)) fields →
  (let line := delim :: join_fields delim fields in
   parse_csv_line (pre ++ line ++ NL ++ rest) (length pre) NL delim acc
   = (0%Z, length pre + length line + length NL, acc ++ fields, []))
  ∧ (fields ≠ [] → last fields ≠ Some [] →
     let line := delimited delim fields in
     parse_csv_line (pre ++ line ++ NL ++ rest) (length pre) NL delim acc
     = (0%Z, length pre + length line + length NL, acc ++ fields, [])).
Proof.
  intros NL HNL Hd0 Hdnl Hfields. split.
  - intros line. apply (parse_csv_line_terminated _ _ rest); try done.
    by rewrite drop_app_length.
  - intros Hne Hlast line. apply (parse_csv_line_parts _ _ rest); try done.
    by rewrite drop_app_length.
Qed.

Lemma parse_csv_line_round_trip_witness :
  parse_csv_line (lit ("|1|7||QS|" ++ crlf ++ "next")) 0 (lit crlf) "|" []
  = (0%Z, 11, [lit "1"; lit "7"; lit ""; lit "QS"], []).
Proof.
  apply (proj1 (parse_csv_line_round_trip [] (lit "next") CR [LF] "|"
                  [lit "1"; lit "7"; lit ""; lit "QS"] [] eq_refl
                  ltac:(done) ltac:(done)
                  ltac:(apply (bool_decide_unpack _); vm_compute; exact I))).
Defined.

(** ** The DAN decoder: field slots *)

Lemma assign_fields_lookup (i : nat) (csv_fields : list bytes) (fields : gmap nat bytes)
    (k : nat) :
  assign_fields i csv_fields fields !! k
  = if decide (i ≤ k < i + length csv_fields) then csv_fields !! (k - i) else fields !! k.
Proof.
  revert i fields. induction csv_fields as [|f rest IH]; intros i fields.
  - cbn [assign_fields length]. by rewrite decide_False by lia.
  - cbn [assign_fields length]. rewrite IH.
    destruct (decide (S i ≤ k < S i + length rest)) as [Hk|Hk].
    + rewrite decide_True by lia. replace (k - i) with (S (k - S i)) by lia. done.
    + destruct (decide (k = i)) as [->|Hne].
      * rewrite decide_True by lia. rewrite Nat.sub_diag. by rewrite lookup_insert_eq.
      * rewrite decide_False by lia. by rewrite lookup_insert_ne.
Qed.

Lemma empty_slots_lookup_from (s n k : nat) :
  (list_to_map ((fun i => (i, [])) <$> seq s n) : gmap nat bytes) !! k
  = if decide (s ≤ k < s + n) then Some [] else None.
Proof.
  revert s. induction n as [|n IH]; intros s.
  - cbn. by rewrite decide_False by lia.
  - cbn [seq fmap list_fmap]. rewrite list_to_map_cons.
    destruct (decide (k = s)) as [->|Hne].
    + rewrite lookup_insert_eq. by rewrite decide_True by lia.
    + rewrite lookup_insert_ne by done. rewrite IH.
      destruct (decide (S s ≤ k < S s + n)).
      * by rewrite decide_True by lia.
      * by rewrite decide_False by lia.
Qed.

Lemma empty_slots_lookup (n k : nat) :
  empty_slots n !! k = if decide (k < n) then Some [] else None.
Proof.
  unfold empty_slots. rewrite empty_slots_lookup_from.
  destruct (decide (k < n)); [by rewrite decide_True by lia|by rewrite decide_False by lia].
Qed.

Lemma empty_slots_size (n : nat) : size (empty_slots n) = n.
Proof.
  unfold empty_slots. rewrite map_size_list_to_map.
  - by rewrite length_fmap, length_seq.
  - rewrite <- list_fmap_compose. cbn. rewrite list_fmap_id. apply NoDup_seq.
Qed.

(** X7. The slots of a DAN line: a line with more fields than the
    dictionary has slots is refused with a diagnostic and the dictionary
    is left as it was; otherwise field [k] lands in slot [k] and the other
    slots keep what they held.  On the dictionaries of the header and the
    trailer, which hold [n] empty slots, a short line leaves the trailing
    slots empty and no slot beyond the [n] is ever created. *)
Theorem parse_dan_fields_slots (buf NL : bytes) (fields : gmap nat bytes) (ptr n : nat) :
  let '(ret, cur, csv_fields, d) := parse_csv_line buf ptr NL "|" [] in
  ((ret < 0)%Z → parse_dan_fields buf NL fields ptr = ((-1)%Z, fields, cur, d))
  ∧ ((0 <= ret)%Z → size fields < length csv_fields →
     parse_dan_fields buf NL fields ptr
     = ((-1)%Z, fields, cur, d ++ [Info "DEBUG: More DAN fields than expected"]))
  ∧ ((0 <= ret)%Z → length csv_fields ≤ size fields →
     ∃ fields',
       parse_dan_fields buf NL fields ptr = (0%Z, fields', cur, d)
       ∧ ∀ k, fields' !! k
              = if decide (k < length csv_fields) then csv_fields !! k else fields !! k)
  ∧ size (empty_slots n) = n
  ∧ ((0 <= ret)%Z → length csv_fields ≤ n →
     ∀ k, (parse_dan_fields buf NL (empty_slots n) ptr).1.1.2 !! k
          = if decide (k < length csv_fields) then csv_fields !! k
            else if decide (k < n) then Some [] else None).
Proof.
  unfold parse_dan_fields.
  destruct (parse_csv_line buf ptr NL "|" []) as [[[ret cur] csv_fields] d].
  split_and!.
  - intros Hret. by destruct (Z.ltb_spec ret 0); [|lia].
  - intros Hret Hsz. destruct (Z.ltb_spec ret 0); [lia|]. by rewrite decide_True.
  - intros Hret Hsz. destruct (Z.ltb_spec ret 0); [lia|]. rewrite decide_False by lia.
    eexists. split; [done|]. intros k. rewrite assign_fields_lookup.
    rewrite Nat.sub_0_r.
    destruct (decide (k < length csv_fields));
      [by rewrite decide_True by lia|by rewrite decide_False by lia].
  - apply empty_slots_size.
  - intros Hret Hsz k. destruct (Z.ltb_spec ret 0); [lia|].
    rewrite empty_slots_size, decide_False by lia. cbn [fst snd].
    rewrite assign_fields_lookup, Nat.sub_0_r, empty_slots_lookup.
    destruct (decide (k < length csv_fields));
      [by rewrite decide_True by lia|by rewrite decide_False by lia].
Qed.

(** ** The DAN decoder: parameters and cursor of the dive loop *)

Lemma parse_csv_line_bound (buf : bytes) (ptr : nat) (NL : bytes) (delim : ascii)
    (fields : list bytes) :
  ptr ≤ length buf → (parse_csv_line buf ptr NL delim fields).1.1.2 ≤ length buf.
Proof.
  intros Hp. unfold parse_csv_line.
  destruct (Ascii.eqb (char_at buf ptr) delim); [|done]. cbn [fst snd].
  destruct (strstr buf ptr NL) as [q|] eqn:E.
  - rewrite bool_decide_eq_true_2 by (by eexists). cbn [default]. unfold id.
    apply strstr_Some in E as (_ & Hq & Hs & _).
    unfold starts_with in Hs. apply isprefix_length in Hs.
    rewrite length_drop in Hs, Hq. unfold strlen. lia.
  - rewrite bool_decide_eq_false_2 by (by intros [? ?]). cbn [default].
    pose proof (length_cstr_le (drop ptr buf)) as H. rewrite length_drop in H. lia.
Qed.

Lemma parse_dan_fields_bound (buf NL : bytes) (fields : gmap nat bytes) (ptr : nat) :
  ptr ≤ length buf → (parse_dan_fields buf NL fields ptr).1.2 ≤ length buf.
Proof.
  intros Hp. unfold parse_dan_fields.
  pose proof (parse_csv_line_bound buf ptr NL "|" [] Hp) as H.
  destruct (parse_csv_line _ _ _ _ _) as [[[ret c] fs] d]. cbn [fst snd] in H.
  destruct (ret <? 0)%Z; [done|]. by destruct (decide _).
Qed.

Lemma starts_with_bound (buf : bytes) (p : nat) (pattern : bytes) :
  starts_with buf p pattern = true → pattern ≠ [] → p + length pattern ≤ length buf.
Proof.
  intros H Hne. unfold starts_with in H. apply isprefix_length in H.
  rewrite length_drop in H. destruct pattern; [done|]. simpl in *. lia.
Qed.

Lemma parse_dan_zdh_inv (buf NL : bytes) (params : xml_params) (ptr : nat) :
  let '(ret, ps, c, d) := parse_dan_zdh buf NL params ptr in
  (ptr + 3 ≤ length buf → c ≤ length buf)
  ∧ ((ret <? 0)%Z = true ∧ ps = params
     ∨ (ret <? 0)%Z = false ∧ ∃ hdr, ps = params ++ hdr ∧ header_keys hdr.*1).
Proof.
  unfold parse_dan_zdh.
  pose proof (parse_dan_fields_bound buf NL (empty_slots 10) (ptr + 3)) as Hb.
  destruct (parse_dan_fields _ _ _ _) as [[[ret fs] c] d]. cbn [fst snd] in Hb.
  destruct (ret <? 0)%Z eqn:E; [split; [done|by left]|].
  split; [done|]. right. split; [done|].
  unfold xml_params_add, header_keys.
  destruct (decide (8 ≤ _)); destruct (decide (14 ≤ _)); try lia;
    rewrite <- ?app_assoc; eexists; (split; [reflexivity|]); cbn; auto.
Qed.

Lemma parse_dan_zdt_inv (buf NL : bytes) (params : xml_params) (ptr : nat) :
  let '(ret, ps, c, d) := parse_dan_zdt buf NL params ptr in
  (ptr + 3 ≤ length buf → c ≤ length buf)
  ∧ ((ret <? 0)%Z = true ∧ ps = params
     ∨ (ret <? 0)%Z = false ∧ ∃ w, ps = params ++ [("waterTemp"%string, w)]).
Proof.
  unfold parse_dan_zdt.
  pose proof (parse_dan_fields_bound buf NL (empty_slots 6) (ptr + 3)) as Hb.
  destruct (parse_dan_fields _ _ _ _) as [[[ret fs] c] d]. cbn [fst snd] in Hb.
  destruct (ret <? 0)%Z eqn:E; [split; [done|by left]|].
  split; [done|]. right. split; [done|]. by eexists.
Qed.

Section DANLoopProperties.
Context {divelog : Type}.
Variable parse_xml_buffer : bytes -> xml_params -> divelog -> Z * divelog.

(** What a completed header step leaves behind. *)
Lemma dan_header_inl (buf NL : bytes) (n : nat) (st st1 : @dan_state divelog) :
  0 < strlen NL →
  dan_header buf NL n st = Returns (inl st1) →
  (∃ hdr, ds_params st1 = xml_params_resize (ds_params st) n ++ hdr ∧ header_keys hdr.*1)
  ∧ ds_log st1 = ds_log st ∧ ds_ret st1 = ds_ret st
  ∧ ds_ptr st + 3 ≤ ds_ptr st1 ∧ ds_ptr st1 ≤ length buf.
Proof.
  intros HNL. unfold dan_header.
  destruct (locate_zdh_spec (S (length buf - ds_ptr st)) buf NL (ds_ptr st) HNL ltac:(lia))
    as [(h & -> & Hh & Hs)| ->]; [|done].
  cbn [mbind outcome_bind].
  pose proof (parse_dan_zdh_inv buf NL (xml_params_resize (ds_params st) n) h) as Hi.
  pose proof (parse_dan_zdh_cursor buf NL (xml_params_resize (ds_params st) n) h) as Hc.
  destruct (parse_dan_zdh _ _ _ _) as [[[ret ps] c] d]. cbn [fst snd] in Hc.
  destruct Hi as [Hb [[-> _]|[-> (hdr & -> & Hk)]]]; [done|].
  intros [= <-]. cbn [ds_params ds_log ds_ret ds_ptr].
  apply starts_with_bound in Hs; [|done]. change (length (lit "ZDH")) with 3 in Hs.
  split_and!; [by exists hdr|done|done|lia|apply Hb; lia].
Qed.

(** What a completed body step leaves behind: the trailer adds the water
    temperature, the engine is run once on a document and these
    parameters. *)
Lemma dan_body_inl (file : option bytes) (buf NL : bytes) (st1 st' : @dan_state divelog) :
  0 < strlen NL →
  ds_ptr st1 ≤ length buf →
  dan_body parse_xml_buffer file buf NL st1 = Returns (inl st') →
  (∃ w, ds_params st' = ds_params st1 ++ [("waterTemp"%string, w)])
  ∧ (∃ doc, parse_xml_buffer doc (ds_params st') (ds_log st1)
            = ((parse_xml_buffer doc (ds_params st') (ds_log st1)).1, ds_log st')
            ∧ ds_ret st' = Z.lor (ds_ret st1) (parse_xml_buffer doc (ds_params st') (ds_log st1)).1)
  ∧ ds_ptr st1 + 3 ≤ ds_ptr st' ∧ ds_ptr st' ≤ length buf.
Proof.
  intros HNL Hle. unfold dan_body.
  assert (Hprof : ∀ ret p2 payload d2,
            dan_profile buf NL (ds_ptr st1) = (ret, Some p2, payload, d2) →
            (ret <? 0)%Z = false → ds_ptr st1 ≤ p2 ≤ length buf).
  { intros ret p2 payload d2. unfold dan_profile.
    destruct (starts_with buf (ds_ptr st1) (lit "ZDP")); [|intros [= <- <- _ _]; lia].
    unfold parse_dan_zdp.
    destruct (negb _); [intros [= <- _ _ _]; done|].
    destruct (Ascii.eqb _ _); [intros [= <- _ _ _]; done|].
    destruct (parse_dan_new_line buf (Some (ds_ptr st1)) NL) as [[q|] dq] eqn:E1; [|done].
    apply parse_dan_new_line_Some in E1 as (Hq1 & Hq2 & _).
    destruct (strstr buf q (lit "ZDP}")) as [e|] eqn:E2; [|intros [= <- _ _ _]; done].
    destruct (parse_dan_new_line buf (Some e) NL) as [[q2|] dq2] eqn:E3; [|done].
    apply parse_dan_new_line_Some in E3 as (Hq3 & Hq4 & _).
    apply strstr_Some in E2 as (He & _).
    intros [= _ <- _ _] _. split; [lia|]. by apply Hq4. }
  destruct (dan_profile buf NL (ds_ptr st1)) as [[[ret p2] payload] d2].
  destruct (ret <? 0)%Z eqn:Eret; [done|].
  destruct p2 as [p2|]; [|done].
  specialize (Hprof ret p2 payload d2 eq_refl Eret).
  destruct (starts_with buf p2 (lit "ZDT")) eqn:Ezdt; [|done].
  pose proof (parse_dan_zdt_inv buf NL (ds_params st1) p2) as Hi.
  pose proof (parse_dan_zdt_cursor buf NL (ds_params st1) p2) as Hc.
  destruct (parse_dan_zdt _ _ _ _) as [[[ret' ps] c] d]. cbn [fst snd] in Hc.
  destruct Hi as [Hb [[-> _]|[-> (w & ->)]]]; [done|].
  destruct (try_to_xslt_open_csv _ _ _) as [[[r doc] dw]| |]; try done.
  cbn [mbind outcome_bind]. destruct (r =? 0)%Z; [|done].
  destruct (parse_xml_buffer doc _ _) as [r' log'] eqn:Ee.
  intros [= <-]. cbn [ds_params ds_log ds_ret ds_ptr].
  apply starts_with_bound in Ezdt; [|done]. change (length (lit "ZDT")) with 3 in Ezdt.
  split_and!; [by exists w| |lia|apply Hb; lia].
  exists doc. by rewrite Ee.
Qed.

Lemma xml_params_resize_prefix (params : xml_params) (n : nat) :
  n ≤ length params → xml_params_resize params n = take n params.
Proof.
  intros Hn. unfold xml_params_resize.
  replace (n - length params) with 0 by lia. by rewrite app_nil_r.
Qed.

(** One dive of the loop, from a state whose parameters still begin with
    the [n] original ones. *)
Lemma dan_dive_inl (file : option bytes) (buf NL : bytes) (n : nat)
    (st st' : @dan_state divelog) :
  0 < strlen NL →
  n ≤ length (ds_params st) →
  dan_dive parse_xml_buffer file buf NL n st = Returns (inl st') →
  (∃ hdr w, ds_params st' = take n (ds_params st) ++ hdr ++ [("waterTemp"%string, w)]
            ∧ header_keys hdr.*1)
  ∧ (∃ doc, parse_xml_buffer doc (ds_params st') (ds_log st)
            = ((parse_xml_buffer doc (ds_params st') (ds_log st)).1, ds_log st')
            ∧ ds_ret st' = Z.lor (ds_ret st) (parse_xml_buffer doc (ds_params st') (ds_log st)).1)
  ∧ ds_ptr st + 6 ≤ ds_ptr st' ∧ ds_ptr st' ≤ length buf.
Proof.
  intros HNL Hn. unfold dan_dive.
  destruct (dan_header buf NL n st) as [[st1|r]| |] eqn:Hh; try done.
  cbn [mbind outcome_bind]. intros Hb.
  apply dan_header_inl in Hh as ((hdr & Hp1 & Hk) & Hl1 & Hr1 & Hc1 & Hb1); [|done].
  apply dan_body_inl in Hb as ((w & Hp2) & (doc & He & Hr2) & Hc2 & Hb2); [|done|done].
  rewrite xml_params_resize_prefix in Hp1 by done.
  split_and!; [| |lia|done].
  - exists hdr, w. split; [|done]. by rewrite Hp2, Hp1, <- app_assoc.
  - exists doc. rewrite <- Hl1, <- Hr1. done.
Qed.

Lemma dan_reaches_inv (file : option bytes) (buf NL : bytes) (n : nat)
    (st st' : @dan_state divelog) :
  0 < strlen NL →
  dan_reaches parse_xml_buffer file buf NL n st st' →
  n ≤ length (ds_params st) → ds_ptr st ≤ length buf →
  n ≤ length (ds_params st') ∧ take n (ds_params st') = take n (ds_params st)
  ∧ ds_ptr st ≤ ds_ptr st' ∧ ds_ptr st' ≤ length buf.
Proof.
  intros HNL. induction 1 as [st|st st1 st2 Hlt Hd _ IH]; intros Hn Hp; [done|].
  apply dan_dive_inl in Hd as ((hdr & w & Hps & _) & _ & Hc & Hb); [|done|done].
  assert (Hl : length (take n (ds_params st)) = n) by (rewrite length_take; lia).
  destruct IH as (IH1 & IH2 & IH3 & IH4); [rewrite Hps, length_app; lia|done|].
  split_and!; [done| |lia|done].
  rewrite IH2, Hps. rewrite take_app_le by lia. rewrite take_ge by lia. done.
Qed.

Lemma detect_NL_bound (mem : bytes) (ptr : nat) (NL : bytes) :
  detect_NL mem = Some (ptr, NL) → ptr < length mem.
Proof.
  unfold detect_NL.
  destruct (strstr mem 0 [CR; LF]) as [q|] eqn:E1.
  - intros [= <- <-]. apply strstr_Some in E1 as (_ & _ & Hs & _).
    apply starts_with_bound in Hs; [|done]. simpl in Hs. lia.
  - destruct (strstr mem 0 [LF]) as [q|] eqn:E2; [|done].
    intros [= <- <-]. apply strstr_Some in E2 as (_ & _ & Hs & _).
    apply starts_with_bound in Hs; [|done]. simpl in Hs. lia.
Qed.

(** X8. The parameter reset of the dive loop: whenever the loop stands
    at its head, the parameter set still begins with the caller's
    parameters; and a dive decoded from there hands the engine exactly the
    caller's parameters followed by the entries of this dive alone (an
    optional date, an optional time, the air temperature, the dive number
    and the water temperature), whatever the dives before had added. *)
Theorem dan_parameters_per_dive (mem : bytes) (params : xml_params) (log : divelog)
    (NL : bytes) (st st' : @dan_state divelog) :
  dan_at parse_xml_buffer mem params log NL st →
  take (length params) (ds_params st) = params
  ∧ (dan_dive parse_xml_buffer (Some mem) mem NL (xml_params_count params) st
     = Returns (inl st') →
     (∃ hdr w, ds_params st' = params ++ hdr ++ [("waterTemp"%string, w)]
               ∧ header_keys hdr.*1)
     ∧ ∃ doc, parse_xml_buffer doc (ds_params st') (ds_log st)
              = ((parse_xml_buffer doc (ds_params st') (ds_log st)).1, ds_log st')).
Proof.
  intros (ptr & Hdet & Hreach).
  pose proof (detect_NL_strlen _ _ _ Hdet) as HNL.
  pose proof (detect_NL_bound _ _ _ Hdet) as Hptr.
  apply dan_reaches_inv in Hreach as (Hn & Ht & _); [|done|done|simpl; lia].
  unfold xml_params_count in *. simpl in Ht. rewrite (take_ge params) in Ht by done.
  split; [done|]. intros Hd.
  apply dan_dive_inl in Hd as ((hdr & w & Hps & Hk) & (doc & He & _) & _); [|done|done].
  rewrite Ht in Hps. split; [by exists hdr, w|by exists doc].
Qed.

(** X9. The cursor of the dive loop: whenever the loop stands at its
    head the cursor lies inside the buffer or at its end, and every
    decoded dive moves it forward by at least six bytes, so the loop ends. *)
Theorem dan_cursor_in_bounds (mem : bytes) (params : xml_params) (log : divelog)
    (NL : bytes) (st st' : @dan_state divelog) :
  dan_at parse_xml_buffer mem params log NL st →
  ds_ptr st ≤ length mem
  ∧ (dan_dive parse_xml_buffer (Some mem) mem NL (xml_params_count params) st
     = Returns (inl st') →
     ds_ptr st + 6 ≤ ds_ptr st' ∧ ds_ptr st' ≤ length mem).
Proof.
  intros (ptr & Hdet & Hreach).
  pose proof (detect_NL_strlen _ _ _ Hdet) as HNL.
  pose proof (detect_NL_bound _ _ _ Hdet) as Hptr.
  apply dan_reaches_inv in Hreach as (Hn & _ & _ & Hb); [|done|done|simpl; lia].
  split; [done|]. intros Hd.
  apply dan_dive_inl in Hd as (_ & _ & Hc); [|done|done]. done.
Qed.
End DANLoopProperties.

Lemma dan_parameters_per_dive_witness :
  ∃ hdr w, ds_params dl7_one_dive_end = [] ++ hdr ++ [("waterTemp"%string, w)]
           ∧ header_keys hdr.*1.
Proof.
  assert (Hat : dan_at recording_engine dl7_one_dive [] [] [CR; LF] (DanState 20 0%Z [] [] []))
    by (exists 20; split; [reflexivity|apply dan_reaches_refl]).
  destruct (dan_parameters_per_dive recording_engine dl7_one_dive [] [] [CR; LF]
              (DanState 20 0%Z [] [] []) dl7_one_dive_end Hat) as (_ & H).
  destruct (H eq_refl) as (Hp & _). exact Hp.
Defined.

Lemma dan_cursor_in_bounds_witness :
  ds_ptr dl7_one_dive_end ≤ length dl7_one_dive.
Proof.
  exact (proj1 (dan_cursor_in_bounds recording_engine dl7_one_dive [] [] [CR; LF]
                  dl7_one_dive_end dl7_one_dive_end dl7_one_dive_at)).
Defined.

(** ** The DAN decoder: files without a dive *)

Lemma strlen_ge (s : bytes) (k : nat) :
  (∀ j, j < k → j < length s ∧ char_at s j ≠ NUL) → k ≤ strlen s.
Proof.
  revert k. induction s as [|c s IH]; intros k H.
  - destruct k; [done|]. destruct (H 0 ltac:(lia)) as [? _]. simpl in *. lia.
  - destruct k as [|k]; [lia|]. unfold strlen. cbn [cstr].
    destruct (H 0 ltac:(lia)) as [_ Hc]. unfold char_at in Hc. simpl in Hc.
    apply Ascii.eqb_neq in Hc. rewrite Hc. cbn [length]. apply le_n_S. apply IH.
    intros j Hj. destruct (H (S j) ltac:(lia)) as [Hl Hn]. split; [simpl in Hl; lia|done].
Qed.

Lemma char_at_lookup (buf : bytes) (j : nat) (c : ascii) :
  j < length buf → char_at buf j = c → buf !! j = Some c.
Proof.
  intros Hj <-. unfold char_at. rewrite nth_lookup.
  destruct (lookup_lt_is_Some_2 buf j Hj) as [x ->]. done.
Qed.

Lemma strchr_Some_count (buf : bytes) (p q : nat) (c : ascii) :
  c ≠ NUL → strchr buf p c = Some q → 0 < count_char c (cstr (drop p buf)).
Proof.
  intros Hc H. apply strchr_split in H as (_ & _ & ->); [|done].
  rewrite count_char_app, count_char_cons_eq. lia.
Qed.

Lemma detect_NL_None (mem : bytes) :
  count_char LF (cstr mem) = 0 → detect_NL mem = None.
Proof.
  intros Hcount.
  assert (Hlf : strstr mem 0 [LF] = None).
  { destruct (strstr mem 0 [LF]) as [q|] eqn:E; [|done].
    apply (strchr_Some_count mem 0 q LF) in E; [|done]. rewrite drop_0 in E. lia. }
  unfold detect_NL. rewrite Hlf.
  destruct (strstr mem 0 [CR; LF]) as [q|] eqn:E; [|done]. exfalso.
  apply strstr_Some in E as (_ & _ & Hs & Hbefore).
  change (cstr [CR; LF]) with [CR; LF] in Hs.
  apply starts_with_two in Hs as (Hq0 & Hq1 & Hql); [|done].
  pose proof (strstr_None mem [LF] 0 Hlf (q + 1)) as Hn.
  rewrite drop_0 in Hn. change (cstr [LF]) with [LF] in Hn.
  rewrite starts_with_single in Hn.
  rewrite (char_at_lookup mem (q + 1) LF) in Hn by done.
  rewrite bool_decide_eq_true_2 in Hn by done.
  assert (q + 1 ≤ strlen mem); [|by specialize (Hn ltac:(lia))].
  apply strlen_ge. intros j Hj.
  destruct (decide (j = q)) as [->|].
  - split; [lia|]. rewrite Hq0. done.
  - destruct (Hbefore j ltac:(lia)) as (_ & ? & ?). done.
Qed.

Section DANNoDive.
Context {divelog : Type}.
Variable parse_xml_buffer : bytes -> xml_params -> divelog -> Z * divelog.

(** X10. A file without a dive is an error, and the engine is not run:
    an unreadable file, a text without any line feed, and a text with no
    "ZDH" at or behind its first newline marker all end with -1, the
    parameters and the log as they were.  The scan for the header starts
    at the first newline marker, so a header on the first line is not
    seen. *)
Theorem dan_file_without_dive (mem : bytes) (params : xml_params) (log : divelog) :
  parse_dan_format parse_xml_buffer None params log
  = Returns ((-1)%Z, params, log, [Error "Failed to read '%s'"])
  ∧ (count_char LF (cstr mem) = 0 →
     parse_dan_format parse_xml_buffer (Some mem) params log
     = Returns ((-1)%Z, params, log, [Info "DEBUG: failed to detect NL"]))
  ∧ (∀ p NL, detect_NL mem = Some (p, NL) →
     (∀ q, p ≤ q → starts_with mem q (lit "ZDH") = false) →
     parse_dan_format parse_xml_buffer (Some mem) params log
     = Returns ((-1)%Z, params, log,
                [Info "DEBUG: No new line found"; Error "Expected ZDH header not found"])).
Proof.
  split_and!; [done| |].
  - intros Hc. unfold parse_dan_format. by rewrite detect_NL_None.
  - intros p NL Hdet Hno. unfold parse_dan_format. rewrite Hdet.
    pose proof (detect_NL_strlen _ _ _ Hdet) as HNL.
    pose proof (detect_NL_bound _ _ _ Hdet) as Hp.
    cbn [dan_loop ds_ptr]. rewrite decide_True by done.
    unfold dan_dive, dan_header. cbn [ds_ptr ds_params ds_log ds_diags].
    destruct (locate_zdh_spec (S (length mem - p)) mem NL p HNL ltac:(lia))
      as [(h & _ & Hh & Hs)| ->].
    + rewrite Hno in Hs by done. done.
    + cbn [mbind outcome_bind]. unfold xml_params_resize, xml_params_count.
      rewrite take_ge by done. rewrite Nat.sub_diag. cbn [replicate].
      by rewrite app_nil_r.
Qed.
End DANNoDive.

(** ** The MkVI sample loop: what every decoded stream looks like *)

Lemma clamp_times_lt (prev : Z) (raws : list Z) :
  (prev < mkvi_time_limit)%Z → Forall (fun t => (t < mkvi_time_limit)%Z) (clamp_times prev raws).
Proof.
  revert prev. induction raws as [|raw raws IH]; intros prev Hp; [constructor|].
  cbn [clamp_times]. destruct (Z.ltb_spec raw mkvi_time_limit).
  - constructor; [done|]. by apply IH.
  - constructor; [done|]. by apply IH.
Qed.

Section MkVIStreamProperties.
Variable float_conv : csv_format -> Z -> Z.
Variable battery_event_defined : bool.
Variable indet : nat -> Z.

Lemma trace_ok_depth (b : list (Z * Z)) (t : Z) (tr : list (Z * group_vars)) :
  trace_ok (mkvi_conv float_conv) b t tr →
  Forall (fun e => is_Some (depth_mm (g_sample e.2))) tr.
Proof.
  revert b t. induction tr as [|e tr IH]; intros b t; [constructor|].
  cbn [trace_ok]. intros [(_ & Hd & _) Hrest]. constructor; [by rewrite Hd|by eapply IH].
Qed.

Lemma mkvi_group_trace (buf : bytes) (st st' : mkvi_state) (more : bool) :
  mkvi_group float_conv battery_event_defined indet buf st = Returns (st', more) →
  ∃ e, ms_trace st' = ms_trace st ++ [e].
Proof.
  unfold mkvi_group. destruct (sscanf_d3 _ _) as [i vs].
  destruct (mkvi_group_loop _ _ _ _ _ _ _ _) as [[[lp cur] g]| |]; try done.
  cbn [mbind outcome_bind]. intros [= <- _]. by eexists.
Qed.

Lemma mkvi_loop_trace (fuel : nat) (buf : bytes) (st st' : mkvi_state) :
  mkvi_loop float_conv battery_event_defined indet fuel buf st = Returns st' →
  ∃ e tr, ms_trace st' = ms_trace st ++ e :: tr.
Proof.
  revert st. induction fuel as [|fuel IH]; intros st; [done|].
  cbn [mkvi_loop].
  destruct (mkvi_group _ _ _ buf st) as [[st1 more]| |] eqn:Hg; try done.
  cbn [mbind outcome_bind]. apply mkvi_group_trace in Hg as (e & He).
  destruct more.
  - intros H. apply IH in H as (e' & tr & ->). rewrite He, <- app_assoc. by eexists _, _.
  - intros [= <-]. rewrite He. by eexists _, _.
Qed.

(** X11. The shape of a decoded stream: whatever the CSV holds, the
    sample loop returns with at least one sample; every sample has a
    depth, and no sample time reaches the threshold of the workaround.
    An empty CSV gives one sample at time 0 and depth 0 and no event. *)
Theorem mkvi_stream_shape (memcsv : bytes) :
  ∃ st,
    parse_txt_file_samples float_conv battery_event_defined indet memcsv = Returns st
    ∧ (∃ s rest, ms_samples st = s :: rest)
    ∧ Forall (fun s => is_Some (depth_mm s) ∧ (time_seconds s < mkvi_time_limit)%Z)
        (ms_samples st)
    ∧ (memcsv = [] →
       ms_samples st = [Sample 0 (Some 0%Z) None None None None None None None None]
       ∧ ms_events st = []).
Proof.
  destruct (parse_txt_file_samples_spec float_conv battery_event_defined indet memcsv)
    as (st & Hrun & Hinv).
  exists st. split; [done|].
  pose proof Hinv as (Hs & _ & _ & _ & _ & _ & Hok).
  split_and!.
  - unfold parse_txt_file_samples in Hrun. apply mkvi_loop_trace in Hrun as (e & tr & Ht).
    rewrite Hs, Ht. cbn [app map]. by eexists _, _.
  - rewrite Hs. apply Forall_fmap. apply Forall_and. split.
    + by apply trace_ok_depth in Hok.
    + pose proof (trace_ok_times float_conv _ _ _ Hok) as Ht.
      pose proof (clamp_times_lt 0 (map fst (ms_trace st)) ltac:(done)) as Hlt.
      rewrite <- Ht in Hlt. by apply Forall_fmap in Hlt.
  - intros ->. by injection Hrun as <-.
Qed.

End MkVIStreamProperties.

Example dan_header_on_first_line :
  parse_dan_format recording_engine (Some dl7_header_on_first_line) [] []
  = Returns ((-1)%Z, [], [],
             [Info "DEBUG: No new line found"; Error "Expected ZDH header not found"]).
Proof. vm_compute. reflexivity. Qed.

(** ** The Seabear decoder: the header date and the empty body *)

Lemma xml_params_set_value_keys (params : xml_params) (idx : nat) (value : bytes) :
  (xml_params_set_value params idx value).*1 = params.*1
  ∧ length (xml_params_set_value params idx value) = length params
  ∧ ∀ n, n ≤ idx → take n (xml_params_set_value params idx value) = take n params.
Proof.
  unfold xml_params_set_value. destruct (params !! idx) as [[key old]|] eqn:E; [|done].
  split_and!.
  - rewrite list_fmap_insert. cbn [fst]. apply list_insert_id.
    by rewrite list_lookup_fmap, E.
  - apply length_insert.
  - intros n Hn. by apply take_insert_ge.
Qed.

(** X13. The header date of a Seabear file changes nothing but the values
    of the last two parameters: the names, the order and every earlier
    entry stay as they were. *)
Theorem seabear_header_date_keys (mem NL : bytes) (params params' : xml_params) :
  2 ≤ length params →
  seabear_header_date mem NL params = Returns params' →
  params'.*1 = params.*1
  ∧ take (length params - 2) params' = take (length params - 2) params.
Proof.
  intros Hlen. unfold seabear_header_date.
  destruct (strstr mem 0 (lit "Serial number:")) as [p|]; [|by intros [= <-]].
  destruct (strstr mem p NL) as [q|]; [|by intros [= <-]].
  destruct (decide _); [|done]. intros [= <-]. unfold xml_params_count.
  set (v1 := cstr _). set (p1 := xml_params_set_value params (length params - 2) v1).
  destruct (xml_params_set_value_keys params (length params - 2) v1) as (K1 & L1 & T1).
  fold p1 in K1, L1, T1.
  match goal with |- context [xml_params_set_value p1 ?i ?v] =>
    destruct (xml_params_set_value_keys p1 i v) as (K2 & L2 & T2) end.
  split.
  - by rewrite K2, K1.
  - rewrite T2 by lia. by apply T1.
Qed.

Lemma seabear_header_date_keys_witness :
  [("date"%string, lit "20200102"); ("time"%string, lit "11030")].*1
  = [("date"%string, lit "20261103"); ("time"%string, lit "10830")].*1.
Proof.
  exact (proj1 (seabear_header_date_keys seabear_file [LF]
                  [("date"%string, lit "20261103"); ("time"%string, lit "10830")]
                  [("date"%string, lit "20200102"); ("time"%string, lit "11030")]
                  ltac:(simpl; lia) eq_refl)).
Defined.

Section SeabearEmptyBody.
Context {divelog : Type}.
Variable parse_xml_buffer : bytes -> xml_params -> divelog -> Z * divelog.
Variable readfile : string -> option bytes.
Variables now_date now_time : bytes.
Variable verbose : Z.
Variable mobile : bool.

(** X14. A Seabear file whose last separator ends the file has an empty
    body; the wrapper then reads the file again, so the engine is handed
    the whole file, header included, between the tags. *)
Theorem seabear_empty_body_rereads_file (filename : string) (mem : bytes)
    (params : xml_params) (csvtemplate : bytes) (log : divelog)
    (ptr_old : nat) (NL : bytes) (params1 : xml_params) :
  readfile filename = Some mem →
  seabear_split mem = Returns (Some (ptr_old, NL)) →
  seabear_header_date mem NL
    (xml_params_add (xml_params_add params "date" now_date) "time" now_time)
  = Returns params1 →
  drop ptr_old mem = [] →
  parse_seabear_csv_file parse_xml_buffer readfile now_date now_time verbose
    (Some filename) params csvtemplate log
  = let '(ret, log') := parse_xml_buffer (wrapped mem csvtemplate) params1 log in
    Returns (ret, params1, log', if (2 <=? verbose)%Z then [Info "%s"] else []).
Proof.
  intros Hfile Hsplit Hdate Hbody.
  unfold parse_seabear_csv_file. rewrite Hfile, Hsplit. cbn [mbind outcome_bind].
  rewrite Hdate. cbn [mbind outcome_bind].
  rewrite try_to_xslt_open_csv_spec, Hbody. cbn [wrapper_input].
  destruct mem as [|c mem]; [done|].
  cbn [mbind outcome_bind]. change (0 =? 0)%Z with true.
  cbn [negb app]. destruct (parse_xml_buffer _ _ _).
  by destruct (2 <=? verbose)%Z.
Qed.

End SeabearEmptyBody.

Lemma seabear_empty_body_rereads_file_witness :
  parse_seabear_csv_file recording_engine (fun _ => Some seabear_empty_body)
    (lit "20261103") (lit "10830") 0 (Some "dive.csv"%string) [] (lit "csv") []
  = Returns (0%Z, [("date"%string, lit "20261103"); ("time"%string, lit "10830")],
             [(lit "<csv>" ++ seabear_empty_body ++ lit "</csv>",
               [("date"%string, lit "20261103"); ("time"%string, lit "10830")])], []).
Proof.
  exact (seabear_empty_body_rereads_file recording_engine (fun _ => Some seabear_empty_body)
           (lit "20261103") (lit "10830") 0 "dive.csv" seabear_empty_body [] (lit "csv") []
           9 [LF] _ eq_refl eq_refl eq_refl eq_refl).
Defined.

(** ** The MkVI text file: [parse_txt_file] *)

Lemma starts_with_head (buf : bytes) (c : ascii) (pattern : bytes) :
  starts_with buf 0 (c :: pattern) = true → char_at buf 0 = c.
Proof.
  unfold starts_with. rewrite drop_0. destruct buf as [|x buf]; [done|].
  cbn [isprefix]. intros H. apply andb_true_iff in H as [H _].
  apply Ascii.eqb_eq in H. by subst.
Qed.

Lemma strstr_LF_pos (buf : bytes) (p e : nat) :
  char_at buf 0 ≠ LF → strstr buf p [LF] = Some e → 0 < e.
Proof.
  intros H0 He. apply strstr_Some in He as (_ & _ & Hs & _).
  change (cstr [LF]) with [LF] in Hs. destruct e; [|lia].
  apply starts_with_head in Hs. done.
Qed.



Section MkVIFileProperties.
Variable float_conv : csv_format -> Z -> Z.
Variable battery_event_defined : bool.
Variable indet : nat -> Z.
Variable utc_mktime : tm_int -> Z.



(** X17. A text file whose "Dive started at" line holds no ": " while a
    later line does makes [parse_txt_file] leave through the length
    error, whatever the CSV file holds. *)
Theorem parse_txt_file_throws (memtxt : bytes) (csv : option bytes) (log : list mkvi_dive)
    (p q e : nat) :
  starts_with memtxt 0 (lit "MkVI_Config") = true →
  strstr memtxt 0 (lit "Dive started at") = Some p →
  strstr memtxt p (lit ": ") = Some q →
  strstr memtxt p [LF] = Some e →
  e < q →
  parse_txt_file float_conv battery_event_defined indet utc_mktime (Some memtxt) csv log
  = LengthError.
Proof.
  intros Hmagic Hp Hq He Hlt. unfold parse_txt_file.
  destruct (decide (length memtxt + 1 < length (lit "MkVI_Config"))) as [Hshort|_].
  { pose proof Hmagic as Hpre. unfold starts_with in Hpre.
    apply isprefix_length in Hpre. rewrite length_drop in Hpre. lia. }
  rewrite Hmagic.
  assert (H0 : char_at memtxt 0 ≠ LF).
  { apply starts_with_head in Hmagic. by rewrite Hmagic. }
  pose proof (strstr_LF_pos memtxt p e H0 He) as Hpos.
  by rewrite (parse_mkvi_value_negative memtxt 0 p q e (lit "Dive started at") Hp Hq He Hlt Hpos).
Qed.
End MkVIFileProperties.

Lemma parse_txt_file_throws_witness :
  parse_txt_file (fun _ v => v) false (fun _ => 0%Z) utc_seconds_int
    (Some mkvi_txt_no_colon) None []
  = LengthError.
Proof.
  apply (parse_txt_file_throws (fun _ v => v) false (fun _ => 0%Z) utc_seconds_int
           mkvi_txt_no_colon None [] 12 31 27); [reflexivity|reflexivity|reflexivity|reflexivity|lia].
Defined.

(** A text shorter than the magic: the comparison reads past it. *)
Example mkvi_txt_short :
  parse_txt_file (fun _ v => v) false (fun _ => 0%Z) utc_seconds_int
    (Some (lit "MkVI")) (Some mkvi_stream) [] = UB.
Proof. reflexivity. Qed.

Example mkvi_txt_decoded :
  match parse_txt_file (fun _ v => v) false (fun _ => 0%Z) utc_seconds_int
          (Some mkvi_txt) (Some mkvi_stream) [] with
  | Ok (ret, [dive], _) =>
      ret = 1%Z ∧ md_when dive = 1345119270%Z ∧ md_deviceid dive = 4711%Z
      ∧ gasmix_o2_permille <$> md_cylinders dive = [1000; 210]%Z
      ∧ gasmix_he_permille <$> md_cylinders dive = [0; 100]%Z
      ∧ md_extra_data dive = [(lit "Helium percentage", lit "10");
                              (lit "Nitrogen percentage", lit "69")]
      ∧ length (md_samples dive) = 3
  | _ => False
  end.
Proof. vm_compute. repeat split. Qed.

(** X18. The header walk pairs the line of its cursor with the key of the
    line behind it: from a cursor in a line [l0], one round records the
    entry of the line after next and leaves the cursor at the head of the
    next line [l1], whose own entry is never recorded by this round.
    From "Dive started at" on, the line that follows it is therefore left
    out of the extra data. *)
Theorem extra_data_skips_next_line (buf : bytes) (lineptr fuel : nat)
    (l0 l1 k v cr rest : bytes) (extra : list (bytes * bytes)) :
  drop lineptr buf = l0 ++ LF :: l1 ++ LF :: k ++ lit ": " ++ v ++ cr ++ LF :: rest →
  l0 ≠ [] → k ≠ [] → v ≠ [] →
  Forall (fun x => x ≠ NUL ∧ x ≠ LF) l0 →
  Forall (fun x => x ≠ NUL ∧ x ≠ LF) l1 →
  Forall (fun x => x ≠ NUL ∧ (x ≠ ":" ∧ x ≠ LF)) k →
  Forall (fun x => x ≠ NUL ∧ x ≠ LF) v →
  (cr = [] ∧ last v ≠ Some CR) ∨ cr = [CR] →
  strstr buf (lineptr + length l0 + 1) k = Some (lineptr + length l0 + 1 + length l1 + 1) →
  extra_data_loop (S fuel) buf lineptr extra
  = extra_data_loop fuel buf (lineptr + length l0 + 1) (extra ++ [(k, v)]).
Proof.
  intros Hd Hl0 Hk Hv Fl0 Fl1 Fk Fv Hcr Hfirst.
  cbn [extra_data_loop].
  assert (char_at buf lineptr ≠ NUL) as Hc.
  { destruct l0 as [|c l0]; [done|]. apply Forall_cons in Fl0 as [[Hc _] _].
    pose proof (char_at_parts buf lineptr [] _ c Hd) as H. cbn [length] in H.
    rewrite Nat.add_0_r in H. by rewrite H. }
  apply Ascii.eqb_neq in Hc. rewrite Hc.
  unfold strchr.
  rewrite (strstr_parts buf lineptr l0 (l1 ++ LF :: k ++ lit ": " ++ v ++ cr ++ LF :: rest)
             LF []); [|done|done|done].
  assert (Hd1 : drop (lineptr + length l0 + 1) buf
                = l1 ++ LF :: k ++ lit ": " ++ v ++ cr ++ LF :: rest).
  { replace (lineptr + length l0 + 1) with (lineptr + length (l0 ++ [LF]))
      by (rewrite length_app; simpl; lia).
    apply drop_parts. rewrite Hd. by rewrite <- app_assoc. }
  rewrite (next_mkvi_key_parts buf _ l1 k (v ++ cr ++ LF :: rest) Hd1 Fl1).
  2:{ eapply Forall_impl; [exact Fk|]. by intros x (? & ? & ?). }
  assert (Hck : cstr k = k).
  { rewrite <- (app_nil_r k) at 1. rewrite cstr_app_nonul; [by rewrite app_nil_r|].
    eapply Forall_impl; [exact Fk|]. by intros x [? _]. }
  assert (Hd2 : drop (lineptr + length l0 + 1 + length l1 + 1) buf
                = cstr k ++ [] ++ lit ": " ++ v ++ cr ++ LF :: rest).
  { replace (lineptr + length l0 + 1 + length l1 + 1)
      with (lineptr + length l0 + 1 + length (l1 ++ [LF]))
      by (rewrite length_app; simpl; lia).
    apply drop_parts. rewrite Hd1, Hck. by rewrite <- app_assoc. }
  rewrite (parse_mkvi_value_parts buf _ _ k [] v cr rest Hfirst Hd2);
    [|by rewrite app_nil_r, Hck|done|done].
  destruct k; [done|]. cbn [mbind result_bind]. by destruct v.
Qed.

Lemma extra_data_skips_next_line_witness :
  extra_data_loop 6 mkvi_txt 12 []
  = extra_data_loop 5 mkvi_txt 50 ([] ++ [(lit "Helium percentage", lit "10")]).
Proof.
  apply (extra_data_skips_next_line mkvi_txt 12 5
           (lit "Dive started at: 2012-08-16 12:14:30" ++ [CR])
           (lit "Rig Serial number: 4711" ++ [CR])
           (lit "Helium percentage") (lit "10") [CR]
           (lit ("Nitrogen percentage: 69" ++ crlf)) []);
    try done; try forall_chars; by right.
Defined.

(** ** The file entry points *)

Section FileEntryPointProperties.
Context {divelog : Type}.
Variable parse_xml_buffer : bytes -> xml_params -> divelog -> Z * divelog.
Variable readfile : string -> option bytes.
Variables now_date now_time : bytes.
Variable verbose : Z.
Variable mobile : bool.

Lemma wrap_and_transform_spec (filename : string) (params : xml_params) (tag : bytes)
    (log : divelog) :
  wrap_and_transform parse_xml_buffer readfile verbose mobile filename params tag log
  = match readfile filename with
    | None => Returns ((-1)%Z, params, log, [Error "Failed to read '%s'"])
    | Some mem =>
        let '(ret, log') := parse_xml_buffer (file_document mem tag) params log in
        Returns (ret, params, log',
                 if negb mobile && (2 <=? verbose)%Z then [Info "%s"] else [])
    end.
Proof.
  unfold wrap_and_transform. rewrite try_to_xslt_open_csv_spec. cbn [wrapper_input].
  destruct (readfile filename) as [[|c mem]|]; [| |done].
  - cbn [mbind outcome_bind file_document]. change (0 =? 0)%Z with true. cbn [negb app].
    destruct (parse_xml_buffer _ _ _). by destruct (negb mobile && _).
  - cbn [mbind outcome_bind file_document]. change (0 =? 0)%Z with true. cbn [negb app].
    destruct (parse_xml_buffer _ _ _). by destruct (negb mobile && _).
Qed.

(** X19. [parse_manual_file] appends the date and the time of the call to
    the parameters before anything else, so also when it fails.  Without
    a file name and with an unreadable file it returns -1 and leaves the
    log alone; otherwise the engine gets the content of the file between
    "manualCSV" tags, every "&" escaped, with the extended parameters; for
    an empty file it gets an empty document. *)
Theorem parse_manual_file_paths (filename : string) (params : xml_params) (log : divelog) :
  let params' := params ++ [("date"%string, now_date); ("time"%string, now_time)] in
  let run := parse_manual_file parse_xml_buffer readfile now_date now_time verbose mobile in
  run None params log = Returns ((-1)%Z, params', log, [Error "No manual CSV filename"])
  ∧ run (Some filename) params log
    = match readfile filename with
      | None => Returns ((-1)%Z, params', log, [Error "Failed to read '%s'"])
      | Some mem =>
          let '(ret, log') :=
            parse_xml_buffer (file_document mem (lit "manualCSV")) params' log in
          Returns (ret, params', log',
                   if negb mobile && (2 <=? verbose)%Z then [Info "%s"] else [])
      end.
Proof.
  intros params' run. unfold run, parse_manual_file, xml_params_add.
  rewrite <- app_assoc. split; [done|]. apply wrap_and_transform_spec.
Qed.

(** X20. [parse_csv_file] hands a file with the template "DL7" to the DAN
    decoder, parameters untouched.  For another template it looks at the
    name of the first parameter: with an empty parameter set that read is
    outside the set; when the name is "date" the parameters stay as they
    are, otherwise the date and the time of the call are appended.  Then
    the engine gets the content of the file between tags named after the
    template, or an empty document for an empty file; an unreadable file
    gives -1 and leaves the log alone. *)
Theorem parse_csv_file_paths (filename : string) (params : xml_params) (csvtemplate : bytes)
    (log : divelog) :
  let run :=
    parse_csv_file parse_xml_buffer readfile now_date now_time verbose mobile in
  run None params csvtemplate log = Returns ((-1)%Z, params, log, [Error "No CSV filename"])
  ∧ (cstr csvtemplate = lit "DL7" →
     run (Some filename) params csvtemplate log
     = parse_dan_format parse_xml_buffer (readfile filename) params log)
  ∧ (cstr csvtemplate ≠ lit "DL7" →
     run (Some filename) [] csvtemplate log = Undefined
     ∧ ∀ key value rest,
         params = (key, value) :: rest →
         let params' :=
           if String.eqb key "date" then params
           else params ++ [("date"%string, now_date); ("time"%string, now_time)] in
         run (Some filename) params csvtemplate log
         = match readfile filename with
           | None => Returns ((-1)%Z, params', log, [Error "Failed to read '%s'"])
           | Some mem =>
               let '(ret, log') :=
                 parse_xml_buffer (file_document mem csvtemplate) params' log in
               Returns (ret, params', log',
                        if negb mobile && (2 <=? verbose)%Z then [Info "%s"] else [])
           end).
Proof.
  intros run. unfold run, parse_csv_file. split_and!; [done| |].
  - intros H. by rewrite bool_decide_eq_true_2.
  - intros H. rewrite bool_decide_eq_false_2 by done. split; [done|].
    intros key value rest ->. cbv zeta.
    cbn [xml_params_get_key lookup list_lookup fmap option_fmap option_map fst].
    rewrite wrap_and_transform_spec. unfold xml_params_add.
    destruct (String.eqb key "date"); cbn [negb]; [done|]. by rewrite <- app_assoc.
Qed.
End FileEntryPointProperties.

(** ** The DAN decoder: the document of a dive and the diagnostics *)

Lemma parse_csv_line_diags (buf : bytes) (ptr : nat) (NL : bytes) (delim : ascii)
    (fields : list bytes) :
  let '(ret, _, _, d) := parse_csv_line buf ptr NL delim fields in
  (ret <? 0)%Z = false → d = [].
Proof. unfold parse_csv_line. by destruct (Ascii.eqb _ _). Qed.

Lemma parse_dan_fields_diags (buf NL : bytes) (fields : gmap nat bytes) (ptr : nat) :
  let '(ret, _, _, d) := parse_dan_fields buf NL fields ptr in
  (ret <? 0)%Z = false → d = [].
Proof.
  unfold parse_dan_fields. pose proof (parse_csv_line_diags buf ptr NL "|" []) as H.
  destruct (parse_csv_line _ _ _ _ _) as [[[ret c] fs] d].
  destruct (ret <? 0)%Z; [done|]. by destruct (decide _); [|auto].
Qed.

Lemma parse_dan_zdh_diags (buf NL : bytes) (params : xml_params) (ptr : nat) :
  let '(ret, _, _, d) := parse_dan_zdh buf NL params ptr in
  (ret <? 0)%Z = false → d = [].
Proof.
  unfold parse_dan_zdh.
  pose proof (parse_dan_fields_diags buf NL (empty_slots 10) (ptr + 3)) as H.
  destruct (parse_dan_fields _ _ _ _) as [[[ret fs] c] d].
  destruct (ret <? 0)%Z; [done|]. auto.
Qed.

Lemma parse_dan_zdt_diags (buf NL : bytes) (params : xml_params) (ptr : nat) :
  let '(ret, _, _, d) := parse_dan_zdt buf NL params ptr in
  (ret <? 0)%Z = false → d = [].
Proof.
  unfold parse_dan_zdt.
  pose proof (parse_dan_fields_diags buf NL (empty_slots 6) (ptr + 3)) as H.
  destruct (parse_dan_fields _ _ _ _) as [[[ret fs] c] d].
  destruct (ret <? 0)%Z; [done|]. auto.
Qed.

(** What a profile block that was accepted looks like. *)
Lemma dan_profile_accepted (buf NL : bytes) (ptr : nat) (ret : Z) (p2 : nat)
    (payload : bytes) (d2 : list diag) :
  dan_profile buf NL ptr = (ret, Some p2, payload, d2) →
  (ret <? 0)%Z = false →
  d2 = []
  ∧ (starts_with buf ptr (lit "ZDP") = false → payload = [] ∧ p2 = ptr)
  ∧ (starts_with buf ptr (lit "ZDP") = true →
     ∃ a e, parse_dan_new_line buf (Some ptr) NL = (Some a, [])
            ∧ strstr buf a (lit "ZDP}") = Some e
            ∧ payload = substr buf a (e - a)
            ∧ parse_dan_new_line buf (Some e) NL = (Some p2, [])).
Proof.
  unfold dan_profile. destruct (starts_with buf ptr (lit "ZDP")).
  - unfold parse_dan_zdp.
    destruct (negb _); [by intros [= <- _ _ _]|].
    destruct (Ascii.eqb _ _); [by intros [= <- _ _ _]|].
    destruct (parse_dan_new_line buf (Some ptr) NL) as [[a|] da] eqn:E1; [|done].
    pose proof (parse_dan_new_line_Some _ _ _ _ _ E1) as (_ & _ & ->).
    destruct (strstr buf a (lit "ZDP}")) as [e|] eqn:E2; [|by intros [= <- _ _ _]].
    destruct (parse_dan_new_line buf (Some e) NL) as [[q|] dq] eqn:E3; [|done].
    pose proof (parse_dan_new_line_Some _ _ _ _ _ E3) as (_ & _ & ->).
    intros [= _ <- <- <-] _. split_and!; [done|done|]. intros _. by exists a, e.
  - intros [= _ <- <- <-] _. split_and!; [done|done|done].
Qed.

Section DANDocument.
Context {divelog : Type}.
Variable parse_xml_buffer : bytes -> xml_params -> divelog -> Z * divelog.

(** One completed body step over a non-empty file, in full. *)
Lemma dan_body_document (mem NL : bytes) (st1 st' : @dan_state divelog) :
  mem ≠ [] →
  dan_body parse_xml_buffer (Some mem) mem NL st1 = Returns (inl st') →
  ∃ ret p2 payload,
    dan_profile mem NL (ds_ptr st1) = (ret, Some p2, payload, [])
    ∧ (ret <? 0)%Z = false
    ∧ ds_diags st' = ds_diags st1
    ∧ let doc := wrapped (match payload with [] => mem | _ => payload end) (lit "csv") in
      parse_xml_buffer doc (ds_params st') (ds_log st1)
      = ((parse_xml_buffer doc (ds_params st') (ds_log st1)).1, ds_log st')
      ∧ ds_ret st' = Z.lor (ds_ret st1) (parse_xml_buffer doc (ds_params st') (ds_log st1)).1.
Proof.
  intros Hmem. unfold dan_body.
  pose proof (dan_profile_accepted mem NL (ds_ptr st1)) as Hacc.
  destruct (dan_profile mem NL (ds_ptr st1)) as [[[ret p2] payload] d2].
  destruct (ret <? 0)%Z eqn:Eret; [done|].
  destruct p2 as [p2|]; [|done].
  destruct (Hacc ret p2 payload d2 eq_refl Eret) as (-> & _).
  destruct (starts_with mem p2 (lit "ZDT")); [|done].
  pose proof (parse_dan_zdt_diags mem NL (ds_params st1) p2) as Hd.
  destruct (parse_dan_zdt _ _ _ _) as [[[ret' ps] c] d].
  destruct (ret' <? 0)%Z; [done|]. rewrite Hd by done.
  rewrite try_to_xslt_open_csv_spec.
  assert (wrapper_input (Some mem) payload
          = Some (match payload with [] => mem | _ => payload end)) as ->
    by (by destruct payload).
  set (src := match payload with [] => mem | _ => payload end).
  assert (Hsrc : src ≠ []) by (unfold src; by destruct payload).
  destruct src as [|c0 src'] eqn:Esrc; [done|].
  cbn [mbind outcome_bind]. change (0 =? 0)%Z with true. cbv iota.
  destruct (parse_xml_buffer _ ps (ds_log st1)) as [r log'] eqn:Ee.
  intros [= <-]. cbn [ds_diags ds_params ds_log ds_ret].
  exists ret, p2, payload. rewrite !app_nil_r.
  split_and!; try done; fold src; rewrite Esrc, Ee; done.
Qed.

(** X21. The document of a dive: whenever a dive of a non-empty file is
    decoded, the engine is run on a document between "csv" tags.  With a
    ZDP block the document holds the bytes between the line of "ZDP{" and
    the next "ZDP}", every "&" escaped; without a ZDP block the payload is
    empty, the wrapper reads the file again, and the document holds the
    whole file. *)
Theorem dan_engine_document (mem NL : bytes) (st1 st' : @dan_state divelog) :
  mem ≠ [] →
  dan_body parse_xml_buffer (Some mem) mem NL st1 = Returns (inl st') →
  ∃ payload,
    (starts_with mem (ds_ptr st1) (lit "ZDP") = false → payload = [])
    ∧ (starts_with mem (ds_ptr st1) (lit "ZDP") = true →
       ∃ a e, parse_dan_new_line mem (Some (ds_ptr st1)) NL = (Some a, [])
              ∧ strstr mem a (lit "ZDP}") = Some e
              ∧ payload = substr mem a (e - a))
    ∧ let doc := wrapped (match payload with [] => mem | _ => payload end) (lit "csv") in
      parse_xml_buffer doc (ds_params st') (ds_log st1)
      = ((parse_xml_buffer doc (ds_params st') (ds_log st1)).1, ds_log st').
Proof.
  intros Hmem Hb.
  destruct (dan_body_document mem NL st1 st' Hmem Hb)
    as (ret & p2 & payload & Hp & Hret & _ & He & _).
  destruct (dan_profile_accepted _ _ _ _ _ _ _ Hp Hret) as (_ & H1 & H2).
  exists payload. split_and!; [by intros H; apply H1 in H as [? _]| |done].
  intros H. destruct (H2 H) as (a & e & ? & ? & ? & _). by exists a, e.
Qed.

Lemma dan_dive_diags (mem NL : bytes) (n : nat) (st st' : @dan_state divelog) :
  mem ≠ [] → 0 < strlen NL →
  dan_dive parse_xml_buffer (Some mem) mem NL n st = Returns (inl st') →
  ds_diags st' = ds_diags st.
Proof.
  intros Hmem HNL. unfold dan_dive.
  destruct (dan_header mem NL n st) as [[st1|r]| |] eqn:Hh; try done.
  cbn [mbind outcome_bind]. intros Hb.
  destruct (dan_body_document mem NL st1 st' Hmem Hb) as (_ & _ & _ & _ & _ & -> & _).
  revert Hh. unfold dan_header.
  destruct (locate_zdh_spec (S (length mem - ds_ptr st)) mem NL (ds_ptr st) HNL ltac:(lia))
    as [(h & -> & _)| ->]; [|done].
  cbn [mbind outcome_bind].
  pose proof (parse_dan_zdh_diags mem NL (xml_params_resize (ds_params st) n) h) as Hd.
  destruct (parse_dan_zdh _ _ _ _) as [[[ret ps] c] d].
  destruct (ret <? 0)%Z; [done|]. intros [= <-]. cbn [ds_diags].
  rewrite Hd by done. by rewrite !app_nil_r.
Qed.

(** X22. Decoded dives are silent: whenever the dive loop stands at its
    head, no diagnostic has been reported; so a file that is decoded to
    its end reports none, and every diagnostic of the decoder belongs to
    the step that made it stop. *)
Theorem dan_quiet_success (mem : bytes) (params : xml_params) (log : divelog)
    (NL : bytes) (st : @dan_state divelog) :
  dan_at parse_xml_buffer mem params log NL st →
  ds_diags st = []
  ∧ (length mem ≤ ds_ptr st →
     parse_dan_format parse_xml_buffer (Some mem) params log
     = Returns (ds_ret st, ds_params st, ds_log st, [])).
Proof.
  intros Hat. pose proof Hat as (ptr & Hdet & Hreach).
  pose proof (detect_NL_strlen _ _ _ Hdet) as HNL.
  assert (Hmem : mem ≠ []).
  { apply detect_NL_bound in Hdet. destruct mem; [simpl in Hdet; lia|done]. }
  assert (Hd : ds_diags st = []).
  { clear Hat. remember (DanState ptr 0%Z params log []) as st0 eqn:E0.
    assert (H0 : ds_diags st0 = []) by (by subst).
    clear E0. induction Hreach as [st|st st1 st2 _ Hdive _ IH]; [done|].
    apply IH. by rewrite (dan_dive_diags _ _ _ _ _ Hmem HNL Hdive). }
  split; [done|]. intros Hend.
  destruct (parse_dan_format_at _ _ _ _ _ _ Hat) as (_ & ->).
  cbn [dan_loop]. rewrite decide_False by lia. by rewrite Hd.
Qed.
End DANDocument.

Lemma dan_engine_document_witness :
  ∃ payload,
    (∃ a e, parse_dan_new_line dl7_one_dive (Some (ds_ptr dl7_one_dive_header)) [CR; LF]
            = (Some a, [])
            ∧ strstr dl7_one_dive a (lit "ZDP}") = Some e
            ∧ payload = substr dl7_one_dive a (e - a))
    ∧ ds_log dl7_one_dive_end
      = [(wrapped (match payload with [] => dl7_one_dive | _ => payload end) (lit "csv"),
          ds_params dl7_one_dive_end)].
Proof.
  destruct (dan_engine_document recording_engine dl7_one_dive [CR; LF]
              dl7_one_dive_header dl7_one_dive_end ltac:(vm_compute; intros [=]) eq_refl)
    as (payload & _ & H2 & H3).
  exists payload. split; [exact (H2 eq_refl)|].
  cbv zeta in H3. apply (f_equal snd) in H3. symmetry. exact H3.
Defined.

Lemma dan_quiet_success_witness :
  parse_dan_format recording_engine (Some dl7_one_dive) [] []
  = Returns (ds_ret dl7_one_dive_end, ds_params dl7_one_dive_end,
             ds_log dl7_one_dive_end, []).
Proof.
  exact (proj2 (dan_quiet_success recording_engine dl7_one_dive [] [] [CR; LF]
                  dl7_one_dive_end dl7_one_dive_at) ltac:(vm_compute; lia)).
Defined.

(** ** The unit mapper writes one field *)

(** X23. [add_sample_data] writes the field of its tag and nothing else:
    two writes to one field leave the later value, writes to different
    fields can be swapped, and the sample time is never written. *)
Theorem add_sample_data_fields {D : Type} (conv : csv_format -> D -> Z) (s : sample)
    (t1 t2 : csv_format) (v1 v2 : D) :
  time_seconds (add_sample_data conv s t1 v1) = time_seconds s
  ∧ sample_field (add_sample_data conv s t1 v1) (field_of t1) = Some (conv t1 v1)
  ∧ (∀ f, f ≠ field_of t1 →
       sample_field (add_sample_data conv s t1 v1) f = sample_field s f)
  ∧ (if decide (field_of t1 = field_of t2)
     then add_sample_data conv (add_sample_data conv s t1 v1) t2 v2
          = add_sample_data conv s t2 v2
     else add_sample_data conv (add_sample_data conv s t1 v1) t2 v2
          = add_sample_data conv (add_sample_data conv s t2 v2) t1 v1).
Proof.
  split_and!.
  - by destruct t1.
  - by destruct t1.
  - intros f Hf. destruct t1, f; done.
  - destruct t1, t2; done.
Qed.

(** ** The two models of [sscanf] agree *)

Lemma sscanf_fmt_d3 (sep : ascii) (s : bytes) :
  sscanf_fmt [Dir_d; Dir_char sep; Dir_d; Dir_char sep; Dir_d] s [] = sscanf_d3 sep s.
Proof.
  unfold sscanf_d3. cbn [sscanf_fmt length app].
  destruct (scan_d s) as [| |a r1]; [done|done|].
  destruct r1 as [|c1 r1]; [done|]. destruct (Ascii.eqb c1 sep); [|done].
  destruct (scan_d r1) as [| |b r2]; [done|done|].
  destruct r2 as [|c2 r2]; [done|]. cbn [app length]. destruct (Ascii.eqb c2 sep); [|done].
  destruct (scan_d r2) as [| |c r3]; done.
Qed.

(** ** [parse_date] reads a written date back *)

Lemma isdigit_not_space (c : ascii) : isdigit c = true → isspace c = false.
Proof.
  unfold isdigit, isspace. intros H. apply andb_true_iff in H as [H1 H2].
  apply Nat.leb_le in H1, H2. apply orb_false_iff. split.
  - apply Nat.eqb_neq. lia.
  - apply andb_false_iff. right. apply Nat.leb_gt. lia.
Qed.

Lemma isdigit_not_sign (c : ascii) :
  isdigit c = true → Ascii.eqb c "-" = false ∧ Ascii.eqb c "+" = false.
Proof.
  intros H. split; apply Ascii.eqb_neq; intros ->; done.
Qed.

Lemma scan_digits_run (ds rest : bytes) (acc : Z) (n : nat) :
  Forall (fun c => isdigit c = true) ds → no_digit_head rest →
  scan_digits (ds ++ rest) acc n
  = (fold_left (fun a c => (10 * a + digit_value c)%Z) ds acc, n + length ds, rest).
Proof.
  revert acc n. induction ds as [|d ds IH]; intros acc n Hds Hrest.
  - cbn [app fold_left length]. rewrite Nat.add_0_r.
    destruct rest as [|c rest]; [done|]. cbn [scan_digits]. cbn in Hrest. by rewrite Hrest.
  - apply Forall_cons in Hds as [Hd Hds]. cbn [app scan_digits fold_left length].
    rewrite Hd. rewrite IH by done. f_equal. f_equal. lia.
Qed.

Lemma digits_value_nonneg (ds : bytes) : (0 <= digits_value ds)%Z.
Proof.
  unfold digits_value.
  assert (H : ∀ acc, (0 <= acc)%Z →
            (0 <= fold_left (fun a c => (10 * a + digit_value c)%Z) ds acc)%Z).
  { induction ds as [|d ds IH]; intros acc Hacc; [done|]. cbn [fold_left]. apply IH.
    unfold digit_value. lia. }
  by apply H.
Qed.

Lemma scan_signed_run (ds rest : bytes) :
  ds ≠ [] → Forall (fun c => isdigit c = true) ds → no_digit_head rest →
  scan_signed (ds ++ rest) = Some (digits_value ds, rest).
Proof.
  intros Hne Hds Hrest. destruct ds as [|d ds]; [done|].
  pose proof Hds as Hds'. apply Forall_cons in Hds' as [Hd _].
  destruct (isdigit_not_sign d Hd) as [H1 H2].
  unfold scan_signed. cbn [app]. rewrite H1, H2.
  change (d :: ds ++ rest) with ((d :: ds) ++ rest).
  rewrite scan_digits_run by done. cbn [length Nat.add]. done.
Qed.

Lemma int_of_decimal_small (v : Z) : (0 <= v < 2 ^ 31)%Z → int_of_decimal v = v.
Proof.
  intros H. unfold int_of_decimal, clamp_long. rewrite wrap32_small; lia.
Qed.

Lemma strtol10_run (ds rest : bytes) :
  ds ≠ [] → Forall (fun c => isdigit c = true) ds → no_digit_head rest →
  (digits_value ds < 2 ^ 31)%Z →
  strtol10 (ds ++ rest) = (digits_value ds, length ds).
Proof.
  intros Hne Hds Hrest Hv. unfold strtol10.
  assert (skip_space (ds ++ rest) = ds ++ rest) as ->.
  { destruct ds as [|d ds]; [done|]. apply Forall_cons in Hds as [Hd _].
    cbn [app skip_space]. by rewrite (isdigit_not_space d Hd). }
  rewrite scan_signed_run by done.
  rewrite int_of_decimal_small by (pose proof (digits_value_nonneg ds); lia).
  f_equal. rewrite length_app. lia.
Qed.

Lemma scan_d_run (sp ds rest : bytes) :
  Forall (fun c => isspace c = true) sp →
  ds ≠ [] → Forall (fun c => isdigit c = true) ds → no_digit_head rest →
  (digits_value ds < 2 ^ 31)%Z →
  scan_d (sp ++ ds ++ rest) = Converted (digits_value ds) rest.
Proof.
  intros Hsp Hne Hds Hrest Hv. unfold scan_d.
  assert (skip_space (sp ++ ds ++ rest) = ds ++ rest) as ->.
  { induction Hsp as [|c sp Hc _ IH].
    - destruct ds as [|d ds]; [done|]. apply Forall_cons in Hds as [Hd _].
      cbn [app skip_space]. by rewrite (isdigit_not_space d Hd).
    - cbn [app skip_space]. by rewrite Hc. }
  destruct (ds ++ rest) as [|c t] eqn:E; [by destruct ds|]. rewrite <- E.
  rewrite scan_signed_run by done.
  by rewrite int_of_decimal_small by (pose proof (digits_value_nonneg ds); lia).
Qed.

Lemma monthname_en_found (k : nat) (rest : bytes) :
  k < 12 →
  month_loop monthname_en 12 0 (monthname_en k ++ rest) = k
  ∧ drop 3 (monthname_en k ++ rest) = rest
  ∧ no_digit_head (monthname_en k ++ rest).
Proof.
  intros Hk. do 12 (destruct k as [|k]; [by split_and!|]). lia.
Qed.

Section ParseDateProperties.
Variable utc_mktime : tm -> Z.

(** X24. [parse_date] reads a written date back: for a day, a year, an
    hour, a minute and a second written as decimal digits and an English
    month name, the text day, month name, year, space, hour, colon,
    minute, colon, second gives the time stamp of exactly these values,
    the month counted from 0, a year below 70 moved to 20xx and a year
    from 70 to 99 to 19xx.  Whatever follows the seconds is ignored. *)
Theorem parse_date_reads_back (day year hour minute second tail : bytes) (mon : nat) :
  Forall (fun ds => ds ≠ [] ∧ Forall (fun c => isdigit c = true) ds
                    ∧ (digits_value ds < 2 ^ 31)%Z)
    [day; year; hour; minute; second] →
  (1 <= digits_value day <= 31)%Z →
  mon < 12 →
  no_digit_head tail →
  let y := digits_value year in
  parse_date monthname_en utc_mktime
    (day ++ monthname_en mon ++ year ++ " " :: hour ++ ":" :: minute ++ ":" :: second ++ tail)
  = utc_mktime (Tm (digits_value second) (digits_value minute) (digits_value hour)
                  (digits_value day) mon
                  (if (y <? 70)%Z then y + 2000 else if (y <? 100)%Z then y + 1900 else y)%Z).
Proof.
  intros Hall Hday Hmon Htail y.
  apply Forall_cons in Hall as [(Nd & Dd & Vd) Hall].
  apply Forall_cons in Hall as [(Ny & Dy & Vy) Hall].
  apply Forall_cons in Hall as [(Nh & Dh & Vh) Hall].
  apply Forall_cons in Hall as [(Nm & Dm & Vm) Hall].
  apply Forall_cons in Hall as [(Ns & Ds & Vs) _].
  set (time := " " :: hour ++ ":" :: minute ++ ":" :: second ++ tail).
  destruct (monthname_en_found mon (year ++ time) Hmon) as (Hfound & Hdrop & Hnd).
  unfold parse_date.
  rewrite strtol10_run by done. rewrite drop_app_length.
  destruct (Z.ltb_spec (digits_value day) 1); [lia|].
  destruct (Z.ltb_spec 31 (digits_value day)); [lia|]. cbn [orb].
  rewrite Hfound. rewrite decide_False by lia. rewrite Hdrop.
  rewrite strtol10_run by done. rewrite drop_app_length.
  rewrite decide_False by (destruct year; [done|simpl; lia]).
  fold y.
  assert (Hscan : sscanf_d3 ":" time
                  = (3%Z, [digits_value hour; digits_value minute; digits_value second])).
  { pose proof (scan_d_run [" "] hour (":" :: minute ++ ":" :: second ++ tail)
                  ltac:(by repeat constructor) Nh Dh eq_refl Vh) as H1.
    pose proof (scan_d_run [] minute (":" :: second ++ tail)
                  ltac:(constructor) Nm Dm eq_refl Vm) as H2.
    pose proof (scan_d_run [] second tail ltac:(constructor) Ns Ds Htail Vs) as H3.
    cbn [app] in H1, H2, H3.
    unfold sscanf_d3, time. rewrite H1, Ascii.eqb_refl, H2, Ascii.eqb_refl, H3. done. }
  rewrite Hscan. cbn [negb Z.eqb Pos.eqb stored lookup list_lookup default].
  f_equal. f_equal.
  destruct (Z.ltb_spec y 70).
  - destruct (Z.ltb_spec (y + 2000) 100); [|done].
    pose proof (digits_value_nonneg year). unfold y in *. lia.
  - done.
Qed.
End ParseDateProperties.

Lemma parse_date_reads_back_witness :
  parse_date monthname_en utc_seconds (lit "01Jan20 10:00:00,x") = 1577872800%Z.
Proof.
  apply (parse_date_reads_back utc_seconds (lit "01") (lit "20") (lit "10") (lit "00")
           (lit "00") (lit ",x") 0).
  - apply (bool_decide_unpack _). vm_compute. exact I.
  - vm_compute. split; intros [=].
  - lia.
  - reflexivity.
Defined.

(** ** The DAN decoder: what a header and a trailer line give *)

Lemma slot_assigned (fields : list bytes) (n k : nat) :
  length fields ≤ n → k < n →
  slot (assign_fields 0 fields (empty_slots n)) k = default [] (fields !! k).
Proof.
  intros Hn Hk. unfold slot. rewrite assign_fields_lookup, empty_slots_lookup.
  cbn [Nat.add]. rewrite Nat.sub_0_r.
  destruct (decide (0 ≤ k < length fields)) as [H|H]; [done|].
  rewrite decide_True by done. rewrite lookup_ge_None_2 by lia. done.
Qed.

Lemma parse_dan_fields_terminated (buf : bytes) (ptr n : nat) (rest : bytes) (nl0 : ascii)
    (nl' : bytes) (fields : list bytes) :
  let NL := nl0 :: nl' in
  let cur := ptr + S (length (join_fields "|" fields)) + length NL in
  drop ptr buf = "|" :: join_fields "|" fields ++ NL ++ rest →
  cstr NL = NL → "|" ≠ nl0 →
  Forall (Forall (fun x => x ≠ NUL ∧ x ≠ nl0 ∧ x ≠ "|")) fields →
  parse_dan_fields buf NL (empty_slots n) ptr
  = if decide (n < length fields)
    then ((-1)%Z, empty_slots n, cur, [Info "DEBUG: More DAN fields than expected"])
    else (0%Z, assign_fields 0 fields (empty_slots n), cur, []).
Proof.
  intros NL cur Hd HNL Hnl Hf. unfold parse_dan_fields.
  pose proof (parse_csv_line_terminated buf ptr rest nl0 nl' "|" fields [] Hd HNL
                ltac:(done) Hnl Hf) as Hline.
  cbv zeta in Hline. fold NL in Hline. rewrite Hline.
  change (0 <? 0)%Z with false. cbv iota. rewrite empty_slots_size. cbn [app length].
  by destruct (decide (n < length fields)).
Qed.

(** X25. What a header and a trailer line give: for a line behind the
    three bytes of its tag whose fields are each closed by "|", the ZDH
    parser appends the date (the first 8 bytes of field 4, when it has
    that many), the time ("1" and the next 6 bytes, when it has 14), the
    air temperature (field 5) and the dive number (field 1); the ZDT
    parser appends the water temperature (field 4).  Missing trailing
    fields read as empty; a line with more than 10 (ZDH) or 6 (ZDT) fields
    is refused and the parameters stay as they were.  The cursor ends
    behind the newline marker. *)
Theorem dan_line_parameters (buf : bytes) (ptr : nat) (rest : bytes) (nl0 : ascii)
    (nl' : bytes) (fields : list bytes) (params : xml_params) :
  let NL := nl0 :: nl' in
  let cur := ptr + 3 + S (length (join_fields "|" fields)) + length NL in
  let nth_field k := default [] (fields !! k) in
  let more := [Info "DEBUG: More DAN fields than expected"] in
  drop (ptr + 3) buf = "|" :: join_fields "|" fields ++ NL ++ rest →
  cstr NL = NL → "|" ≠ nl0 →
  Forall (Forall (fun x => x ≠ NUL ∧ x ≠ nl0 ∧ x ≠ "|")) fields →
  parse_dan_zdh buf NL params ptr
  = (if decide (10 < length fields) then ((-1)%Z, params, cur, more)
     else (0%Z,
           params
           ++ (if decide (8 ≤ length (nth_field 4))
               then [("date"%string, take 8 (nth_field 4))] else [])
           ++ (if decide (14 ≤ length (nth_field 4))
               then [("time"%string, lit "1" ++ take 6 (drop 8 (nth_field 4)))] else [])
           ++ [("airTemp"%string, nth_field 5); ("diveNro"%string, nth_field 1)],
           cur, []))
  ∧ parse_dan_zdt buf NL params ptr
    = (if decide (6 < length fields) then ((-1)%Z, params, cur, more)
       else (0%Z, params ++ [("waterTemp"%string, nth_field 4)], cur, [])).
Proof.
  intros NL cur nth_field more Hd HNL Hnl Hf. split.
  - unfold parse_dan_zdh.
    pose proof (parse_dan_fields_terminated buf (ptr + 3) 10 rest nl0 nl' fields Hd HNL Hnl Hf)
      as Hfields. cbv zeta in Hfields. fold NL in Hfields. rewrite Hfields.
    destruct (decide (10 < length fields)); [done|].
    change (0 <? 0)%Z with false. cbv iota.
    unfold ZDH_FIELD.LEAVE_SURFACE, ZDH_FIELD.AIR_TEMPERATURE,
      ZDH_FIELD.INTERNAL_DIVE_SEQUENCE.
    rewrite !slot_assigned by lia. fold (nth_field 4) (nth_field 5) (nth_field 1).
    unfold xml_params_add.
    destruct (decide (8 ≤ length (nth_field 4))); destruct (decide (14 ≤ length (nth_field 4)));
      by rewrite <- ?app_assoc.
  - unfold parse_dan_zdt.
    pose proof (parse_dan_fields_terminated buf (ptr + 3) 6 rest nl0 nl' fields Hd HNL Hnl Hf)
      as Hfields. cbv zeta in Hfields. fold NL in Hfields. rewrite Hfields.
    destruct (decide (6 < length fields)); [done|].
    change (0 <? 0)%Z with false. cbv iota. unfold ZDT_FIELD.MIN_WATER_TEMP.
    by rewrite !slot_assigned by lia.
Qed.

Lemma dan_line_parameters_witness :
  parse_dan_zdh dl7_one_dive [CR; LF] [] 22
  = (0%Z, [("date"%string, lit "20200102"); ("time"%string, lit "1103000");
           ("airTemp"%string, lit "20"); ("diveNro"%string, lit "7")], 57, []).
Proof.
  apply (proj1 (dan_line_parameters dl7_one_dive 22 (drop 57 dl7_one_dive) CR [LF]
                  [lit "1"; lit "7"; lit "I"; lit "QS"; lit "20200102103000"; lit "20";
                   lit ""; lit ""] [] eq_refl eq_refl ltac:(done)
                  ltac:(apply (bool_decide_unpack _); vm_compute; exact I))).
Defined.

Section DANStatus.
Context {divelog : Type}.
Variable parse_xml_buffer : bytes -> xml_params -> divelog -> Z * divelog.

Lemma dan_reaches_status (file : option bytes) (buf NL : bytes) (n : nat)
    (st st' : @dan_state divelog) :
  0 < strlen NL →
  dan_reaches parse_xml_buffer file buf NL n st st' →
  n ≤ length (ds_params st) →
  ds_ret st ≠ 0%Z → ds_ret st' ≠ 0%Z.
Proof.
  intros HNL. induction 1 as [st|st st1 st2 Hlt Hd _ IH]; intros Hn Hret; [done|].
  apply dan_dive_inl in Hd as ((hdr & w & Hps & _) & (doc & _ & Hr) & _); [|done|done].
  apply IH.
  - rewrite Hps, length_app, length_take. lia.
  - rewrite Hr. intros H0. apply Z.lor_eq_0_iff in H0 as [? _]. done.
Qed.
End DANStatus.

(** ** The Seabear decoder: the date of the header *)

Lemma cstr_nonul (s : bytes) : Forall (fun x => x ≠ NUL) s → cstr s = s.
Proof.
  intros H. rewrite <- (app_nil_r s) at 1. rewrite cstr_app_nonul by done.
  by rewrite app_nil_r.
Qed.

Lemma xml_params_set_value_tail (ps : xml_params) (k1 k2 : string) (v1 v2 v : bytes) :
  xml_params_set_value (ps ++ [(k1, v1); (k2, v2)]) (length ps) v
  = ps ++ [(k1, v); (k2, v2)]
  ∧ xml_params_set_value (ps ++ [(k1, v1); (k2, v2)]) (length ps + 1) v
    = ps ++ [(k1, v1); (k2, v)].
Proof.
  unfold xml_params_set_value. split.
  - rewrite lookup_app_r by lia. rewrite Nat.sub_diag. cbn [lookup list_lookup].
    rewrite insert_app_r_alt by lia. by rewrite Nat.sub_diag.
  - rewrite lookup_app_r by lia. replace (length ps + 1 - length ps) with 1 by lia.
    cbn [lookup list_lookup]. rewrite insert_app_r_alt by lia.
    by replace (length ps + 1 - length ps) with 1 by lia.
Qed.

(** X27. The date of a Seabear header: with the line behind the
    "Serial number:" line holding, from its third byte on, a date and a
    time as YYYY?MM?DD?hh?mm (any byte for "?"), the value of the last
    but one parameter becomes YYYYMMDD and the value of the last one
    keeps its first byte and continues with hhmm; the separators, the
    seconds and the names of the parameters play no part. *)
Theorem seabear_header_date_reads_back (mem NL : bytes) (a b : nat)
    (y mo d h mi tail : bytes) (s1 s2 s3 s4 c : ascii) (ps : xml_params)
    (k1 k2 : string) (v1 v2 : bytes) :
  strstr mem 0 (lit "Serial number:") = Some a →
  strstr mem a NL = Some b →
  drop (b + strlen NL + 2) mem
  = y ++ s1 :: mo ++ s2 :: d ++ s3 :: h ++ s4 :: mi ++ tail →
  length y = 4 ∧ length mo = 2 ∧ length d = 2 ∧ length h = 2 ∧ length mi = 2 →
  Forall (fun x => x ≠ NUL) (y ++ mo ++ d ++ h ++ mi) → c ≠ NUL →
  seabear_header_date mem NL (ps ++ [(k1, v1); (k2, c :: v2)])
  = Returns (ps ++ [(k1, y ++ mo ++ d); (k2, c :: h ++ mi)]).
Proof.
  intros Ha Hb Hd (Ly & Lmo & Ld & Lh & Lmi) Hnul Hc.
  unfold seabear_header_date. rewrite Ha, Hb.
  set (p := b + strlen NL + 2) in *.
  assert (Hlen : p + 16 ≤ length mem).
  { apply (f_equal length) in Hd. rewrite length_drop in Hd.
    rewrite !length_app in Hd. cbn [length] in Hd. rewrite !length_app in Hd.
    cbn [length] in Hd. rewrite !length_app in Hd. cbn [length] in Hd.
    rewrite !length_app in Hd. cbn [length] in Hd. rewrite !length_app in Hd. lia. }
  rewrite decide_True by lia.
  assert (Sy : substr mem p 4 = y).
  { pose proof (substr_parts mem p [] y (s1 :: mo ++ s2 :: d ++ s3 :: h ++ s4 :: mi ++ tail)
                  Hd) as H. cbn [length] in H. by rewrite Nat.add_0_r, Ly in H. }
  assert (Smo : substr mem (p + 5) 2 = mo).
  { pose proof (substr_parts mem p (y ++ [s1]) mo (s2 :: d ++ s3 :: h ++ s4 :: mi ++ tail)) as H.
    rewrite length_app, Ly, Lmo in H. apply H. rewrite Hd. by rewrite <- !app_assoc. }
  assert (Sd : substr mem (p + 8) 2 = d).
  { pose proof (substr_parts mem p (y ++ s1 :: mo ++ [s2]) d (s3 :: h ++ s4 :: mi ++ tail)) as H.
    rewrite length_app in H. cbn [length] in H. rewrite length_app, Ly, Lmo, Ld in H.
    apply H. rewrite Hd. rewrite <- !app_assoc. cbn [app]. by rewrite <- !app_assoc. }
  assert (Sh : substr mem (p + 11) 2 = h).
  { pose proof (substr_parts mem p (y ++ s1 :: mo ++ s2 :: d ++ [s3]) h (s4 :: mi ++ tail)) as H.
    rewrite length_app in H. cbn [length] in H. rewrite length_app in H. cbn [length] in H.
    rewrite length_app, Ly, Lmo, Ld, Lh in H.
    apply H. rewrite Hd. rewrite <- !app_assoc. cbn [app]. rewrite <- !app_assoc. cbn [app].
    by rewrite <- !app_assoc. }
  assert (Smi : substr mem (p + 14) 2 = mi).
  { pose proof (substr_parts mem p (y ++ s1 :: mo ++ s2 :: d ++ s3 :: h ++ [s4]) mi tail) as H.
    rewrite length_app in H. cbn [length] in H. rewrite length_app in H. cbn [length] in H.
    rewrite length_app in H. cbn [length] in H. rewrite length_app, Ly, Lmo, Ld, Lh, Lmi in H.
    apply H. rewrite Hd. rewrite <- !app_assoc. cbn [app]. rewrite <- !app_assoc. cbn [app].
    rewrite <- !app_assoc. cbn [app]. by rewrite <- !app_assoc. }
  rewrite Sy, Smo, Sd, Sh, Smi.
  apply Forall_app in Hnul as [Ny Hnul]. apply Forall_app in Hnul as [Nmo Hnul].
  apply Forall_app in Hnul as [Nd Hnul]. apply Forall_app in Hnul as [Nh Nmi].
  rewrite (cstr_nonul (y ++ mo ++ d)) by (rewrite !Forall_app; done).
  unfold xml_params_count. rewrite length_app. cbn [length].
  replace (length ps + 2 - 2) with (length ps) by lia.
  destruct (xml_params_set_value_tail ps k1 k2 v1 (c :: v2) (y ++ mo ++ d)) as [-> _].
  rewrite length_app. cbn [length].
  replace (length ps + 2 - 1) with (length ps + 1) by lia.
  unfold xml_params_get_value. rewrite lookup_app_r by lia.
  replace (length ps + 1 - length ps) with 1 by lia.
  change (char_at (default [] (snd <$> [(k1, y ++ mo ++ d); (k2, c :: v2)] !! 1)) 0) with c.
  cbn [app].
  rewrite (cstr_nonul (c :: h ++ mi)) by (constructor; [done|rewrite Forall_app; done]).
  by destruct (xml_params_set_value_tail ps k1 k2 (y ++ mo ++ d) (c :: v2) (c :: h ++ mi))
    as [_ ->].
Qed.

Lemma seabear_header_date_reads_back_witness :
  seabear_header_date seabear_file [LF]
    ([] ++ [("date"%string, lit "20261103"); ("time"%string, "1" :: lit "0830")])
  = Returns ([] ++ [("date"%string, lit "2020" ++ lit "01" ++ lit "02");
                    ("time"%string, "1" :: lit "10" ++ lit "30")]).
Proof.
  apply (seabear_header_date_reads_back seabear_file [LF] 0 17
           (lit "2020") (lit "01") (lit "02") (lit "10") (lit "30") (drop 36 seabear_file)
           "-" "-" " " ":" "1" [] "date" "time" (lit "20261103") (lit "0830"));
    try done.
  apply (bool_decide_unpack _). vm_compute. exact I.
Defined.

(** ** How the dive loop of the DAN decoder ends *)

Lemma line_start_next (buf NL : bytes) (p e q : nat) :
  strstr buf p NL = Some e →
  line_start buf NL (e + strlen NL) q → line_start buf NL p q.
Proof.
  intros He Hq. apply strstr_Some in He as (Hpe & _ & Hs & _).
  destruct Hq as [->|[Hle Hq]]; right.
  - split; [lia|]. by replace (e + strlen NL - strlen NL) with e by lia.
  - split; [lia|done].
Qed.

(** The header the scan finds stands at the start of a line. *)
Lemma locate_zdh_line_start (fuel : nat) (buf NL : bytes) (ptr h : nat) (d : list diag) :
  locate_zdh fuel buf NL ptr = Returns (Some h, d) → line_start buf NL ptr h.
Proof.
  revert ptr d. induction fuel as [|fuel IH]; intros ptr d; cbn [locate_zdh];
    destruct (starts_with buf ptr (lit "ZDH")); try done;
    try (intros [= <- _]; by left).
  unfold parse_dan_new_line.
  destruct (strstr buf ptr NL) as [e|] eqn:He; [|done].
  destruct (locate_zdh fuel buf NL (e + strlen NL)) as [[[h'|] d']| |] eqn:Hl; try done.
  cbn [mbind outcome_bind]. intros [= <- _].
  eapply line_start_next; [done|]. by eapply IH.
Qed.

Lemma parse_dan_fields_failed (buf NL : bytes) (fields : gmap nat bytes) (ptr : nat) :
  let '(ret, _, _, d) := parse_dan_fields buf NL fields ptr in
  (ret <? 0)%Z = true → ret = (-1)%Z ∧ d ≠ [].
Proof.
  unfold parse_dan_fields, parse_csv_line.
  destruct (Ascii.eqb _ _); cbn [Z.ltb Z.compare]; [|done].
  by destruct (decide _).
Qed.

Lemma parse_dan_zdh_failed (buf NL : bytes) (params : xml_params) (ptr : nat) :
  let '(ret, _, _, d) := parse_dan_zdh buf NL params ptr in
  (ret <? 0)%Z = true → ret = (-1)%Z ∧ d ≠ [].
Proof.
  unfold parse_dan_zdh.
  pose proof (parse_dan_fields_failed buf NL (empty_slots 10) (ptr + 3)) as H.
  destruct (parse_dan_fields _ _ _ _) as [[[ret fs] c] d].
  destruct (ret <? 0)%Z; [|done]. intros _. by destruct H.
Qed.

Lemma parse_dan_zdt_failed (buf NL : bytes) (params : xml_params) (ptr : nat) :
  let '(ret, _, _, d) := parse_dan_zdt buf NL params ptr in
  (ret <? 0)%Z = true → ret = (-1)%Z ∧ d ≠ [].
Proof.
  unfold parse_dan_zdt.
  pose proof (parse_dan_fields_failed buf NL (empty_slots 6) (ptr + 3)) as H.
  destruct (parse_dan_fields _ _ _ _) as [[[ret fs] c] d].
  destruct (ret <? 0)%Z; [|done]. intros _. by destruct H.
Qed.

Lemma dan_profile_failed (buf NL : bytes) (ptr : nat) :
  let '(ret, _, _, d) := dan_profile buf NL ptr in
  (ret <? 0)%Z = true → ret = (-1)%Z ∧ d ≠ [].
Proof.
  unfold dan_profile. destruct (starts_with buf ptr (lit "ZDP")); [|done].
  unfold parse_dan_zdp.
  destruct (negb _); [done|]. destruct (Ascii.eqb _ _); [done|].
  destruct (parse_dan_new_line buf (Some ptr) NL) as [[a|] da] eqn:E1.
  - destruct (strstr buf a (lit "ZDP}")) as [e|].
    + by destruct (parse_dan_new_line buf (Some e) NL).
    + intros _. split; [done|]. by destruct da.
  - apply parse_dan_new_line_None in E1 as ->. done.
Qed.

Lemma snoc_not_nil {A : Type} (l : list A) (x : A) : l ++ [x] ≠ [].
Proof. by destruct l. Qed.

Lemma app_not_nil_r {A : Type} (l k : list A) : k ≠ [] → l ++ k ≠ [].
Proof. intros Hk H. by apply app_eq_nil in H as [_ ?]. Qed.

Section DANEnd.
Context {divelog : Type}.
Variable parse_xml_buffer : bytes -> xml_params -> divelog -> Z * divelog.

(** A dive step that makes the function return reports -1 and at least
    one diagnostic. *)
Lemma dan_dive_inr (mem NL : bytes) (n : nat) (st : @dan_state divelog)
    (r : Z) (ps : xml_params) (lg : divelog) (d : list diag) :
  mem ≠ [] → 0 < strlen NL →
  dan_dive parse_xml_buffer (Some mem) mem NL n st = Returns (inr (r, ps, lg, d)) →
  r = (-1)%Z ∧ d ≠ [].
Proof.
  intros Hmem HNL. unfold dan_dive.
  destruct (dan_header mem NL n st) as [[st1|r1]| |] eqn:Hh; try done;
    cbn [mbind outcome_bind].
  - intros Hb. clear Hh. revert Hb. unfold dan_body.
    pose proof (dan_profile_failed mem NL (ds_ptr st1)) as Hp.
    destruct (dan_profile mem NL (ds_ptr st1)) as [[[ret p2] payload] d2].
    destruct (ret <? 0)%Z.
    { intros [= <- <- <- <-]. destruct Hp as [-> Hd]; [done|].
      split; [done|]. by apply app_not_nil_r. }
    destruct p2 as [p2|]; [|done].
    destruct (starts_with mem p2 (lit "ZDT")).
    2:{ intros [= <- <- <- <-]. split; [done|]. apply snoc_not_nil. }
    pose proof (parse_dan_zdt_failed mem NL (ds_params st1) p2) as Ht.
    destruct (parse_dan_zdt _ _ _ _) as [[[ret' ps'] c] d'].
    destruct (ret' <? 0)%Z.
    { intros [= <- <- <- <-]. destruct Ht as [-> Hd]; [done|].
      split; [done|]. by apply app_not_nil_r. }
    rewrite try_to_xslt_open_csv_spec.
    assert (wrapper_input (Some mem) payload
            = Some (match payload with [] => mem | _ => payload end)) as ->
      by (by destruct payload).
    set (src := match payload with [] => mem | _ => payload end).
    assert (Hsrc : src ≠ []) by (unfold src; by destruct payload).
    destruct src as [|c0 src']; [done|].
    cbn [mbind outcome_bind]. change (0 =? 0)%Z with true. cbv iota.
    by destruct (parse_xml_buffer _ _ _).
  - intros [= ->]. revert Hh. unfold dan_header.
    destruct (locate_zdh_spec (S (length mem - ds_ptr st)) mem NL (ds_ptr st) HNL ltac:(lia))
      as [(h & -> & _)| ->]; cbn [mbind outcome_bind].
    + pose proof (parse_dan_zdh_failed mem NL (xml_params_resize (ds_params st) n) h) as Hz.
      destruct (parse_dan_zdh _ _ _ _) as [[[ret ps'] c] d'].
      destruct (ret <? 0)%Z; [|done].
      intros [= <- <- <- <-]. destruct Hz as [-> Hd]; [done|].
      split; [done|]. by apply app_not_nil_r.
    + intros [= <- <- <- <-]. split; [done|]. by apply app_not_nil_r.
Qed.

(** A run of the dive loop that returns without a diagnostic has left
    the loop at its head. *)
Lemma dan_loop_quiet (fuel : nat) (mem NL : bytes) (n : nat) (st : @dan_state divelog)
    (r : Z) (ps : xml_params) (lg : divelog) :
  mem ≠ [] → 0 < strlen NL →
  dan_loop parse_xml_buffer fuel (Some mem) mem NL n st = Returns (r, ps, lg, []) →
  ∃ st', dan_reaches parse_xml_buffer (Some mem) mem NL n st st'
         ∧ length mem ≤ ds_ptr st'
         ∧ r = ds_ret st' ∧ ps = ds_params st' ∧ lg = ds_log st' ∧ ds_diags st' = [].
Proof.
  intros Hmem HNL. revert st.
  induction fuel as [|fuel IH]; intros st; cbn [dan_loop];
    destruct (decide (ds_ptr st < length mem)) as [Hlt|Hge]; try done;
    try (intros [= <- <- <- Hd]; exists st;
         split; [apply dan_reaches_refl|]; split_and!; (done || lia)).
  destruct (dan_dive parse_xml_buffer (Some mem) mem NL n st) as [[st1|[[[r1 ps1] lg1] d1]]| |]
    eqn:Hd; try done; cbn [mbind outcome_bind].
  - intros H. apply IH in H as (st' & Hr & H).
    exists st'. split; [|done]. by eapply dan_reaches_step.
  - intros [= <- <- <- ->]. by apply dan_dive_inr in Hd as [_ ?].
Qed.

(** The last step of a run of decoded dives. *)
Lemma dan_reaches_last (file : option bytes) (buf NL : bytes) (n : nat)
    (st st' : @dan_state divelog) :
  dan_reaches parse_xml_buffer file buf NL n st st' →
  st' = st
  ∨ ∃ st0, dan_reaches parse_xml_buffer file buf NL n st st0
           ∧ ds_ptr st0 < length buf
           ∧ dan_dive parse_xml_buffer file buf NL n st0 = Returns (inl st').
Proof.
  induction 1 as [st|st st1 st2 Hlt Hd Hr IH]; [by left|]. right.
  destruct IH as [->|(st0 & Hr0 & Hlt0 & Hd0)].
  - exists st. split; [apply dan_reaches_refl|done].
  - exists st0. split; [|done]. by eapply dan_reaches_step.
Qed.

(** No diagnostic has been reported when the loop stands at its head. *)
Lemma dan_at_quiet (mem : bytes) (params : xml_params) (log : divelog) (NL : bytes)
    (st : @dan_state divelog) :
  dan_at parse_xml_buffer mem params log NL st → ds_diags st = [].
Proof.
  intros (ptr & Hdet & Hreach).
  pose proof (detect_NL_strlen _ _ _ Hdet) as HNL.
  assert (Hmem : mem ≠ []).
  { apply detect_NL_bound in Hdet. destruct mem; [simpl in Hdet; lia|done]. }
  remember (DanState ptr 0%Z params log []) as st0 eqn:E0.
  assert (H0 : ds_diags st0 = []) by (by subst).
  clear E0. induction Hreach as [st|st st1 st2 _ Hdive _ IH]; [done|].
  apply IH. by rewrite (dan_dive_diags _ _ _ _ _ _ Hmem HNL Hdive).
Qed.

(** The trailer behind a decoded dive. *)
Lemma dan_dive_trailer (file : option bytes) (buf NL : bytes) (n : nat)
    (st st' : @dan_state divelog) :
  dan_dive parse_xml_buffer file buf NL n st = Returns (inl st') →
  ∃ st1 p2,
    dan_header buf NL n st = Returns (inl st1)
    ∧ (dan_profile buf NL (ds_ptr st1)).1.1.2 = Some p2
    ∧ starts_with buf p2 (lit "ZDT") = true
    ∧ ds_ptr st' = (parse_dan_zdt buf NL (ds_params st1) p2).1.2.
Proof.
  unfold dan_dive.
  destruct (dan_header buf NL n st) as [[st1|r1]| |]; try done; cbn [mbind outcome_bind].
  intros Hb. exists st1. revert Hb. unfold dan_body.
  destruct (dan_profile buf NL (ds_ptr st1)) as [[[ret p2] payload] d2].
  destruct (ret <? 0)%Z; [done|]. destruct p2 as [p2|]; [|done].
  destruct (starts_with buf p2 (lit "ZDT")) eqn:Ht; [|done].
  destruct (parse_dan_zdt _ _ _ _) as [[[ret' ps'] c] d'] eqn:Ez.
  destruct (ret' <? 0)%Z; [done|].
  destruct (try_to_xslt_open_csv _ _ _) as [[[r doc] dw]| |]; try done.
  cbn [mbind outcome_bind]. destruct (r =? 0)%Z; [|done].
  destruct (parse_xml_buffer _ _ _). intros [= <-]. exists p2. by rewrite Ez.
Qed.

(** C3, as the code has it.  At the head of the dive loop, in state
    [st]: (a) a parsed ZDH header behind which, after the optional ZDP
    block, the cursor does not stand on "ZDT" makes the decoding of the
    whole file fail with "Expected ZDT trailer not found", and when the
    closing "ZDP}" is not followed by a newline marker the cursor is null
    and the decoding is undefined; (b) when the cursor has reached the end
    of the buffer, the decoding ends and returns the status collected from
    the transform engine, without a diagnostic; (c) conversely, a decoding
    that returns without a diagnostic has decoded a last dive whose
    trailer line ends exactly at the end of the buffer, and returns the
    state behind that dive; (d) when bytes are left and no line from the
    cursor on starts with "ZDH", wherever else "ZDH" may stand, the
    decoding fails with "Expected ZDH header not found". *)
Theorem dan_end_conditions (mem : bytes) (params : xml_params) (log : divelog)
    (NL : bytes) (st : @dan_state divelog) :
  dan_at parse_xml_buffer mem params log NL st →
  let n := xml_params_count params in
  let run := parse_dan_format parse_xml_buffer (Some mem) params log in
  (∀ st1 ret p2 payload d2,
     ds_ptr st < length mem →
     dan_header mem NL n st = Returns (inl st1) →
     dan_profile mem NL (ds_ptr st1) = (ret, p2, payload, d2) →
     (0 ≤ ret)%Z →
     match p2 with
     | Some p2 =>
         starts_with mem p2 (lit "ZDT") = false →
         run = Returns ((-1)%Z, ds_params st1, ds_log st,
                        (ds_diags st1 ++ d2) ++ [Error "Expected ZDT trailer not found"])
     | None => run = Undefined
     end)
  ∧ (length mem ≤ ds_ptr st →
     run = Returns (ds_ret st, ds_params st, ds_log st, []))
  ∧ (∀ r ps lg, run = Returns (r, ps, lg, []) →
     ∃ st0 st1 p2 st',
       dan_at parse_xml_buffer mem params log NL st0
       ∧ ds_ptr st0 < length mem
       ∧ dan_header mem NL n st0 = Returns (inl st1)
       ∧ (dan_profile mem NL (ds_ptr st1)).1.1.2 = Some p2
       ∧ starts_with mem p2 (lit "ZDT") = true
       ∧ (parse_dan_zdt mem NL (ds_params st1) p2).1.2 = length mem
       ∧ dan_dive parse_xml_buffer (Some mem) mem NL n st0 = Returns (inl st')
       ∧ ds_ptr st' = length mem
       ∧ r = ds_ret st' ∧ ps = ds_params st' ∧ lg = ds_log st')
  ∧ (ds_ptr st < length mem →
     (∀ q, line_start mem NL (ds_ptr st) q → starts_with mem q (lit "ZDH") = false) →
     run = Returns ((-1)%Z, xml_params_resize (ds_params st) n, ds_log st,
                    [Info "DEBUG: No new line found";
                     Error "Expected ZDH header not found"])).
Proof.
  intros Hat n run.
  pose proof (dan_at_quiet _ _ _ _ _ Hat) as Hquiet.
  pose proof Hat as (ptr0 & Hdet & Hreach0).
  pose proof (detect_NL_bound _ _ _ Hdet) as Hptr0.
  assert (Hmem : mem ≠ []) by (destruct mem; [simpl in Hptr0; lia|done]).
  destruct (parse_dan_format_at _ _ _ _ _ _ Hat) as (HNL & Hrun).
  fold n run in Hrun. split_and!.
  - intros st1 ret p2 payload d2 Hlt Hh Hp Hret.
    destruct (dan_header_progress _ _ _ _ _ HNL Hh) as (_ & _ & Hlog).
    assert (Hneg : (ret <? 0)%Z = false) by lia.
    destruct p2 as [p2|].
    + intros Ht. rewrite Hrun, <- Hlog. eapply dan_loop_returns; [done|done|].
      unfold dan_body. rewrite Hp, Hneg. by rewrite Ht.
    + rewrite Hrun. cbn [dan_loop]. rewrite decide_True by done.
      unfold dan_dive. rewrite Hh. cbn [mbind outcome_bind].
      unfold dan_body. by rewrite Hp, Hneg.
  - intros Hge. rewrite Hrun. cbn [dan_loop]. rewrite decide_False by lia.
    by rewrite Hquiet.
  - intros r ps lg Hret. unfold run, parse_dan_format in Hret. rewrite Hdet in Hret.
    apply dan_loop_quiet in Hret as (st' & Hr' & Hend & -> & -> & -> & _); [|done|done].
    destruct (dan_reaches_last _ _ _ _ _ _ Hr') as [->|(st0 & Hr0 & Hlt0 & Hd0)];
      [cbn [ds_ptr] in Hend; lia|].
    assert (Hat0 : dan_at parse_xml_buffer mem params log NL st0) by (by exists ptr0).
    assert (Hle : ds_ptr st' ≤ length mem).
    { apply dan_reaches_inv in Hr' as (_ & _ & _ & H); [done|done|done|simpl; lia]. }
    destruct (dan_dive_trailer _ _ _ _ _ _ Hd0) as (st1 & p2 & Hh & Hp & Ht & Hc).
    exists st0, st1, p2, st'. split_and!; try done; lia.
  - intros Hlt Hno. rewrite Hrun. cbn [dan_loop]. rewrite decide_True by done.
    unfold dan_dive, dan_header.
    destruct (locate_zdh_spec (S (length mem - ds_ptr st)) mem NL (ds_ptr st) HNL
                ltac:(lia)) as [(h & Hl & Hh & Hs)| ->].
    + apply locate_zdh_line_start in Hl. rewrite Hno in Hs by done. done.
    + cbn [mbind outcome_bind]. by rewrite Hquiet.
Qed.
End DANEnd.

(** A buffer is searched for header lines by looking at its offsets. *)
Lemma no_header_line_check (buf NL : bytes) (p : nat) :
  Forall (fun q => line_start buf NL p q → starts_with buf q (lit "ZDH") = false)
    (seq 0 (length buf)) →
  ∀ q, line_start buf NL p q → starts_with buf q (lit "ZDH") = false.
Proof.
  intros HF q Hq. destruct (decide (q < length buf)) as [Hlt|Hge].
  - rewrite Forall_forall in HF. apply HF; [|done]. apply elem_of_seq. lia.
  - unfold starts_with. by rewrite drop_ge by lia.
Qed.

Lemma dl7_stray_header_at :
  dan_at recording_engine dl7_stray_header [] [] [CR; LF] dl7_stray_header_end.
Proof.
  exists 20. split; [reflexivity|].
  eapply dan_reaches_step; [vm_compute; lia|vm_compute; reflexivity|].
  apply dan_reaches_refl.
Defined.

Lemma dan_end_conditions_witness :
  parse_dan_format recording_engine (Some dl7_stray_header) [] []
  = Returns ((-1)%Z, xml_params_resize (ds_params dl7_stray_header_end) 0,
             ds_log dl7_stray_header_end,
             [Info "DEBUG: No new line found"; Error "Expected ZDH header not found"]).
Proof.
  apply (dan_end_conditions recording_engine dl7_stray_header [] [] [CR; LF]
           dl7_stray_header_end dl7_stray_header_at).
  - vm_compute. lia.
  - apply no_header_line_check. apply (bool_decide_unpack _). vm_compute. exact I.
Defined.

(** The line "xZDH|" behind the dive is no header, and makes the decoding
    fail after the dive was handed to the engine. *)
Example dan_stray_header_fails :
  match parse_dan_format recording_engine (Some dl7_stray_header) [] [] with
  | Returns (ret, _, log, diags) =>
      ret = (-1)%Z ∧ length log = 1
      ∧ diags = [Info "DEBUG: No new line found"; Error "Expected ZDH header not found"]
  | _ => False
  end.
Proof. vm_compute. repeat split. Qed.

(** ** The status of the dive loop does not steer it *)

Section DANEngines.
Context {divelog : Type}.
Variables engine1 engine2 : bytes -> xml_params -> divelog -> Z * divelog.

(** The header step reads the cursor and the reset parameters only. *)
Lemma dan_header_same_text (buf NL : bytes) (n : nat) (st st2 st1 : @dan_state divelog) :
  0 < strlen NL →
  ds_ptr st2 = ds_ptr st →
  xml_params_resize (ds_params st2) n = xml_params_resize (ds_params st) n →
  dan_header buf NL n st = Returns (inl st1) →
  dan_header buf NL n st2
  = Returns (inl (DanState (ds_ptr st1) (ds_ret st2) (ds_params st1) (ds_log st2)
                    (ds_diags st2))).
Proof.
  intros HNL Hp Hps. unfold dan_header. rewrite Hp, Hps.
  destruct (locate_zdh_spec (S (length buf - ds_ptr st)) buf NL (ds_ptr st) HNL ltac:(lia))
    as [(h & -> & _)| ->]; [|done].
  cbn [mbind outcome_bind].
  pose proof (parse_dan_zdh_diags buf NL (xml_params_resize (ds_params st) n) h) as Hd.
  destruct (parse_dan_zdh _ _ _ _) as [[[ret ps] c] d].
  destruct (ret <? 0)%Z; [done|]. rewrite Hd by done. intros [= <-].
  cbn [ds_ptr ds_params]. by rewrite !app_nil_r.
Qed.

(** Whether the body step goes on is decided by the text: with another
    engine, whatever it returns, the step goes on from the same cursor. *)
Lemma dan_body_same_text (mem NL : bytes) (st1 st1' st' : @dan_state divelog) :
  mem ≠ [] →
  ds_ptr st1' = ds_ptr st1 → ds_params st1' = ds_params st1 →
  dan_body engine1 (Some mem) mem NL st1 = Returns (inl st') →
  ∃ doc,
    dan_body engine2 (Some mem) mem NL st1'
    = Returns (inl (DanState (ds_ptr st')
                      (Z.lor (ds_ret st1') (engine2 doc (ds_params st') (ds_log st1')).1)
                      (ds_params st') (engine2 doc (ds_params st') (ds_log st1')).2
                      (ds_diags st1'))).
Proof.
  intros Hmem Hp Hps. unfold dan_body. rewrite Hp, Hps.
  pose proof (dan_profile_accepted mem NL (ds_ptr st1)) as Hacc.
  destruct (dan_profile mem NL (ds_ptr st1)) as [[[ret p2] payload] d2].
  destruct (ret <? 0)%Z eqn:Eret; [done|].
  destruct p2 as [p2|]; [|done].
  destruct (Hacc ret p2 payload d2 eq_refl Eret) as (-> & _).
  destruct (starts_with mem p2 (lit "ZDT")); [|done].
  pose proof (parse_dan_zdt_diags mem NL (ds_params st1) p2) as Hd.
  destruct (parse_dan_zdt _ _ _ _) as [[[ret' ps] c] d].
  destruct (ret' <? 0)%Z; [done|]. rewrite Hd by done.
  rewrite !try_to_xslt_open_csv_spec.
  assert (wrapper_input (Some mem) payload
          = Some (match payload with [] => mem | _ => payload end)) as ->
    by (by destruct payload).
  set (src := match payload with [] => mem | _ => payload end).
  assert (Hsrc : src ≠ []) by (unfold src; by destruct payload).
  destruct src as [|c0 src']; [done|].
  cbn [mbind outcome_bind]. change (0 =? 0)%Z with true. cbv iota.
  destruct (engine1 _ ps (ds_log st1)) as [r1 log1].
  intros [= <-]. cbn [ds_ptr ds_params].
  exists (wrapped (c0 :: src') (lit "csv")).
  destruct (engine2 _ ps (ds_log st1')) as [r2 log2]. cbn [fst snd].
  by rewrite !app_nil_r.
Qed.

Lemma dan_dive_same_text (mem NL : bytes) (n : nat) (st st2 st' : @dan_state divelog) :
  mem ≠ [] → 0 < strlen NL →
  ds_ptr st2 = ds_ptr st →
  xml_params_resize (ds_params st2) n = xml_params_resize (ds_params st) n →
  dan_dive engine1 (Some mem) mem NL n st = Returns (inl st') →
  ∃ doc,
    dan_dive engine2 (Some mem) mem NL n st2
    = Returns (inl (DanState (ds_ptr st')
                      (Z.lor (ds_ret st2) (engine2 doc (ds_params st') (ds_log st2)).1)
                      (ds_params st') (engine2 doc (ds_params st') (ds_log st2)).2
                      (ds_diags st2))).
Proof.
  intros Hmem HNL Hp Hps. unfold dan_dive.
  destruct (dan_header mem NL n st) as [[st1|r]| |] eqn:Hh; try done.
  cbn [mbind outcome_bind]. intros Hb.
  rewrite (dan_header_same_text mem NL n st st2 st1 HNL Hp Hps Hh).
  cbn [mbind outcome_bind].
  destruct (dan_body_same_text mem NL st1
              (DanState (ds_ptr st1) (ds_ret st2) (ds_params st1) (ds_log st2) (ds_diags st2))
              st' Hmem eq_refl eq_refl Hb) as (doc & Hb2).
  exists doc. exact Hb2.
Qed.
End DANEngines.

Section DANStatusLoop.
Context {divelog : Type}.
Variable parse_xml_buffer : bytes -> xml_params -> divelog -> Z * divelog.

(** X26. The status of the dive loop: a dive whose transform fails does
    not stop the loop.  The status of a decoded dive is or-ed into the
    status so far, which is therefore 0 afterwards exactly when it was 0
    before and the engine returned 0, and a status that is not 0 stays so
    for every dive that follows.  Whether the loop goes on behind a dive
    is decided by the text alone: where one engine lets the dive through,
    the loop goes on with every other engine too, whatever status that
    engine returns, from the same cursor and with the same parameters,
    the status or-ed in and nothing reported. *)
Theorem dan_status_accumulates (mem : bytes) (params : xml_params) (log : divelog)
    (NL : bytes) (st st' st'' : @dan_state divelog) :
  dan_at parse_xml_buffer mem params log NL st →
  dan_dive parse_xml_buffer (Some mem) mem NL (xml_params_count params) st
  = Returns (inl st') →
  (∃ doc,
     let r := (parse_xml_buffer doc (ds_params st') (ds_log st)).1 in
     ds_ret st' = Z.lor (ds_ret st) r
     ∧ (ds_ret st' = 0%Z ↔ ds_ret st = 0%Z ∧ r = 0%Z))
  ∧ (dan_reaches parse_xml_buffer (Some mem) mem NL (xml_params_count params) st' st'' →
     ds_ret st' ≠ 0%Z → ds_ret st'' ≠ 0%Z)
  ∧ (∀ (engine : bytes -> xml_params -> divelog -> Z * divelog) (st2 : @dan_state divelog),
       ds_ptr st2 = ds_ptr st →
       xml_params_resize (ds_params st2) (xml_params_count params)
       = xml_params_resize (ds_params st) (xml_params_count params) →
       ∃ doc,
         let r := (engine doc (ds_params st') (ds_log st2)).1 in
         let next := DanState (ds_ptr st') (Z.lor (ds_ret st2) r) (ds_params st')
                       (engine doc (ds_params st') (ds_log st2)).2 (ds_diags st2) in
         dan_dive engine (Some mem) mem NL (xml_params_count params) st2
         = Returns (inl next)
         ∧ (ds_ptr st < length mem →
            ∀ fuel, dan_loop engine (S fuel) (Some mem) mem NL (xml_params_count params) st2
                    = dan_loop engine fuel (Some mem) mem NL (xml_params_count params) next)).
Proof.
  intros (ptr & Hdet & Hreach) Hd.
  pose proof (detect_NL_strlen _ _ _ Hdet) as HNL.
  pose proof (detect_NL_bound _ _ _ Hdet) as Hptr.
  assert (Hmem : mem ≠ []) by (destruct mem; [simpl in Hptr; lia|done]).
  apply dan_reaches_inv in Hreach as (Hn & _); [|done|done|simpl; lia].
  pose proof Hd as Hd0.
  apply dan_dive_inl in Hd as ((hdr & w & Hps & _) & (doc & _ & Hr) & _); [|done|done].
  split_and!.
  - exists doc. cbv zeta. split; [done|]. rewrite Hr. apply Z.lor_eq_0_iff.
  - intros Hreach'. eapply dan_reaches_status; [done|done| ].
    rewrite Hps, length_app, length_take. unfold xml_params_count in *. lia.
  - intros engine st2 Hp2 Hps2.
    destruct (dan_dive_same_text parse_xml_buffer engine mem NL (xml_params_count params)
                st st2 st' Hmem HNL Hp2 Hps2 Hd0) as (doc2 & Hd2).
    exists doc2. cbv zeta. split; [done|].
    intros Hlt fuel. cbn [dan_loop]. rewrite decide_True by lia.
    rewrite Hd2. done.
Qed.
End DANStatusLoop.

Lemma dan_status_accumulates_witness :
  ∃ doc,
    let r := (rejecting_engine doc (ds_params dl7_two_dives_rejected) []).1 in
    ds_ret dl7_two_dives_rejected = Z.lor 0 r
    ∧ (ds_ret dl7_two_dives_rejected = 0%Z ↔ 0%Z = 0%Z ∧ r = 0%Z).
Proof.
  assert (Hat : dan_at rejecting_engine dl7_two_dives [] [] [CR; LF]
                  (DanState 20 0%Z [] [] []))
    by (exists 20; split; [reflexivity|apply dan_reaches_refl]).
  exact (proj1 (dan_status_accumulates rejecting_engine dl7_two_dives [] [] [CR; LF]
                  (DanState 20 0%Z [] [] []) dl7_two_dives_rejected dl7_two_dives_rejected
                  Hat eq_refl)).
Defined.

(** Both dives of the file are handed to the engine although it rejects
    the first, and the status of the file is the engine's. *)
Example dan_rejected_dives_go_on :
  match parse_dan_format rejecting_engine (Some dl7_two_dives) [] [] with
  | Returns (ret, _, log, diags) =>
      ret = (-1)%Z ∧ length log = 2 ∧ diags = []
      ∧ ds_ret dl7_two_dives_rejected = (-1)%Z
      ∧ (ds_ptr dl7_two_dives_rejected < length dl7_two_dives)%nat
  | _ => False
  end.
Proof. vm_compute. repeat split; lia. Qed.

(** ** The sample loop of the MkVI decoder on the text of a CSV file *)

Lemma scan_d_numeral (n : numeral) (rest : bytes) :
  numeral_ok n → no_digit_head rest →
  scan_d (numeral_text n ++ rest) = Converted (numeral_value n) rest.
Proof.
  destruct n as [neg ds]. unfold numeral_ok, numeral_text, numeral_value.
  cbn [num_neg num_digits]. intros (Hne & Hds & Hv) Hrest.
  destruct neg.
  - cbn [app]. unfold scan_d. cbn [skip_space].
    change (isspace "-") with false. cbv iota.
    unfold scan_signed. change (Ascii.eqb "-" "-") with true. cbv iota.
    rewrite scan_digits_run by done.
    destruct ds as [|d ds]; [done|]. cbn [length Nat.add].
    f_equal. unfold int_of_decimal, clamp_long.
    fold (digits_value (d :: ds)).
    pose proof (digits_value_nonneg (d :: ds)). rewrite wrap32_small; lia.
  - cbn [app]. by apply (scan_d_run [] ds rest).
Qed.

Lemma no_digit_head_app (a b : bytes) :
  no_digit_head a → no_digit_head b → no_digit_head (a ++ b).
Proof. destruct a; [done|]. by intros H _. Qed.

Lemma sscanf_d3_row (r : csv_row) (tail : bytes) :
  row_ok r →
  sscanf_d3 "," (row_text r ++ tail)
  = (3%Z, [(row_record r).1; (row_record r).2.1; (row_record r).2.2]).
Proof.
  intros (Ht & Hty & Hv & Hrest & _). unfold row_text, sscanf_d3.
  rewrite <- app_assoc. cbn [app].
  rewrite scan_d_numeral by done. rewrite Ascii.eqb_refl.
  rewrite <- app_assoc. cbn [app].
  rewrite scan_d_numeral by done. rewrite Ascii.eqb_refl.
  rewrite <- !app_assoc.
  rewrite scan_d_numeral; [done|done|].
  apply no_digit_head_app; [done|]. done.
Qed.

Lemma isdigit_text (c : ascii) : isdigit c = true → c ≠ NUL ∧ c ≠ LF.
Proof. intros H. split; intros ->; done. Qed.

Lemma numeral_text_chars (n : numeral) :
  numeral_ok n → Forall (fun c => c ≠ NUL ∧ c ≠ LF) (numeral_text n).
Proof.
  intros (_ & Hds & _). unfold numeral_text. apply Forall_app. split.
  - destruct (num_neg n); [|constructor]. by repeat constructor.
  - eapply Forall_impl; [exact Hds|]. apply isdigit_text.
Qed.

(** A line is a stretch without NUL and newline, and the newline. *)
Lemma row_text_body (r : csv_row) :
  row_ok r →
  ∃ body, row_text r = body ++ [LF] ∧ Forall (fun c => c ≠ NUL ∧ c ≠ LF) body.
Proof.
  intros (Ht & Hty & Hv & _ & Hrest).
  exists (numeral_text (row_time r) ++ "," :: numeral_text (row_type r) ++ ","
            :: numeral_text (row_value r) ++ row_rest r).
  split.
  - unfold row_text. rewrite <- !app_assoc. cbn [app]. rewrite <- !app_assoc. cbn [app].
    by rewrite <- !app_assoc.
  - apply Forall_app. split; [by apply numeral_text_chars|].
    constructor; [done|]. apply Forall_app. split; [by apply numeral_text_chars|].
    constructor; [done|]. apply Forall_app. split; [by apply numeral_text_chars|done].
Qed.

Lemma csv_text_nonul (rows : list csv_row) :
  Forall row_ok rows → Forall (fun c => c ≠ NUL) (csv_text rows).
Proof.
  induction 1 as [|r rows Hr _ IH]; [constructor|].
  unfold csv_text. cbn [flat_map]. apply Forall_app. split; [|exact IH].
  destruct (row_text_body r Hr) as (body & -> & Hb).
  apply Forall_app. split; [|by repeat constructor].
  eapply Forall_impl; [exact Hb|]. by intros c [? _].
Qed.

Lemma csv_text_cons (r : csv_row) (rows : list csv_row) :
  csv_text (r :: rows) = row_text r ++ csv_text rows.
Proof. done. Qed.

(** What the decoder sees of a line at the cursor: its three numbers,
    and the newline that ends it. *)
Lemma mkvi_line_at (buf : bytes) (p : nat) (r : csv_row) (tail : bytes) :
  Forall (fun c => c ≠ NUL) buf →
  drop p buf = row_text r ++ tail →
  row_ok r →
  sscanf_d3 "," (cstr (drop p buf))
  = (3%Z, [(row_record r).1; (row_record r).2.1; (row_record r).2.2])
  ∧ ∃ q, strchr buf p LF = Some q
         ∧ char_at buf q = LF
         ∧ q + 1 = p + length (row_text r)
         ∧ drop (q + 1) buf = tail.
Proof.
  intros Hbuf Hd Hr. split.
  - rewrite cstr_nonul by (by apply Forall_drop). rewrite Hd. by apply sscanf_d3_row.
  - destruct (row_text_body r Hr) as (body & Hb & Hchars).
    rewrite Hb in Hd. rewrite <- app_assoc in Hd.
    exists (p + length body). split_and!.
    + unfold strchr. by apply (strstr_parts buf p body tail LF []).
    + by apply (char_at_parts buf p body tail LF).
    + rewrite Hb, length_app. simpl. lia.
    + replace (p + length body + 1) with (p + length (body ++ [LF]))
        by (rewrite length_app; simpl; lia).
      apply drop_parts. by rewrite <- app_assoc.
Qed.

(** What the decoder sees at the end of the text. *)
Lemma mkvi_line_end (buf : bytes) (p : nat) :
  drop p buf = [] →
  sscanf_d3 "," (cstr (drop p buf)) = (EOF, []) ∧ strchr buf p LF = None.
Proof. intros Hd. unfold strchr, strstr. by rewrite Hd. Qed.

Lemma timestamp_groups_head (x : Z * (Z * Z)) (recs : list (Z * (Z * Z))) :
  ∃ g groups, timestamp_groups (x :: recs) = (x.1, g) :: groups.
Proof.
  destruct x as [t r]. cbn [timestamp_groups fst].
  destruct (timestamp_groups recs) as [|[t' g] groups]; [by eexists _, _|].
  destruct (t =? t')%Z; by eexists _, _.
Qed.

(** A run of records with one timestamp, followed by a record with
    another or by nothing, is the first group. *)
Lemma timestamp_groups_run (t : Z) (run rest : list (Z * (Z * Z))) :
  run ≠ [] →
  Forall (fun x => x.1 = t) run →
  match rest with [] => True | x :: _ => x.1 ≠ t end →
  timestamp_groups (run ++ rest) = (t, map snd run) :: timestamp_groups rest.
Proof.
  intros Hne Hrun Hrest. induction run as [|[t0 r0] run IH]; [done|].
  apply Forall_cons in Hrun as [Ht0 Hrun]. cbn [fst] in Ht0. subst t0.
  cbn [app timestamp_groups map snd].
  destruct run as [|x run].
  - cbn [app map]. destruct rest as [|y rest]; [done|].
    destruct (timestamp_groups_head y rest) as (g & groups & ->).
    by rewrite (proj2 (Z.eqb_neq t y.1)) by congruence.
  - rewrite IH by done. by rewrite Z.eqb_refl.
Qed.

Lemma gaschange_events_concat (l : list (list event)) :
  gaschange_events (concat l) = concat (map gaschange_events l).
Proof.
  induction l as [|x l IH]; [done|]. cbn [concat map].
  by rewrite gaschange_events_app, IH.
Qed.

Section MkVICsv.
Variable float_conv : csv_format -> Z -> Z.
Variable battery_event_defined : bool.
Variable indet : nat -> Z.

Lemma mkvi_record_records (cur type value : Z) (g : group_vars) :
  g_records (mkvi_record float_conv battery_event_defined cur type value g) = g_records g.
Proof.
  unfold mkvi_record, mouthpiece_event.
  repeat match goal with
         | |- context [(type =? ?k)%Z] => destruct (type =? k)%Z
         | |- context [(value =? ?k)%Z] => destruct (value =? k)%Z
         | |- context [if battery_event_defined then _ else _] =>
             destruct battery_event_defined
         end; done.
Qed.

(** The inner loop on a text of lines: it consumes the longest run of
    lines that carry the timestamp of the first, records them in order,
    and ends at the head of the next line with that line's timestamp
    read, or at the end of the text. *)
Lemma mkvi_group_loop_rows (rows : list csv_row) :
  ∀ (r : csv_row) (fuel : nat) (buf : bytes) (p : nat) (sampletime : Z) (g : group_vars),
  Forall (fun c => c ≠ NUL) buf →
  drop p buf = csv_text (r :: rows) →
  Forall row_ok (r :: rows) →
  length buf - p < fuel →
  ∃ run rest g',
    r :: rows = run ++ rest ∧ run ≠ []
    ∧ Forall (fun x => (row_record x).1 = (row_record r).1) run
    ∧ match rest with [] => True | r' :: _ => (row_record r').1 ≠ (row_record r).1 end
    ∧ mkvi_group_loop float_conv battery_event_defined fuel buf p sampletime
        (row_record r).1 g
      = Returns (match rest with [] => None | _ => Some (p + length (csv_text run)) end,
                 match rest with [] => (row_record r).1 | r' :: _ => (row_record r').1 end,
                 g')
    ∧ g_records g' = g_records g ++ map (fun x => (row_record x).2) run
    ∧ drop (p + length (csv_text run)) buf = csv_text rest.
Proof.
  induction rows as [|r2 rows IH]; intros r fuel buf p sampletime g Hbuf Hd Hok Hf.
  - (* the last line of the text *)
    apply Forall_cons in Hok as [Hr _].
    rewrite csv_text_cons in Hd.
    destruct (mkvi_line_at buf p r (csv_text []) Hbuf Hd Hr)
      as (Hscan & q & Hq & Hc & Hq1 & Hd1).
    assert (Hlen : p + 1 ≤ length buf).
    { apply (f_equal length) in Hd. rewrite length_drop, length_app in Hd.
      assert (0 < length (row_text r)) by (destruct (row_text_body r Hr) as (b & -> & _);
                                            rewrite length_app; simpl; lia).
      lia. }
    destruct fuel as [|[|fuel]]; [lia|lia|].
    exists [r], [], (mkvi_record float_conv battery_event_defined (row_record r).1
                       (row_record r).2.1 (row_record r).2.2
                       (saw_record (row_record r).2.1 (row_record r).2.2 g)).
    split_and!; try done.
    + by repeat constructor.
    + destruct (mkvi_line_end buf (q + 1) Hd1) as [Hscan' Hq'].
      cbn [mkvi_group_loop]. rewrite Hscan, Hq, Hc, Hscan', Hq'.
      change (Ascii.eqb LF NUL) with false. cbv iota.
      cbn [stored lookup list_lookup default]. unfold id.
      rewrite Z.eqb_refl.
      change (3 =? 3)%Z with true. change (EOF =? 3)%Z with false.
      change (EOF =? EOF)%Z with true. cbv iota. done.
    + rewrite mkvi_record_records. cbn [saw_record g_records map]. by destruct (row_record r) as [? [? ?]].
    + unfold csv_text at 1. cbn [flat_map]. rewrite app_nil_r, <- Hq1. exact Hd1.
  - (* a line with a line behind it *)
    pose proof Hok as Hok0.
    apply Forall_cons in Hok as [Hr Hok].
    pose proof Hok as Hok2. apply Forall_cons in Hok2 as [Hr2 _].
    rewrite csv_text_cons in Hd.
    destruct (mkvi_line_at buf p r (csv_text (r2 :: rows)) Hbuf Hd Hr)
      as (Hscan & q & Hq & Hc & Hq1 & Hd1).
    pose proof Hd1 as Hd2. rewrite csv_text_cons in Hd2.
    destruct (mkvi_line_at buf (q + 1) r2 (csv_text rows) Hbuf Hd2 Hr2) as (Hscan2 & _).
    assert (Hlen1 : p < q + 1).
    { destruct (row_text_body r Hr) as (b & Hb & _). rewrite Hb, length_app in Hq1.
      simpl in Hq1. lia. }
    assert (Hlen : q + 1 ≤ length buf).
    { apply (f_equal length) in Hd. rewrite length_drop, length_app in Hd. lia. }
    destruct fuel as [|fuel]; [lia|].
    set (g1 := mkvi_record float_conv battery_event_defined (row_record r).1
                 (row_record r).2.1 (row_record r).2.2
                 (saw_record (row_record r).2.1 (row_record r).2.2 g)).
    assert (Hg1 : g_records g1 = g_records g ++ [(row_record r).2]).
    { unfold g1. rewrite mkvi_record_records. cbn [saw_record g_records].
      by destruct (row_record r) as [? [? ?]]. }
    destruct (Z.eqb_spec (row_record r).1 (row_record r2).1) as [Heq|Hneq].
    + destruct (IH r2 fuel buf (q + 1) (row_record r).1 g1 Hbuf Hd1 Hok ltac:(lia))
        as (run & rest & g' & Hsplit & Hne & Hrun & Hrest & Hloop & Hrecs & Hdrop).
      exists (r :: run), rest, g'.
      assert (Hpos : p + length (csv_text (r :: run)) = q + 1 + length (csv_text run)).
      { rewrite csv_text_cons, length_app. lia. }
      split_and!.
      * by rewrite Hsplit.
      * done.
      * constructor; [done|]. eapply Forall_impl; [exact Hrun|].
        intros x Hx. by rewrite Heq.
      * destruct rest as [|r' rest]; [done|]. by rewrite Heq.
      * cbn [mkvi_group_loop]. rewrite Hscan, Hq, Hc, Hscan2.
        change (Ascii.eqb LF NUL) with false. cbv iota.
        cbn [stored lookup list_lookup default]. unfold id.
        rewrite (proj2 (Z.eqb_eq _ _) Heq).
        change (3 =? 3)%Z with true. cbv iota. fold g1.
        rewrite Hloop, Hpos. by rewrite Heq.
      * rewrite Hrecs, Hg1, <- app_assoc. done.
      * rewrite Hpos. exact Hdrop.
    + exists [r], (r2 :: rows), g1.
      assert (Hpos : p + length (csv_text [r]) = q + 1).
      { unfold csv_text. cbn [flat_map]. rewrite app_nil_r. lia. }
      split_and!; try done.
      * by repeat constructor.
      * cbn [mkvi_group_loop]. rewrite Hscan, Hq, Hc, Hscan2.
        change (Ascii.eqb LF NUL) with false. cbv iota.
        cbn [stored lookup list_lookup default]. unfold id.
        rewrite (proj2 (Z.eqb_neq _ _) Hneq).
        change (3 =? 3)%Z with true. cbv iota. fold g1. by rewrite Hpos.
      * by rewrite Hpos.
Qed.
Lemma char_at_nonul (buf : bytes) (p : nat) :
  Forall (fun c => c ≠ NUL) buf → p < length buf → char_at buf p ≠ NUL.
Proof.
  intros Hbuf Hp. unfold char_at. rewrite nth_lookup.
  destruct (lookup_lt_is_Some_2 buf p Hp) as [x Hx]. rewrite Hx. cbn [default]. unfold id.
  by apply (Forall_lookup_1 (fun c => c ≠ NUL) buf p x).
Qed.

(** One timestamp group on a text of lines. *)
Lemma mkvi_group_rows (buf : bytes) (st : mkvi_state) (r : csv_row) (rows : list csv_row) :
  Forall (fun c => c ≠ NUL) buf →
  drop (ms_lineptr st) buf = csv_text (r :: rows) →
  Forall row_ok (r :: rows) →
  mkvi_inv (mkvi_conv float_conv) st →
  ∃ run rest st' e,
    r :: rows = run ++ rest ∧ run ≠ []
    ∧ Forall (fun x => (row_record x).1 = (row_record r).1) run
    ∧ match rest with [] => True | r' :: _ => (row_record r').1 ≠ (row_record r).1 end
    ∧ mkvi_group float_conv battery_event_defined indet buf st
      = Returns (st', match rest with [] => false | _ => true end)
    ∧ mkvi_inv (mkvi_conv float_conv) st'
    ∧ ms_trace st' = ms_trace st ++ [e]
    ∧ trace_group e = ((row_record r).1, map (fun x => (row_record x).2) run)
    ∧ gaschange_events (g_events e.2)
      = group_gas_event
          (match rest with [] => (row_record r).1 | r' :: _ => (row_record r').1 end)
          (map (fun x => (row_record x).2) run)
    ∧ (rest ≠ [] →
       ms_lineptr st < ms_lineptr st' < length buf
       ∧ drop (ms_lineptr st') buf = csv_text rest).
Proof.
  intros Hbuf Hd Hok Hinv.
  destruct (mkvi_group_spec float_conv battery_event_defined indet buf st Hinv)
    as (st' & more & Hg & Hinv' & Hmore).
  pose proof Hok as Hok0. apply Forall_cons in Hok0 as [Hr _].
  pose proof Hd as Hd0. rewrite csv_text_cons in Hd0.
  destruct (mkvi_line_at buf (ms_lineptr st) r (csv_text rows) Hbuf Hd0 Hr) as (Hscan & _).
  set (t0 := if ((row_record r).1 <? mkvi_time_limit)%Z then (row_record r).1
             else ms_prev_time st).
  set (g0 := GroupVars false false false (ms_prev_depth st) (ms_prev_setpoint st)
               (ms_prev_ndl st) 0 (set_time prepare_sample t0) [] [] []).
  destruct (mkvi_group_loop_rows rows r (S (length buf - ms_lineptr st)) buf (ms_lineptr st)
              (indet (ms_lineptr st)) g0 Hbuf Hd Hok ltac:(lia))
    as (run & rest & g' & Hsplit & Hne & Hrun & Hrest & Hloop & Hrecs & Hdrop).
  destruct (mkvi_group_loop_spec float_conv battery_event_defined
              (S (length buf - ms_lineptr st)) buf (ms_lineptr st)
              (indet (ms_lineptr st)) (row_record r).1 g0
              (ms_prev_depth st) (ms_prev_setpoint st) (ms_prev_ndl st) t0
              ltac:(lia) (group_inv_init _ _ _ _ _))
    as (lp & cur' & g'' & Hloop' & Hg' & _).
  rewrite Hloop in Hloop'. injection Hloop' as <- <- <-.
  pose proof Hg as Hg0.
  unfold mkvi_group in Hg. rewrite Hscan in Hg.
  cbn [stored lookup list_lookup default] in Hg. unfold id in Hg.
  change (time_seconds (set_time prepare_sample ?t)) with t in Hg.
  fold t0 g0 in Hg. rewrite Hloop in Hg. cbn [mbind outcome_bind] in Hg.
  pose proof (mkvi_finish_fields float_conv
                (match rest with [] => (row_record r).1 | r' :: _ => (row_record r').1 end)
                g') as F.
  cbv zeta in F. destruct F as (Fr & _ & _ & _ & _ & _ & _ & _ & _ & _ & _ & _ & Fe).
  destruct Hg' as (_ & _ & _ & _ & _ & _ & Hgas & _ & _ & _ & _ & _ & _ & _ & Hnone).
  injection Hg as Hst Hm.
  assert (Hmore' : more = match rest with [] => false | _ => true end).
  { destruct rest as [|r' rest]; [done|].
    rewrite <- Hm. apply negb_true_iff. apply Ascii.eqb_neq.
    apply char_at_nonul; [done|].
    destruct (decide (ms_lineptr st + length (csv_text run) < length buf)) as [|Hge];
      [done|].
    rewrite drop_ge in Hdrop by lia. symmetry in Hdrop.
    rewrite csv_text_cons in Hdrop. apply app_eq_nil in Hdrop as [Hdrop _].
    destruct (row_text_body r') as (b & Hb & _).
    { rewrite Hsplit in Hok. apply Forall_app in Hok as [_ Hok].
      by apply Forall_cons in Hok as [? _]. }
    rewrite Hb in Hdrop. by destruct b. }
  clear Hm. subst more.
  exists run, rest, st',
    ((row_record r).1,
     mkvi_finish float_conv
       (match rest with [] => (row_record r).1 | r' :: _ => (row_record r').1 end) g').
  split_and!; try done.
  - by rewrite <- Hst.
  - unfold trace_group. cbn [fst snd]. by rewrite Fr, Hrecs.
  - cbn [snd]. rewrite Fe, gaschange_events_app, Hnone, Hgas, Hrecs. cbn [app].
    unfold group_gas_event. by destruct (gas_sum _ =? 0)%Z.
  - intros Hrest'. destruct rest as [|r' rest]; [done|].
    specialize (Hmore eq_refl). rewrite <- Hst in *. cbn [ms_lineptr default] in *.
    split; [lia|done].
Qed.
(** The sample loop on a text of lines: its groups are the timestamp
    groups of the records of the lines. *)
Lemma mkvi_loop_rows (fuel : nat) (buf : bytes) :
  ∀ (rows : list csv_row) (st : mkvi_state),
  Forall (fun c => c ≠ NUL) buf →
  rows ≠ [] →
  drop (ms_lineptr st) buf = csv_text rows →
  Forall row_ok rows →
  mkvi_inv (mkvi_conv float_conv) st →
  length buf - ms_lineptr st < fuel →
  ∃ st' tr,
    mkvi_loop float_conv battery_event_defined indet fuel buf st = Returns st'
    ∧ mkvi_inv (mkvi_conv float_conv) st'
    ∧ ms_trace st' = ms_trace st ++ tr
    ∧ map trace_group tr = timestamp_groups (csv_records rows)
    ∧ concat (map (fun e => gaschange_events (g_events e.2)) tr)
      = gas_events (timestamp_groups (csv_records rows)).
Proof.
  induction fuel as [|fuel IH]; intros rows st Hbuf Hne Hd Hok Hinv Hf; [lia|].
  destruct rows as [|r rows]; [done|].
  destruct (mkvi_group_rows buf st r rows Hbuf Hd Hok Hinv)
    as (run & rest & st1 & e & Hsplit & Hrne & Hrun & Hrest & Hg & Hinv1 & Htr & He
        & Hgas & Hnext).
  cbn [mkvi_loop]. rewrite Hg. cbn [mbind outcome_bind].
  assert (Hgroups : timestamp_groups (csv_records (r :: rows))
                    = ((row_record r).1, map (fun x => (row_record x).2) run)
                      :: timestamp_groups (csv_records rest)).
  { rewrite Hsplit. unfold csv_records. rewrite map_app.
    rewrite (timestamp_groups_run (row_record r).1).
    - by rewrite map_map.
    - by destruct run.
    - by apply Forall_fmap.
    - by destruct rest. }
  rewrite Hgroups.
  destruct rest as [|r' rest].
  - exists st1, [e]. split_and!; try done.
    + cbn [map]. by rewrite He.
    + cbn [map concat gas_events csv_records timestamp_groups]. by rewrite Hgas.
  - destruct Hnext as [Hlt Hd1]; [done|].
    assert (Hok1 : Forall row_ok (r' :: rest)).
    { rewrite Hsplit in Hok. by apply Forall_app in Hok as [_ ?]. }
    destruct (IH (r' :: rest) st1 Hbuf ltac:(done) Hd1 Hok1 Hinv1 ltac:(lia))
      as (st' & tr' & Hloop & Hinv' & Htr' & Hmap & Hev).
    exists st', (e :: tr'). split_and!; try done.
    + rewrite Htr', Htr, <- app_assoc. done.
    + cbn [map]. by rewrite He, Hmap.
    + cbn [map concat gas_events]. rewrite Hgas, Hev.
      unfold csv_records. cbn [map].
      destruct (timestamp_groups_head (row_record r') (map row_record rest))
        as (g & groups & ->). done.
Qed.

(** The run of the sample loop on the text of a CSV file, in terms of
    the lines of the file. *)
Lemma parse_txt_file_samples_rows (rows : list csv_row) :
  rows ≠ [] → Forall row_ok rows →
  ∃ st,
    parse_txt_file_samples float_conv battery_event_defined indet (csv_text rows)
    = Returns st
    ∧ mkvi_inv (mkvi_conv float_conv) st
    ∧ map trace_group (ms_trace st) = timestamp_groups (csv_records rows)
    ∧ gaschange_events (ms_events st) = gas_events (timestamp_groups (csv_records rows)).
Proof.
  intros Hne Hok. unfold parse_txt_file_samples.
  destruct (mkvi_loop_rows (S (length (csv_text rows))) (csv_text rows) rows
              (MkviState 0 0 0 (-1) (-1) 0 [] [] [] [])
              (csv_text_nonul rows Hok) Hne eq_refl Hok)
    as (st & tr & Hloop & Hinv & Htr & Hmap & Hev).
  { unfold mkvi_inv, all_records. simpl. repeat split. }
  { simpl. lia. }
  exists st. cbn [ms_trace app] in Htr. subst tr.
  split_and!; try done.
  destruct Hinv as (_ & -> & _). rewrite gaschange_events_concat, map_map. exact Hev.
Qed.

Lemma map_middle_inv {A B : Type} (f : A → B) (l : list A) (pre post : list B) (y : B) :
  map f l = pre ++ y :: post →
  ∃ pre' x post', l = pre' ++ x :: post' ∧ map f pre' = pre ∧ f x = y ∧ map f post' = post.
Proof.
  revert l. induction pre as [|b pre IH]; intros [|a l]; cbn [map app]; try done.
  - intros [= <- <-]. by exists [], a, l.
  - intros [= <- H]. destruct (IH l H) as (pre' & x & post' & -> & <- & <- & <-).
    by exists (a :: pre'), x, post'.
Qed.

(** The gas-change event of a group among those of all groups. *)
Lemma gas_events_middle (pre post : list (Z * list (Z * Z))) (t : Z) (recs : list (Z * Z)) :
  ∃ a, gas_events (pre ++ (t, recs) :: post)
       = a ++ group_gas_event (match post with (t', _) :: _ => t' | [] => t end) recs
           ++ gas_events post.
Proof.
  induction pre as [|[t0 r0] pre (a & IH)]; [by exists []|].
  cbn [app gas_events]. rewrite IH. eexists (_ ++ a). by rewrite <- app_assoc.
Qed.


(** C4. On the text of a CSV file, for every timestamp group of its
    lines and the sample made of it: a group without a depth record
    (type 8) gets the depth of the last depth record before it, which is
    the depth of the previous sample, and zero depth when it is the first
    group; without a setpoint (type 20) or NDL (type 37) record the field
    falls back to the last earlier value only when that value is not
    negative, and stays unset otherwise; temperature (type 39) and the
    tank pressures (types 13 and 14) stay unset when the group has no such
    record.  A record of the group itself wins over what is carried. *)
Theorem mkvi_carry_forward (rows : list csv_row) :
  rows ≠ [] → Forall row_ok rows →
  let groups := timestamp_groups (csv_records rows) in
  let conv := mkvi_conv float_conv in
  ∃ st,
    parse_txt_file_samples float_conv battery_event_defined indet (csv_text rows)
    = Returns st
    ∧ length (ms_samples st) = length groups
    ∧ ∀ pre g post s,
        groups = pre ++ g :: post → ms_samples st !! length pre = Some s →
        let recs := g.2 in
        let before := concat (map snd pre) in
        (has_type 8 recs = false →
           depth_mm s = Some (conv POSEIDON_DEPTH (default 0%Z (last_value 8 before)))
           ∧ match pre with
             | [] => depth_mm s = Some 0%Z
             | _ :: _ => ∃ s0, ms_samples st !! (length pre - 1) = Some s0
                               ∧ depth_mm s = depth_mm s0
             end)
        ∧ (has_type 20 recs = false →
             setpoint_mbar s = carried (conv POSEIDON_SETPOINT) 20 before)
        ∧ (has_type 37 recs = false →
             ndl_seconds s = carried (conv POSEIDON_NDL) 37 before)
        ∧ (has_type 39 recs = false → temperature_mkelvin s = None)
        ∧ (has_type 13 recs = false → pressure0_mbar s = None)
        ∧ (has_type 14 recs = false → pressure1_mbar s = None)
        ∧ (∀ v, last_value 8 recs = Some v → depth_mm s = Some (conv POSEIDON_DEPTH v))
        ∧ (∀ v, last_value 20 recs = Some v →
             setpoint_mbar s = Some (conv POSEIDON_SETPOINT v))
        ∧ (∀ v, last_value 37 recs = Some v → ndl_seconds s = Some (conv POSEIDON_NDL v)).
Proof.
  intros Hne Hok groups conv.
  destruct (parse_txt_file_samples_rows rows Hne Hok) as (st & Hrun & Hinv & Hmap & _).
  fold groups in Hmap.
  destruct Hinv as (I1 & _ & _ & _ & _ & _ & I7).
  exists st. split; [done|]. split.
  { by rewrite I1, length_map, <- Hmap, length_map. }
  intros pre g post s Hg Hs. rewrite Hg in Hmap.
  apply map_middle_inv in Hmap as (pre' & e & post' & Htr & Hpre & He & _).
  assert (Hlen : length pre = length pre') by (by rewrite <- Hpre, length_map).
  assert (s = g_sample e.2) as ->.
  { rewrite I1, Htr, map_app, Hlen in Hs. cbn [map] in Hs.
    rewrite list_lookup_middle in Hs by (by rewrite length_map). by injection Hs. }
  assert (Hbefore : concat (map snd pre) = all_records pre').
  { unfold all_records. by rewrite <- Hpre, map_map. }
  assert (Hrecs : g.2 = g_records e.2) by (by rewrite <- He).
  cbv zeta. rewrite Hbefore, Hrecs.
  rewrite Htr in I7.
  apply trace_ok_middle in I7 as (Hok' & _ & Hd & Hsp & Hn & Ht & Hp0 & Hp1 & _).
  unfold has_type. split_and!.
  - destruct (last_value 8 (g_records e.2)); [done|]. intros _. split; [by rewrite Hd|].
    destruct pre as [|g0 pre0].
    + destruct pre'; [|done]. by rewrite Hd.
    + destruct pre' as [|e1 pre1 _] using rev_ind; [done|].
      exists (g_sample e1.2). split.
      * rewrite I1, Htr, <- app_assoc, map_app. rewrite Hlen, length_app. cbn [length map app].
        apply list_lookup_middle. rewrite length_map. lia.
      * rewrite Hd. rewrite trace_ok_app in Hok'.
        destruct Hok' as (_ & (_ & -> & _) & _).
        by rewrite all_records_snoc, default_last_value_app.
  - destruct (last_value 20 (g_records e.2)); [done|]. by rewrite Hsp.
  - destruct (last_value 37 (g_records e.2)); [done|]. by rewrite Hn.
  - destruct (last_value 39 (g_records e.2)); [done|]. by rewrite Ht.
  - destruct (last_value 13 (g_records e.2)); [done|]. by rewrite Hp0.
  - destruct (last_value 14 (g_records e.2)); [done|]. by rewrite Hp1.
  - intros v Hv. by rewrite Hd, Hv.
  - intros v Hv. by rewrite Hsp, Hv.
  - intros v Hv. by rewrite Hn, Hv.
Qed.


(** C8. The threshold of the workaround is 49151; on the text of a CSV
    file the time of the sample of each timestamp group is the timestamp
    of the lines of the group when that is below the threshold, and
    otherwise the time of the previous sample, zero for the first. *)
Theorem mkvi_time_workaround (rows : list csv_row) :
  rows ≠ [] → Forall row_ok rows →
  mkvi_time_limit = 49151%Z
  ∧ ∃ st,
      parse_txt_file_samples float_conv battery_event_defined indet (csv_text rows)
      = Returns st
      ∧ map time_seconds (ms_samples st)
        = clamp_times 0 (map fst (timestamp_groups (csv_records rows))).
Proof.
  intros Hne Hok. split; [reflexivity|].
  destruct (parse_txt_file_samples_rows rows Hne Hok)
    as (st & Hrun & (I1 & _ & _ & _ & _ & _ & I7) & Hmap & _).
  exists st. split; [done|]. rewrite I1, map_map, <- Hmap, map_map.
  by eapply trace_ok_times.
Qed.

(** X12. The timestamp of a gas-change event: the event of a group is
    added after the group's last line, when the timestamp of the next
    line has already been read; so on the text of a CSV file it carries
    the timestamp of the group that follows, not its own, and only the
    event of the last group carries the timestamp of its own lines. *)
Theorem mkvi_gaschange_timestamp (rows : list csv_row) :
  rows ≠ [] → Forall row_ok rows →
  let groups := timestamp_groups (csv_records rows) in
  ∃ st,
    parse_txt_file_samples float_conv battery_event_defined indet (csv_text rows)
    = Returns st
    ∧ map ev_time (gaschange_events (ms_events st)) = map ev_time (gas_events groups)
    ∧ (∀ pre g1 g2 post, groups = pre ++ g1 :: g2 :: post → gas_sum g1.2 ≠ 0%Z →
         Event g2.1 SAMPLE_EVENT_GASCHANGE2 FLAGS_0 (gas_sum g1.2) "gaschange"
         ∈ gaschange_events (ms_events st))
    ∧ (∀ pre g, groups = pre ++ [g] → gas_sum g.2 ≠ 0%Z →
         Event g.1 SAMPLE_EVENT_GASCHANGE2 FLAGS_0 (gas_sum g.2) "gaschange"
         ∈ gaschange_events (ms_events st)).
Proof.
  intros Hne Hok groups.
  destruct (parse_txt_file_samples_rows rows Hne Hok) as (st & Hrun & _ & _ & Hev).
  fold groups in Hev.
  exists st. split_and!; [done|by rewrite Hev| |].
  - intros pre [t1 r1] [t2 r2] post Hg Hnz. cbn [fst snd] in *.
    destruct (gas_events_middle pre ((t2, r2) :: post) t1 r1) as (a & Ha).
    rewrite <- Hg, <- Hev in Ha. rewrite Ha.
    apply elem_of_app. right. apply elem_of_app. left. unfold group_gas_event.
    rewrite (proj2 (Z.eqb_neq _ _) Hnz). by left.
  - intros pre [t r] Hg Hnz. cbn [fst snd] in *.
    destruct (gas_events_middle pre [] t r) as (a & Ha).
    rewrite <- Hg, <- Hev in Ha. rewrite Ha.
    apply elem_of_app. right. apply elem_of_app. left. unfold group_gas_event.
    rewrite (proj2 (Z.eqb_neq _ _) Hnz). by left.
Qed.
End MkVICsv.

(** ** The example stream, line by line *)

Lemma mkvi_rows_text : csv_text mkvi_rows = mkvi_stream.
Proof. reflexivity. Qed.

Lemma mkvi_rows_ok : Forall row_ok mkvi_rows.
Proof. repeat constructor; done. Qed.

Lemma mkvi_rows_signed_ok : Forall row_ok mkvi_rows_signed.
Proof. repeat constructor; done. Qed.

Lemma mkvi_rows_groups :
  timestamp_groups (csv_records mkvi_rows)
  = [(5, [(85, 10); (86, 21); (8, 20)]); (60000, [(13, 3)]); (7, [(20, 13)])]%Z.
Proof. reflexivity. Qed.

Lemma mkvi_carry_forward_witness :
  ∃ st,
    parse_txt_file_samples (fun _ v => v) false (fun _ => 0%Z) mkvi_stream = Returns st
    ∧ length (ms_samples st) = 3.
Proof.
  destruct (mkvi_carry_forward (fun _ v => v) false (fun _ => 0%Z) mkvi_rows
              ltac:(done) mkvi_rows_ok) as (st & Hrun & Hlen & _).
  exists st. split; [exact Hrun|exact Hlen].
Defined.


Lemma mkvi_time_workaround_witness :
  ∃ st,
    parse_txt_file_samples (fun _ v => v) false (fun _ => 0%Z) mkvi_stream = Returns st
    ∧ map time_seconds (ms_samples st) = [5; 5; 7]%Z.
Proof.
  destruct (mkvi_time_workaround (fun _ v => v) false (fun _ => 0%Z) mkvi_rows
              ltac:(done) mkvi_rows_ok) as (_ & st & Hrun & Ht).
  exists st. split; [exact Hrun|exact Ht].
Defined.

Lemma mkvi_gaschange_timestamp_witness :
  ∃ st,
    parse_txt_file_samples (fun _ v => v) false (fun _ => 0%Z) mkvi_stream = Returns st
    ∧ map ev_time (gaschange_events (ms_events st)) = [60000%Z].
Proof.
  destruct (mkvi_gaschange_timestamp (fun _ v => v) false (fun _ => 0%Z) mkvi_rows
              ltac:(done) mkvi_rows_ok) as (st & Hrun & Ht & _).
  exists st. split; [exact Hrun|exact Ht].
Defined.

(** A negative setpoint is recorded in its own group and not carried
    into the next; the text behind the value and the carriage returns
    are skipped. *)
Example mkvi_rows_signed_decoded :
  match parse_txt_file_samples (fun _ v => v) false (fun _ => 0%Z)
          (csv_text mkvi_rows_signed) with
  | Returns st =>
      csv_text mkvi_rows_signed
      = lit ("1,20,-7" ++ crlf ++ "1,8,12,x" ++ crlf ++ "2,39,100" ++ crlf)
      ∧ map time_seconds (ms_samples st) = [1; 2]%Z
      ∧ map setpoint_mbar (ms_samples st) = [Some (-70)%Z; None]
      ∧ map depth_mm (ms_samples st) = [Some 6000%Z; Some 6000%Z]
      ∧ map temperature_mkelvin (ms_samples st) = [None; Some 100%Z]
  | _ => False
  end.
Proof. vm_compute. repeat split. Qed.

(** The depth is kept in 32 bits: the product of a large value wraps. *)
Example mkvi_depth_wraps :
  match parse_txt_file_samples (fun _ v => v) false (fun _ => 0%Z)
          (lit ("2,8,2147483647" ++ lf)) with
  | Returns st => map depth_mm (ms_samples st) = [Some (-500)%Z]
  | _ => False
  end.
Proof. vm_compute. reflexivity. Qed.
